(** * muxie: the path-pattern trie (trie.go and the methods of Node)

    A shallow embedding of the trie of [kivera-io/muxie] and the
    properties of its insertion and search.

    Go values are modelled as follows.
    - [string] is a sequence of bytes: Rocq's [string] (a list of 8-bit
      [ascii]).  Indexing and slicing panic out of range, as in Go.
    - [strings.ToLower] has its two branches: byte by byte on ASCII
      text, rune by rune on any other.  Of the case table of package
      [unicode] only the entry of the Kelvin sign is written out; the
      rest is sealed.  [Search] slices the lowered copy of the request
      by the indices of the request, so what is proved of its matching
      on a case-insensitive trie is proved for ASCII requests
      ([within_ascii]).
    - [int] is [Z]; every integer of the program is a length or an index
      of a string or slice, far from the 64-bit bounds.
    - [*Node] is an address into the trie's heap of nodes, or nil:
      [ptr := option addr].  The heap is a list of nodes; [NewNode]
      allocates at its end.  Aliasing and node identity (the
      [visitedNodes] set of Search) are those of the addresses.
    - [map[string]*Node] is a [gmap string addr] (a nil map is the empty
      map: [getChild] does not tell them apart).
    - [map[*Node]struct{}] is a [gset ptr].
    - [params.Set(k, v)] appends [(k, v)] to the log a search returns.
    - A panic is the result [Panic]; loops that the source bounds only by
      the shape of the heap run on fuel and yield [OutOfFuel] when it is
      exhausted. *)

From stdpp Require Import base gmap strings list.
From Stdlib Require Import ZArith Lia Ascii.

Local Open Scope string_scope.
Local Open Scope Z_scope.

(** ** Results: a value, a Go panic, or exhausted fuel *)

Inductive panic_kind :=
| IndexOutOfRange      (* s[i], a[i] out of range *)
| SliceBounds          (* s[lo:hi] out of range *)
| NilDereference       (* field access through a nil pointer *)
| ExplicitPanic.       (* panic("...") *)

Inductive res (A : Type) :=
| Ok (a : A)
| Panic (k : panic_kind)
| OutOfFuel.
Arguments Ok {A} a.
Arguments Panic {A} k.
Arguments OutOfFuel {A}.

#[global] Instance res_ret : MRet res := fun A a => Ok a.
#[global] Instance res_bind : MBind res := fun A B f m =>
  match m with
  | Ok a => f a
  | Panic k => Panic k
  | OutOfFuel => OutOfFuel
  end.

(** ** Go strings *)

Module GoString.

Definition len (s : string) : Z := Z.of_nat (String.length s).

Fixpoint str_take (n : nat) (s : string) : string :=
  match n, s with
  | S n', String c s' => String c (str_take n' s')
  | _, _ => EmptyString
  end.

Fixpoint str_drop (n : nat) (s : string) : string :=
  match n, s with
  | S n', String _ s' => str_drop n' s'
  | _, _ => s
  end.

(** [s[i]] *)
Definition byte_at (s : string) (i : Z) : res ascii :=
  if (i <? 0) || (len s <=? i) then Panic IndexOutOfRange
  else match String.get (Z.to_nat i) s with
       | Some c => Ok c
       | None => Panic IndexOutOfRange
       end.

(** [s[lo:hi]] *)
Definition slice (s : string) (lo hi : Z) : res string :=
  if (lo <? 0) || (hi <? lo) || (len s <? hi) then Panic SliceBounds
  else Ok (str_take (Z.to_nat (hi - lo)) (str_drop (Z.to_nat lo) s)).

(** [s[lo:]] *)
Definition slice_from (s : string) (lo : Z) : res string := slice s lo (len s).

(** [s[:hi]] *)
Definition slice_to (s : string) (hi : Z) : res string := slice s 0 hi.

Fixpoint Index_from (k : Z) (s substr : string) : Z :=
  if String.prefix substr s then k
  else match s with
       | EmptyString => -1
       | String _ s' => Index_from (k + 1) s' substr
       end.

(** [strings.Index] *)
Definition Index (s substr : string) : Z := Index_from 0 s substr.

(** [strings.Contains] *)
Definition Contains (s substr : string) : bool := 0 <=? Index s substr.

Fixpoint LastIndex_from (k : Z) (s substr : string) (found : Z) : Z :=
  let found' := if String.prefix substr s then k else found in
  match s with
  | EmptyString => found'
  | String _ s' => LastIndex_from (k + 1) s' substr found'
  end.

(** [strings.LastIndex] *)
Definition LastIndex (s substr : string) : Z := LastIndex_from 0 s substr (-1).

(** [strings.Split(s, sep)] for a separator [sep] of one byte, the only
    use the trie makes of it. *)
Fixpoint Split (s : string) (sep : ascii) : list string :=
  match s with
  | EmptyString => [EmptyString]
  | String c s' =>
      if Ascii.eqb c sep then EmptyString :: Split s' sep
      else match Split s' sep with
           | h :: t => String c h :: t
           | [] => [String c EmptyString]
           end
  end.

(** *** strings.ToLower

    Go's function has two branches.  A string of ASCII bytes (none is
    [>= utf8.RuneSelf]) is lowered byte by byte.  Any other string goes
    through [strings.Map(unicode.ToLower, s)]: it is decoded as UTF-8,
    rune by rune, every rune is mapped and encoded again, and a byte
    that starts no valid encoding becomes the three bytes of U+FFFD.
    The result of this branch can be shorter or longer than [s]. *)

(** [utf8.RuneSelf]: the bytes below it are the ASCII characters. *)
Definition RuneSelf : Z := 128.

(** [utf8.RuneError], U+FFFD, and [unicode.MaxRune]. *)
Definition RuneError : Z := 65533.
Definition MaxRune : Z := 1114111.

Definition byte_val (c : ascii) : Z := Z.of_N (Ascii.N_of_ascii c).

Definition byte_of (z : Z) : ascii := Ascii.ascii_of_N (Z.to_N z).

(** The test [isASCII] of [strings.ToLower]. *)
Fixpoint isASCII (s : string) : bool :=
  match s with
  | EmptyString => true
  | String c s' => (byte_val c <? RuneSelf) && isASCII s'
  end.

(** [c += 'a' - 'A'] for the letters [A]-[Z]. *)
Definition lower_byte (c : ascii) : ascii :=
  let n := Ascii.N_of_ascii c in
  if ((65 <=? n) && (n <=? 90))%N then Ascii.ascii_of_N (n + 32) else c.

(** The branch of the ASCII strings: the letters [A]-[Z] are lowered,
    every other byte is kept. *)
Fixpoint lower_bytes (s : string) : string :=
  match s with
  | EmptyString => EmptyString
  | String c s' => String (lower_byte c) (lower_bytes s')
  end.

(** What the table [unicode.CaseRanges] gives for a rune beyond ASCII
    other than the Kelvin sign.  The table is not reproduced here: the
    function is sealed, and nothing is proved from its value. *)
Definition lower_of_table : Z -> Z.
Proof. exact (fun r => r). Qed.

(** [unicode.ToLower]: the ASCII letters by arithmetic, the other runes
    by [unicode.CaseRanges], whose entry [{0x212A, 0x212A, d{0, -8383, 0}}]
    lowers the Kelvin sign to the letter k. *)
Definition unicode_ToLower (r : Z) : Z :=
  if r <=? 127 then
    if (65 <=? r) && (r <=? 90) then r + 32 else r
  else if r =? 8490 then r - 8383
  else lower_of_table r.

(** A continuation byte of UTF-8 within [[lo, hi]]. *)
Definition cont_in (lo hi : Z) (c : ascii) : bool :=
  (lo <=? byte_val c) && (byte_val c <=? hi).

Definition low6 (c : ascii) : Z := Z.land (byte_val c) 63.

(** [utf8.AppendRune]: the UTF-8 encoding of [r]; a surrogate or a value
    out of range is encoded as [RuneError]. *)
Definition EncodeRune (r : Z) : string :=
  let three (r : Z) :=
    String (byte_of (Z.lor 224 (Z.shiftr r 12)))
      (String (byte_of (Z.lor 128 (Z.land (Z.shiftr r 6) 63)))
         (String (byte_of (Z.lor 128 (Z.land r 63))) EmptyString)) in
  if (0 <=? r) && (r <=? 127) then String (byte_of r) EmptyString
  else if (0 <=? r) && (r <=? 2047) then
    String (byte_of (Z.lor 192 (Z.shiftr r 6)))
      (String (byte_of (Z.lor 128 (Z.land r 63))) EmptyString)
  else if (r <? 0) || (MaxRune <? r) || ((55296 <=? r) && (r <=? 57343)) then
    three RuneError
  else if r <=? 65535 then three r
  else
    String (byte_of (Z.lor 240 (Z.shiftr r 18)))
      (String (byte_of (Z.lor 128 (Z.land (Z.shiftr r 12) 63)))
         (String (byte_of (Z.lor 128 (Z.land (Z.shiftr r 6) 63)))
            (String (byte_of (Z.lor 128 (Z.land r 63))) EmptyString))).

(** [utf8.DecodeRuneInString]: the first rune of [s] and its width in
    bytes.  The second bytes allowed after a first byte are those of the
    table [acceptRanges] of package [utf8]; a byte that starts no valid
    encoding is the rune [RuneError] of width 1. *)
Definition DecodeRune (s : string) : Z * nat :=
  match s with
  | EmptyString => (RuneError, 0%nat)
  | String c0 s1 =>
      let b0 := byte_val c0 in
      if b0 <? RuneSelf then (b0, 1%nat)
      else if (194 <=? b0) && (b0 <=? 223) then
        match s1 with
        | String c1 _ =>
            if cont_in 128 191 c1
            then (Z.lor (Z.shiftl (Z.land b0 31) 6) (low6 c1), 2%nat)
            else (RuneError, 1%nat)
        | _ => (RuneError, 1%nat)
        end
      else if (224 <=? b0) && (b0 <=? 239) then
        match s1 with
        | String c1 (String c2 _) =>
            if cont_in (if b0 =? 224 then 160 else 128)
                       (if b0 =? 237 then 159 else 191) c1
               && cont_in 128 191 c2
            then (Z.lor (Z.shiftl (Z.land b0 15) 12)
                    (Z.lor (Z.shiftl (low6 c1) 6) (low6 c2)), 3%nat)
            else (RuneError, 1%nat)
        | _ => (RuneError, 1%nat)
        end
      else if (240 <=? b0) && (b0 <=? 244) then
        match s1 with
        | String c1 (String c2 (String c3 _)) =>
            if cont_in (if b0 =? 240 then 144 else 128)
                       (if b0 =? 244 then 143 else 191) c1
               && cont_in 128 191 c2 && cont_in 128 191 c3
            then (Z.lor (Z.shiftl (Z.land b0 7) 18)
                    (Z.lor (Z.shiftl (low6 c1) 12)
                       (Z.lor (Z.shiftl (low6 c2) 6) (low6 c3))), 4%nat)
            else (RuneError, 1%nat)
        | _ => (RuneError, 1%nat)
        end
      else (RuneError, 1%nat)
  end.

(** The loop [for i, c := range s] of [strings.Map]: every rune is
    mapped and encoded; a negative result drops the rune.  Every turn
    takes at least one byte, so [fuel] is never exhausted when it starts
    as the length of [s]. *)
Fixpoint Map_loop (fuel : nat) (mapping : Z -> Z) (s : string) : string :=
  match fuel, s with
  | S fuel', String _ _ =>
      let '(c, width) := DecodeRune s in
      let r := mapping c in
      let rest := Map_loop fuel' mapping (str_drop width s) in
      if r <? 0 then rest else EncodeRune r +:+ rest
  | _, _ => EmptyString
  end.

Definition Map (mapping : Z -> Z) (s : string) : string :=
  Map_loop (String.length s) mapping s.

Definition ToLower (s : string) : string :=
  if isASCII s then lower_bytes s else Map unicode_ToLower s.

End GoString.

Import GoString.

(** [a[i]] on a slice *)
Definition index_at {A} (l : list A) (i : Z) : res A :=
  if i <? 0 then Panic IndexOutOfRange
  else match l !! Z.to_nat i with
       | Some x => Ok x
       | None => Panic IndexOutOfRange
       end.

(** [a[lo:]] on a slice *)
Definition list_slice_from {A} (l : list A) (lo : Z) : res (list A) :=
  if (lo <? 0) || (Z.of_nat (length l) <? lo) then Panic SliceBounds
  else Ok (List.skipn (Z.to_nat lo) l).

(** ** Constants of trie.go *)

Definition ParamStart : string := ":".
Definition WildcardParamStart : string := "*".
Definition PrefixParamStart : string := "+:".
Definition SuffixParamStart : string := "-:".
Definition pathSep : string := "/".
Definition pathSepB : ascii := "/"%char.

(** ** Nodes *)

(* An address is an index of the heap; a pointer is an address or nil. *)
Abbreviation addr := nat (only parsing).
Abbreviation ptr := (option nat) (only parsing).

(** The fields of [Node] that trie.go and the methods of [Node] read or
    write: those of the declaration with the tables of prefix and suffix
    lengths, and [hasDynamicChild], [pathIndex] and [staticKey], which
    [insert] and [Search] use.  ([nodeType] is never used.)  [Handler]
    and [Data] are opaque to the trie: a handler or a datum is named by
    a number, nil is [None]. *)
Record Node := {
  parent : ptr;
  children : gmap string addr;
  hasDynamicChild : bool;
  childNamedParameter : bool;
  childWildcardParameter : bool;
  childPrefixParameter : bool;
  childSuffixParameter : bool;
  childPrefixLengths : list Z;
  childSuffixLengths : list Z;
  pathIndex : Z;
  paramCount : Z;
  paramKeys : list string;
  end_ : bool;
  key : string;
  staticKey : string;
  Handler : option nat;
  Tag : string;
  Data : option nat
}.

(** Field updates: [n.parent = v] and the like. *)
Definition set_parent (v : ptr) (n : Node) : Node :=
  {| parent := v; children := children n;
     hasDynamicChild := hasDynamicChild n;
     childNamedParameter := childNamedParameter n;
     childWildcardParameter := childWildcardParameter n;
     childPrefixParameter := childPrefixParameter n;
     childSuffixParameter := childSuffixParameter n;
     childPrefixLengths := childPrefixLengths n;
     childSuffixLengths := childSuffixLengths n; pathIndex := pathIndex n;
     paramCount := paramCount n; paramKeys := paramKeys n; end_ := end_ n;
     key := key n; staticKey := staticKey n; Handler := Handler n;
     Tag := Tag n; Data := Data n |}.

Definition set_children (v : gmap string addr) (n : Node) : Node :=
  {| parent := parent n; children := v; hasDynamicChild := hasDynamicChild n;
     childNamedParameter := childNamedParameter n;
     childWildcardParameter := childWildcardParameter n;
     childPrefixParameter := childPrefixParameter n;
     childSuffixParameter := childSuffixParameter n;
     childPrefixLengths := childPrefixLengths n;
     childSuffixLengths := childSuffixLengths n; pathIndex := pathIndex n;
     paramCount := paramCount n; paramKeys := paramKeys n; end_ := end_ n;
     key := key n; staticKey := staticKey n; Handler := Handler n;
     Tag := Tag n; Data := Data n |}.

Definition set_hasDynamicChild (v : bool) (n : Node) : Node :=
  {| parent := parent n; children := children n; hasDynamicChild := v;
     childNamedParameter := childNamedParameter n;
     childWildcardParameter := childWildcardParameter n;
     childPrefixParameter := childPrefixParameter n;
     childSuffixParameter := childSuffixParameter n;
     childPrefixLengths := childPrefixLengths n;
     childSuffixLengths := childSuffixLengths n; pathIndex := pathIndex n;
     paramCount := paramCount n; paramKeys := paramKeys n; end_ := end_ n;
     key := key n; staticKey := staticKey n; Handler := Handler n;
     Tag := Tag n; Data := Data n |}.

Definition set_childNamedParameter (v : bool) (n : Node) : Node :=
  {| parent := parent n; children := children n;
     hasDynamicChild := hasDynamicChild n; childNamedParameter := v;
     childWildcardParameter := childWildcardParameter n;
     childPrefixParameter := childPrefixParameter n;
     childSuffixParameter := childSuffixParameter n;
     childPrefixLengths := childPrefixLengths n;
     childSuffixLengths := childSuffixLengths n; pathIndex := pathIndex n;
     paramCount := paramCount n; paramKeys := paramKeys n; end_ := end_ n;
     key := key n; staticKey := staticKey n; Handler := Handler n;
     Tag := Tag n; Data := Data n |}.

Definition set_childWildcardParameter (v : bool) (n : Node) : Node :=
  {| parent := parent n; children := children n;
     hasDynamicChild := hasDynamicChild n;
     childNamedParameter := childNamedParameter n;
     childWildcardParameter := v;
     childPrefixParameter := childPrefixParameter n;
     childSuffixParameter := childSuffixParameter n;
     childPrefixLengths := childPrefixLengths n;
     childSuffixLengths := childSuffixLengths n; pathIndex := pathIndex n;
     paramCount := paramCount n; paramKeys := paramKeys n; end_ := end_ n;
     key := key n; staticKey := staticKey n; Handler := Handler n;
     Tag := Tag n; Data := Data n |}.

Definition set_childPrefixParameter (v : bool) (n : Node) : Node :=
  {| parent := parent n; children := children n;
     hasDynamicChild := hasDynamicChild n;
     childNamedParameter := childNamedParameter n;
     childWildcardParameter := childWildcardParameter n;
     childPrefixParameter := v;
     childSuffixParameter := childSuffixParameter n;
     childPrefixLengths := childPrefixLengths n;
     childSuffixLengths := childSuffixLengths n; pathIndex := pathIndex n;
     paramCount := paramCount n; paramKeys := paramKeys n; end_ := end_ n;
     key := key n; staticKey := staticKey n; Handler := Handler n;
     Tag := Tag n; Data := Data n |}.

Definition set_childSuffixParameter (v : bool) (n : Node) : Node :=
  {| parent := parent n; children := children n;
     hasDynamicChild := hasDynamicChild n;
     childNamedParameter := childNamedParameter n;
     childWildcardParameter := childWildcardParameter n;
     childPrefixParameter := childPrefixParameter n;
     childSuffixParameter := v; childPrefixLengths := childPrefixLengths n;
     childSuffixLengths := childSuffixLengths n; pathIndex := pathIndex n;
     paramCount := paramCount n; paramKeys := paramKeys n; end_ := end_ n;
     key := key n; staticKey := staticKey n; Handler := Handler n;
     Tag := Tag n; Data := Data n |}.

Definition set_childPrefixLengths (v : list Z) (n : Node) : Node :=
  {| parent := parent n; children := children n;
     hasDynamicChild := hasDynamicChild n;
     childNamedParameter := childNamedParameter n;
     childWildcardParameter := childWildcardParameter n;
     childPrefixParameter := childPrefixParameter n;
     childSuffixParameter := childSuffixParameter n; childPrefixLengths := v;
     childSuffixLengths := childSuffixLengths n; pathIndex := pathIndex n;
     paramCount := paramCount n; paramKeys := paramKeys n; end_ := end_ n;
     key := key n; staticKey := staticKey n; Handler := Handler n;
     Tag := Tag n; Data := Data n |}.

Definition set_childSuffixLengths (v : list Z) (n : Node) : Node :=
  {| parent := parent n; children := children n;
     hasDynamicChild := hasDynamicChild n;
     childNamedParameter := childNamedParameter n;
     childWildcardParameter := childWildcardParameter n;
     childPrefixParameter := childPrefixParameter n;
     childSuffixParameter := childSuffixParameter n;
     childPrefixLengths := childPrefixLengths n; childSuffixLengths := v;
     pathIndex := pathIndex n; paramCount := paramCount n;
     paramKeys := paramKeys n; end_ := end_ n; key := key n;
     staticKey := staticKey n; Handler := Handler n; Tag := Tag n;
     Data := Data n |}.

Definition set_pathIndex (v : Z) (n : Node) : Node :=
  {| parent := parent n; children := children n;
     hasDynamicChild := hasDynamicChild n;
     childNamedParameter := childNamedParameter n;
     childWildcardParameter := childWildcardParameter n;
     childPrefixParameter := childPrefixParameter n;
     childSuffixParameter := childSuffixParameter n;
     childPrefixLengths := childPrefixLengths n;
     childSuffixLengths := childSuffixLengths n; pathIndex := v;
     paramCount := paramCount n; paramKeys := paramKeys n; end_ := end_ n;
     key := key n; staticKey := staticKey n; Handler := Handler n;
     Tag := Tag n; Data := Data n |}.

Definition set_paramCount (v : Z) (n : Node) : Node :=
  {| parent := parent n; children := children n;
     hasDynamicChild := hasDynamicChild n;
     childNamedParameter := childNamedParameter n;
     childWildcardParameter := childWildcardParameter n;
     childPrefixParameter := childPrefixParameter n;
     childSuffixParameter := childSuffixParameter n;
     childPrefixLengths := childPrefixLengths n;
     childSuffixLengths := childSuffixLengths n; pathIndex := pathIndex n;
     paramCount := v; paramKeys := paramKeys n; end_ := end_ n; key := key n;
     staticKey := staticKey n; Handler := Handler n; Tag := Tag n;
     Data := Data n |}.

Definition set_paramKeys (v : list string) (n : Node) : Node :=
  {| parent := parent n; children := children n;
     hasDynamicChild := hasDynamicChild n;
     childNamedParameter := childNamedParameter n;
     childWildcardParameter := childWildcardParameter n;
     childPrefixParameter := childPrefixParameter n;
     childSuffixParameter := childSuffixParameter n;
     childPrefixLengths := childPrefixLengths n;
     childSuffixLengths := childSuffixLengths n; pathIndex := pathIndex n;
     paramCount := paramCount n; paramKeys := v; end_ := end_ n; key := key n;
     staticKey := staticKey n; Handler := Handler n; Tag := Tag n;
     Data := Data n |}.

Definition set_end_ (v : bool) (n : Node) : Node :=
  {| parent := parent n; children := children n;
     hasDynamicChild := hasDynamicChild n;
     childNamedParameter := childNamedParameter n;
     childWildcardParameter := childWildcardParameter n;
     childPrefixParameter := childPrefixParameter n;
     childSuffixParameter := childSuffixParameter n;
     childPrefixLengths := childPrefixLengths n;
     childSuffixLengths := childSuffixLengths n; pathIndex := pathIndex n;
     paramCount := paramCount n; paramKeys := paramKeys n; end_ := v;
     key := key n; staticKey := staticKey n; Handler := Handler n;
     Tag := Tag n; Data := Data n |}.

Definition set_key (v : string) (n : Node) : Node :=
  {| parent := parent n; children := children n;
     hasDynamicChild := hasDynamicChild n;
     childNamedParameter := childNamedParameter n;
     childWildcardParameter := childWildcardParameter n;
     childPrefixParameter := childPrefixParameter n;
     childSuffixParameter := childSuffixParameter n;
     childPrefixLengths := childPrefixLengths n;
     childSuffixLengths := childSuffixLengths n; pathIndex := pathIndex n;
     paramCount := paramCount n; paramKeys := paramKeys n; end_ := end_ n;
     key := v; staticKey := staticKey n; Handler := Handler n; Tag := Tag n;
     Data := Data n |}.

Definition set_staticKey (v : string) (n : Node) : Node :=
  {| parent := parent n; children := children n;
     hasDynamicChild := hasDynamicChild n;
     childNamedParameter := childNamedParameter n;
     childWildcardParameter := childWildcardParameter n;
     childPrefixParameter := childPrefixParameter n;
     childSuffixParameter := childSuffixParameter n;
     childPrefixLengths := childPrefixLengths n;
     childSuffixLengths := childSuffixLengths n; pathIndex := pathIndex n;
     paramCount := paramCount n; paramKeys := paramKeys n; end_ := end_ n;
     key := key n; staticKey := v; Handler := Handler n; Tag := Tag n;
     Data := Data n |}.

Definition set_Handler (v : option nat) (n : Node) : Node :=
  {| parent := parent n; children := children n;
     hasDynamicChild := hasDynamicChild n;
     childNamedParameter := childNamedParameter n;
     childWildcardParameter := childWildcardParameter n;
     childPrefixParameter := childPrefixParameter n;
     childSuffixParameter := childSuffixParameter n;
     childPrefixLengths := childPrefixLengths n;
     childSuffixLengths := childSuffixLengths n; pathIndex := pathIndex n;
     paramCount := paramCount n; paramKeys := paramKeys n; end_ := end_ n;
     key := key n; staticKey := staticKey n; Handler := v; Tag := Tag n;
     Data := Data n |}.

Definition set_Tag (v : string) (n : Node) : Node :=
  {| parent := parent n; children := children n;
     hasDynamicChild := hasDynamicChild n;
     childNamedParameter := childNamedParameter n;
     childWildcardParameter := childWildcardParameter n;
     childPrefixParameter := childPrefixParameter n;
     childSuffixParameter := childSuffixParameter n;
     childPrefixLengths := childPrefixLengths n;
     childSuffixLengths := childSuffixLengths n; pathIndex := pathIndex n;
     paramCount := paramCount n; paramKeys := paramKeys n; end_ := end_ n;
     key := key n; staticKey := staticKey n; Handler := Handler n; Tag := v;
     Data := Data n |}.

Definition set_Data (v : option nat) (n : Node) : Node :=
  {| parent := parent n; children := children n;
     hasDynamicChild := hasDynamicChild n;
     childNamedParameter := childNamedParameter n;
     childWildcardParameter := childWildcardParameter n;
     childPrefixParameter := childPrefixParameter n;
     childSuffixParameter := childSuffixParameter n;
     childPrefixLengths := childPrefixLengths n;
     childSuffixLengths := childSuffixLengths n; pathIndex := pathIndex n;
     paramCount := paramCount n; paramKeys := paramKeys n; end_ := end_ n;
     key := key n; staticKey := staticKey n; Handler := Handler n;
     Tag := Tag n; Data := v |}.

(** The zero value of [Node], what [new(Node)] points to. *)
Definition zeroNode : Node :=
  {| parent := None; children := ∅; hasDynamicChild := false;
     childNamedParameter := false; childWildcardParameter := false;
     childPrefixParameter := false; childSuffixParameter := false;
     childPrefixLengths := []; childSuffixLengths := []; pathIndex := 0;
     paramCount := 0; paramKeys := []; end_ := false; key := "";
     staticKey := ""; Handler := None; Tag := ""; Data := None |}.

(** ** The trie and its heap of nodes (trie.go) *)

Record Trie := {
  root : ptr;
  hasRootWildcard : bool;
  hasRootSlash : bool;
  searchUnvisitedParams : bool;
  caseInsensitive : bool;
  (* the nodes allocated so far; a pointer is an index into this list *)
  nodes : list Node
}.

Definition set_root (v : ptr) (t : Trie) : Trie :=
  {| root := v; hasRootWildcard := hasRootWildcard t;
     hasRootSlash := hasRootSlash t;
     searchUnvisitedParams := searchUnvisitedParams t;
     caseInsensitive := caseInsensitive t; nodes := nodes t |}.

Definition set_hasRootWildcard (v : bool) (t : Trie) : Trie :=
  {| root := root t; hasRootWildcard := v; hasRootSlash := hasRootSlash t;
     searchUnvisitedParams := searchUnvisitedParams t;
     caseInsensitive := caseInsensitive t; nodes := nodes t |}.

Definition set_hasRootSlash (v : bool) (t : Trie) : Trie :=
  {| root := root t; hasRootWildcard := hasRootWildcard t; hasRootSlash := v;
     searchUnvisitedParams := searchUnvisitedParams t;
     caseInsensitive := caseInsensitive t; nodes := nodes t |}.

Definition set_searchUnvisitedParams (v : bool) (t : Trie) : Trie :=
  {| root := root t; hasRootWildcard := hasRootWildcard t;
     hasRootSlash := hasRootSlash t; searchUnvisitedParams := v;
     caseInsensitive := caseInsensitive t; nodes := nodes t |}.

Definition set_caseInsensitive (v : bool) (t : Trie) : Trie :=
  {| root := root t; hasRootWildcard := hasRootWildcard t;
     hasRootSlash := hasRootSlash t;
     searchUnvisitedParams := searchUnvisitedParams t; caseInsensitive := v;
     nodes := nodes t |}.

Definition set_nodes (v : list Node) (t : Trie) : Trie :=
  {| root := root t; hasRootWildcard := hasRootWildcard t;
     hasRootSlash := hasRootSlash t;
     searchUnvisitedParams := searchUnvisitedParams t;
     caseInsensitive := caseInsensitive t; nodes := v |}.

Record TrieOptions := {
  CaseInsensitive : bool;
  SearchUnvisitedParams : bool
}.

(** Reading through a pointer.  A nil pointer panics; so does, in the
    model, an address that was never allocated (Go has no such pointer). *)
Definition deref (t : Trie) (n : ptr) : res Node :=
  match n with
  | None => Panic NilDereference
  | Some a => match nodes t !! a with
              | Some nd => Ok nd
              | None => Panic NilDereference
              end
  end.

(** Writing through a pointer: [*n = f( *n)]. *)
Definition update (t : Trie) (n : ptr) (f : Node -> Node) : res Trie :=
  nd ← deref t n;
  match n with
  | Some a => Ok (set_nodes (<[a := f nd]> (nodes t)) t)
  | None => Panic NilDereference
  end.

(** [NewNode]: a fresh zero node, at the end of the heap. *)
Definition NewNode (t : Trie) : Trie * ptr :=
  (set_nodes (nodes t ++ [zeroNode])%list t, Some (length (nodes t))).

Definition NewTrie : Trie :=
  {| root := Some 0%nat; hasRootWildcard := false; hasRootSlash := false;
     searchUnvisitedParams := false; caseInsensitive := false;
     nodes := [zeroNode] |}.

Definition NewTrieWithOptions (options : TrieOptions) : Trie :=
  {| root := Some 0%nat; hasRootWildcard := false; hasRootSlash := false;
     searchUnvisitedParams := SearchUnvisitedParams options;
     caseInsensitive := CaseInsensitive options;
     nodes := [zeroNode] |}.

(** [t.SearchUnvisitedParams()] and [t.CaseInsensitive()] *)
Definition Trie_SearchUnvisitedParams (t : Trie) : Trie :=
  set_searchUnvisitedParams true t.

Definition Trie_CaseInsensitive (t : Trie) : Trie :=
  set_caseInsensitive true t.

(** ** Methods of Node *)

Definition getChild (t : Trie) (n : ptr) (s : string) : res ptr :=
  nd ← deref t n;
  Ok (children nd !! s).

Definition hasChild (t : Trie) (n : ptr) (s : string) : res bool :=
  c ← getChild t n s;
  Ok (bool_decide (c ≠ None)).

Definition addChild (t : Trie) (n : ptr) (s : string) (child : ptr) : res Trie :=
  nd ← deref t n;
  match children nd !! s with
  | Some _ => Ok t
  | None =>
      t ← update t child (set_parent n);
      match child with
      | Some c => update t n (fun nd => set_children (<[s := c]> (children nd)) nd)
      | None => Panic NilDereference
      end
  end.

(** First occurrences, in order: the loop over [*paramSlice] with the
    [seen] map of [addLength]. *)
Fixpoint dedup_seen (seen : gset Z) (l : list Z) : list Z :=
  match l with
  | [] => []
  | val :: rest =>
      if bool_decide (val ∈ seen) then dedup_seen seen rest
      else val :: dedup_seen ({[val]} ∪ seen) rest
  end.

(** Insertion into a descending list, for [sort_desc]. *)
Fixpoint insert_desc (x : Z) (l : list Z) : list Z :=
  match l with
  | [] => [x]
  | y :: l' => if y <? x then x :: y :: l' else y :: insert_desc x l'
  end.

(** [sort.Slice(paramDesc, func(i, j) { return paramDesc[i] > paramDesc[j] })] *)
Definition sort_desc (l : list Z) : list Z := foldr insert_desc [] l.

(** What [addLength] computes in its local [paramDesc]. *)
Definition paramDesc_of (stored : list Z) : list Z :=
  sort_desc (dedup_seen ∅ stored).

(** [addLength(&n.childPrefixLengths, l)]: the result is the value of the
    node's slice afterwards.  The pointer [paramSlice] is never nil (it is
    the address of a field), so the else branch runs: [l] is appended
    through the pointer, the deduplicated and sorted [paramDesc] is built,
    and [paramSlice = &paramDesc] rebinds the local pointer only. *)
Definition addLength (paramSlice : list Z) (l : Z) : list Z :=
  let stored := (paramSlice ++ [l])%list in
  let paramDesc := paramDesc_of stored in
  let paramSlice_local := paramDesc in
  stored.

Definition addPrefixLength (t : Trie) (n : ptr) (l : Z) : res Trie :=
  update t n (fun nd => set_childPrefixLengths (addLength (childPrefixLengths nd) l) nd).

Definition addSuffixLength (t : Trie) (n : ptr) (l : Z) : res Trie :=
  update t n (fun nd => set_childSuffixLengths (addLength (childSuffixLengths nd) l) nd).

(** The loop of [getPrefixParamChild] over [n.childPrefixLengths]. *)
Fixpoint prefixProbe (t : Trie) (n : ptr) (s : string) (lengths : list Z)
  : res (ptr * bool) :=
  match lengths with
  | [] => Ok (None, false)
  | indx :: rest =>
      if len s <? indx then prefixProbe t n s rest
      else
        pre ← slice_to s indx;
        child ← getChild t n (pre +:+ PrefixParamStart);
        match child with
        | Some _ => Ok (child, true)
        | None => prefixProbe t n s rest
        end
  end.

Definition getPrefixParamChild (t : Trie) (n : ptr) (s : string) : res (ptr * bool) :=
  nd ← deref t n;
  if negb (childPrefixParameter nd) then Ok (None, false)
  else prefixProbe t n s (childPrefixLengths nd).

(** The loop of [getSuffixParamChild] over [n.childSuffixLengths]. *)
Fixpoint suffixProbe (t : Trie) (n : ptr) (s : string) (lengths : list Z)
  : res (ptr * bool) :=
  match lengths with
  | [] => Ok (None, false)
  | suffixLen :: rest =>
      let indx := len s - suffixLen in
      if indx <? 0 then suffixProbe t n s rest
      else
        suf ← slice_from s indx;
        child ← getChild t n (SuffixParamStart +:+ suf);
        match child with
        | Some _ => Ok (child, true)
        | None => suffixProbe t n s rest
        end
  end.

Definition getSuffixParamChild (t : Trie) (n : ptr) (s : string) : res (ptr * bool) :=
  nd ← deref t n;
  if negb (childSuffixParameter nd) then Ok (None, false)
  else suffixProbe t n s (childSuffixLengths nd).

(** The loop [for n != nil] of [findClosestParentWildcardNode]. *)
Fixpoint climbWildcard (fuel : nat) (t : Trie) (n : ptr) : res ptr :=
  match n with
  | None => Ok None
  | Some _ =>
      match fuel with
      | O => OutOfFuel
      | S fuel' =>
          nd ← deref t n;
          if childWildcardParameter nd then getChild t n WildcardParamStart
          else climbWildcard fuel' t (parent nd)
      end
  end.

(** The loop climbs the parent chain, which in a trie has fewer links
    than there are nodes. *)
Definition findClosestParentWildcardNode (t : Trie) (n : ptr) : res ptr :=
  nd ← deref t n;
  climbWildcard (length (nodes t)) t (parent nd).

(** The loop [for n != nil] of [findClosestUnvisitedNode]; [start] and
    [i] are its variables of these names. *)
Fixpoint climbUnvisited (fuel : nat) (t : Trie) (n : ptr)
    (visitedNodes : gset ptr) (path : string) (start i : Z)
  : res (ptr * Z * Z) :=
  match n with
  | None => Ok (None, start, i)
  | Some _ =>
      match fuel with
      | O => OutOfFuel
      | S fuel' =>
          head ← slice_to path i;
          let i := LastIndex head pathSep in
          let i := if i =? -1 then 0 else i in
          head ← slice_to path i;
          let start := LastIndex head pathSep + 1 in
          segment ← slice path start i;
          nd ← deref t n;
          '(child, exists_) ← getPrefixParamChild t n segment;
          if exists_ && bool_decide (child ∉ visitedNodes) then Ok (child, start, i)
          else
          '(child, exists_) ← getSuffixParamChild t n segment;
          if exists_ && bool_decide (child ∉ visitedNodes) then Ok (child, start, i)
          else
          named ← (if childNamedParameter nd then
                     child ← getChild t n ParamStart;
                     Ok (if bool_decide (child ∉ visitedNodes) then Some child else None)
                   else Ok None);
          match named with
          | Some child => Ok (child, start, i)
          | None =>
          wild ← (if childWildcardParameter nd then
                    child ← getChild t n WildcardParamStart;
                    Ok (if bool_decide (child ∉ visitedNodes) then Some child else None)
                  else Ok None);
          match wild with
          | Some child => Ok (child, start, i)
          | None => climbUnvisited fuel' t (parent nd) visitedNodes path start i
          end
          end
      end
  end.

Definition findClosestUnvisitedNode (t : Trie) (n : ptr)
    (visitedNodes : gset ptr) (path : string) (i : Z) : res (ptr * Z * Z) :=
  nd ← deref t n;
  climbUnvisited (length (nodes t)) t (parent nd) visitedNodes path 0 i.

(** ** Insertion *)

Definition slowPathSplit (path : string) : res (list string) :=
  if (path =? pathSep)%string then Ok [pathSep]
  else
    last ← byte_at path (len path - 1);
    path ← (if Ascii.eqb last pathSepB then slice_to path (len path - 1) else Ok path);
    list_slice_from (Split path pathSepB) 1.

Definition resolveStaticPart (key : string) : res string :=
  let i := Index key ParamStart in
  let i := if i =? -1 then Index key WildcardParamStart else i in
  let i := if i =? -1 then len key else i in
  slice_to key i.

Definition isPrefixParam (key : string) : bool := Contains key PrefixParamStart.
Definition isSuffixParam (key : string) : bool := Contains key SuffixParamStart.

(** The branch of the loop of [insert] for a segment with parameter
    syntax: the flags of the parent [n] are set, the parameter name is
    appended to [paramKeys] and [s] becomes the key of the child.  [c] is
    [s[0]].  A segment without parameter syntax is left as it is. *)
Definition register_segment (t : Trie) (n : ptr) (paramKeys : list string)
    (c : ascii) (s : string) : res (Trie * list string * string) :=
  let isParam := Ascii.eqb c ":" in
  let isWildcard := Ascii.eqb c "*" in
  let isPrefix := isPrefixParam s in
  let isSuffix := isSuffixParam s in
  if isParam || isWildcard || isPrefix || isSuffix then
    t ← update t n (set_hasDynamicChild true);
    if isParam then
      name ← slice_from s 1;
      t ← update t n (set_childNamedParameter true);
      Ok (t, (paramKeys ++ [name])%list, ParamStart)
    else if isWildcard then
      name ← slice_from s 1;
      t ← update t n (set_childWildcardParameter true);
      let t := if bool_decide (root t = n) then set_hasRootWildcard true t else t in
      Ok (t, (paramKeys ++ [name])%list, WildcardParamStart)
    else if isPrefix then
      let indx := Index s PrefixParamStart in
      name ← slice_from s (indx + 2);
      t ← update t n (set_childPrefixParameter true);
      t ← addPrefixLength t n indx;
      s ← slice_to s (indx + 2);
      Ok (t, (paramKeys ++ [name])%list, s)
    else if isSuffix then
      let indx := Index s SuffixParamStart in
      name ← slice_to s indx;
      t ← update t n (set_childSuffixParameter true);
      t ← addSuffixLength t n (len s - (indx + 2));
      s ← slice_from s indx;
      Ok (t, (paramKeys ++ [name])%list, s)
    else Ok (t, paramKeys, s)
  else Ok (t, paramKeys, s).

(** [if !n.hasChild(s) { child := NewNode(); n.addChild(s, child) };
    n = n.getChild(s)] *)
Definition descend_or_create (t : Trie) (n : ptr) (s : string) : res (Trie * ptr) :=
  has ← hasChild t n s;
  t ← (if has : bool then Ok t
       else let '(t, child) := NewNode t in addChild t n s child);
  n ← getChild t n s;
  Ok (t, n).

(** One turn of the loop of [insert] over the segments: [n] is the
    current node, [i] the index of the segment [s].  The result is the
    trie, the child descended into and the parameter keys so far. *)
Definition insert_segment (t : Trie) (n : ptr) (paramKeys : list string)
    (i : Z) (s : string) : res (Trie * ptr * list string) :=
  c ← byte_at s 0;
  t ← update t n (set_pathIndex (i + 1));
  t ← update t n (set_paramCount (Z.of_nat (length paramKeys)));
  '(t, paramKeys, s) ← register_segment t n paramKeys c s;
  let s := if caseInsensitive t then ToLower s else s in
  '(t, n) ← descend_or_create t n s;
  Ok (t, n, paramKeys).

Fixpoint insert_loop (t : Trie) (n : ptr) (paramKeys : list string)
    (i : Z) (input : list string) : res (Trie * ptr * list string) :=
  match input with
  | [] => Ok (t, n, paramKeys)
  | s :: rest =>
      '(t, n, paramKeys) ← insert_segment t n paramKeys i s;
      insert_loop t n paramKeys (i + 1) rest
  end.

(** The end of [insert]: the node reached becomes the terminal of
    [key]. *)
Definition insert_finish (t : Trie) (n : ptr) (paramKeys : list string)
    (key tag : string) (optionalData handler : option nat) : res (Trie * ptr) :=
  t ← update t n (set_Tag tag);
  t ← update t n (set_Handler handler);
  t ← update t n (set_Data optionalData);
  t ← update t n (set_paramKeys paramKeys);
  t ← update t n (set_key key);
  static ← resolveStaticPart key;
  t ← update t n (set_staticKey static);
  t ← update t n (set_end_ true);
  Ok (t, n).

Definition insert (t : Trie) (key tag : string) (optionalData handler : option nat)
  : res (Trie * ptr) :=
  input ← slowPathSplit key;
  let n := root t in
  let t := if (key =? pathSep)%string then set_hasRootSlash true t else t in
  '(t, n, paramKeys) ← insert_loop t n [] 0 input;
  insert_finish t n paramKeys key tag optionalData handler.

(** An [InsertOption] alters the node it is given. *)
Definition InsertOption := Node -> Node.

Definition WithHandler (handler : option nat) : res InsertOption :=
  match handler with
  | None => Panic ExplicitPanic
  | Some _ =>
      Ok (fun n => match Handler n with
                   | None => set_Handler handler n
                   | Some _ => n
                   end)
  end.

Definition WithTag (tag : string) : InsertOption :=
  fun n => if (Tag n =? "")%string then set_Tag tag n else n.

Definition WithData (data : option nat) : InsertOption :=
  fun n => set_Data data n.

Definition Insert (t : Trie) (pattern : string) (options : list InsertOption)
  : res (Trie * ptr) :=
  if (pattern =? "")%string then Panic ExplicitPanic
  else
    '(t, n) ← insert t pattern "" None None;
    t ← foldl (fun acc opt => t ← acc; update t n opt) (Ok t) options;
    Ok (t, n).

(** The trie after the patterns of [ps] were inserted, in order, with
    the node each [Insert] reached. *)
Fixpoint insert_all (t : Trie) (ps : list string) : res (Trie * list ptr) :=
  match ps with
  | [] => Ok (t, [])
  | p :: rest =>
      '(t, n) ← Insert t p [];
      '(t, ns) ← insert_all t rest;
      Ok (t, n :: ns)
  end.

(** ** The buffer of captured values

    [paramValues] is a Go slice: a backing array, of which the first
    [slen] cells are the slice; the capacity is the length of the backing
    array.  Search never shares it, so the array is modelled by value. *)

Record strslice := {
  backing : list string;
  slen : Z
}.

Definition nil_slice : strslice := {| backing := []; slen := 0 |}.

Definition cap (p : strslice) : Z := Z.of_nat (length (backing p)).

(** The cells of the slice, what [range paramValues] visits. *)
Definition cells (p : strslice) : list string :=
  take (Z.to_nat (slen p)) (backing p).

(** The capacity [append] gives a full slice of strings that grows by
    one cell: 1 for an empty one, else twice the old one (the Go
    runtime's rule below 256 cells; new cells hold the empty string). *)
Definition growcap (oldcap : Z) : Z :=
  if oldcap =? 0 then 1 else 2 * oldcap.

(** [p[:hi]] *)
Definition reslice_to (p : strslice) (hi : Z) : res strslice :=
  if (hi <? 0) || (cap p <? hi) then Panic SliceBounds
  else Ok {| backing := backing p; slen := hi |}.

Definition appendParameterValue (paramValues : strslice) (value : string) : strslice :=
  let ln := slen paramValues in
  if ln <? cap paramValues then
    {| backing := <[Z.to_nat ln := value]> (backing paramValues); slen := ln + 1 |}
  else
    {| backing := (take (Z.to_nat ln) (backing paramValues) ++ [value] ++
                   replicate (Z.to_nat (growcap (cap paramValues) - ln - 1)) "")%list;
       slen := ln + 1 |}.

Definition min (a b : Z) : Z := if a <? b then a else b.

(** ** Search *)

(** The calls [params.Set(key, value)] a search made, in order. *)
Definition sets := list (string * string).

(** The variables of the loop of [Search]. *)
Record search_state := {
  st_n : ptr;
  st_start : Z;
  st_i : Z;
  st_paramValues : strslice;
  st_visitedNodes : gset ptr
}.

(** How the loop is left: by a [return] (with the calls of [params.Set]
    made before it) or by a [break]. *)
Inductive loop_exit :=
| Returned (n : ptr) (calls : sets)
| Broke (n : ptr) (paramValues : strslice).

(** The backtracking step shared by the two places of the loop that call
    [findClosestUnvisitedNode] and find a node: mark it visited, cut the
    buffer to [min(n.paramCount, cap(paramValues))], capture [q[start:i]]. *)
Definition rewind (t : Trie) (q : string) (n : ptr) (start i : Z)
    (paramValues : strslice) : res strslice :=
  nd ← deref t n;
  let lim := min (paramCount nd) (cap paramValues) in
  paramValues ← reslice_to paramValues lim;
  value ← slice q start i;
  Ok (appendParameterValue paramValues value).

(** The end of a turn of the loop after [n] was set to a child:
    [if i == end { ... break }; i++; start = i; continue]. *)
Definition descended (t : Trie) (q qc : string) (end_q : Z) (n : ptr)
    (start i : Z) (paramValues : strslice) (visitedNodes : gset ptr)
  : res (search_state + loop_exit) :=
  if i =? end_q then
    if searchUnvisitedParams t then
      nd ← deref t n;
      if negb (end_ nd) then
        '(n, start, i) ← findClosestUnvisitedNode t n visitedNodes qc i;
        match n with
        | Some _ =>
            paramValues ← rewind t q n start i paramValues;
            Ok (inr (Broke n paramValues))
        | None => Ok (inr (Broke n paramValues))
        end
      else Ok (inr (Broke n paramValues))
    else Ok (inr (Broke n paramValues))
  else
    Ok (inl {| st_n := n; st_start := i + 1; st_i := i + 1;
               st_paramValues := paramValues; st_visitedNodes := visitedNodes |}).

(** [params.Set(n.paramKeys[0], q[from:])], then [return n]. *)
Definition bind_wildcard (t : Trie) (q : string) (n : ptr) (from : Z)
  : res (ptr * sets) :=
  nd ← deref t n;
  k ← index_at (paramKeys nd) 0;
  value ← slice_from q from;
  Ok (n, [(k, value)]).

(** One turn of the [for] loop of [Search]. *)
Definition search_step (t : Trie) (q qc : string) (end_q : Z) (st : search_state)
  : res (search_state + loop_exit) :=
  let n := st_n st in
  let start := st_start st in
  let i := st_i st in
  let paramValues := st_paramValues st in
  let visitedNodes := st_visitedNodes st in
  at_sep ← (if i =? end_q then Ok true
            else c ← byte_at q i; Ok (Ascii.eqb c pathSepB));
  if at_sep : bool then
    s ← slice qc start i;
    child ← getChild t n s;
    match child with
    | Some _ => descended t q qc end_q child start i paramValues visitedNodes
    | None =>
    '(child, exists_) ← getPrefixParamChild t n s;
    if exists_ : bool then
      value ← slice q start i;
      descended t q qc end_q child start i
                (appendParameterValue paramValues value) ({[child]} ∪ visitedNodes)
    else
    '(child, exists_) ← getSuffixParamChild t n s;
    if exists_ : bool then
      value ← slice q start i;
      descended t q qc end_q child start i
                (appendParameterValue paramValues value) ({[child]} ∪ visitedNodes)
    else
    nd ← deref t n;
    if childNamedParameter nd then
      child ← getChild t n ParamStart;
      value ← slice q start i;
      descended t q qc end_q child start i
                (appendParameterValue paramValues value) ({[child]} ∪ visitedNodes)
    else if childWildcardParameter nd then
      child ← getChild t n WildcardParamStart;
      value ← slice_from q start;
      Ok (inr (Broke child (appendParameterValue paramValues value)))
    else
      '(unvisited, start, i) ←
        (if searchUnvisitedParams t
         then findClosestUnvisitedNode t n visitedNodes qc i
         else Ok (None, start, i));
      match unvisited with
      | Some _ =>
          paramValues ← rewind t q unvisited start i paramValues;
          descended t q qc end_q unvisited start i paramValues
                    ({[unvisited]} ∪ visitedNodes)
      | None =>
          w ← findClosestParentWildcardNode t n;
          match w with
          | Some _ =>
              wn ← deref t w;
              '(w, calls) ← bind_wildcard t q w (len (staticKey wn));
              Ok (inr (Returned w calls))
          | None => Ok (inr (Returned None []))
          end
      end
    end
  else
    Ok (inl {| st_n := n; st_start := start; st_i := i + 1;
               st_paramValues := paramValues; st_visitedNodes := visitedNodes |}).

Fixpoint search_loop (fuel : nat) (t : Trie) (q qc : string) (end_q : Z)
    (st : search_state) : res loop_exit :=
  match fuel with
  | O => OutOfFuel
  | S fuel' =>
      r ← search_step t q qc end_q st;
      match r with
      | inl st' => search_loop fuel' t q qc end_q st'
      | inr e => Ok e
      end
  end.

(** [for i, paramValue := range paramValues { if len(keys) > i { Set(keys[i], paramValue) } }] *)
Fixpoint emit (keys : list string) (i : nat) (values : list string) : sets :=
  match values with
  | [] => []
  | paramValue :: rest =>
      match keys !! i with
      | Some k => (k, paramValue) :: emit keys (S i) rest
      | None => emit keys (S i) rest
      end
  end.

(** What follows the loop, when it was left by [break]. *)
Definition search_finish (t : Trie) (q : string) (n : ptr) (paramValues : strslice)
  : res (ptr * sets) :=
  is_end ← match n with
           | None => Ok false
           | Some _ => nd ← deref t n; Ok (end_ nd)
           end;
  if is_end : bool then
    nd ← deref t n;
    Ok (n, emit (paramKeys nd) 0 (cells paramValues))
  else
    w ← match n with
        | Some _ => findClosestParentWildcardNode t n
        | None => Ok None
        end;
    match w with
    | Some _ =>
        wn ← deref t w;
        bind_wildcard t q w (len (staticKey wn))
    | None =>
        if hasRootWildcard t then
          n ← getChild t (root t) WildcardParamStart;
          bind_wildcard t q n 1
        else Ok (None, [])
    end.

(** Between two rewinds [i] only grows, up to [len(q)], and a rewind
    marks a node that was not marked: this many turns are enough. *)
Definition search_fuel (t : Trie) (q : string) : nat :=
  (S (length (nodes t)) * S (S (String.length q)))%nat.

(** [Search(q, params)]: the node returned and the calls of
    [params.Set] made. *)
Definition Search (t : Trie) (q : string) : res (ptr * sets) :=
  let end_q := len q in
  fast ← (if end_q =? 0 then Ok true
          else if end_q =? 1 then c ← byte_at q 0; Ok (Ascii.eqb c pathSepB)
          else Ok false);
  if fast : bool then
    if hasRootSlash t then
      n ← getChild t (root t) pathSep; Ok (n, [])
    else if hasRootWildcard t then
      n ← getChild t (root t) WildcardParamStart; Ok (n, [])
    else Ok (None, [])
  else
    let qc := if caseInsensitive t then ToLower q else q in
    e ← search_loop (search_fuel t q) t q qc end_q
          {| st_n := root t; st_start := 1; st_i := 1;
             st_paramValues := nil_slice; st_visitedNodes := ∅ |};
    match e with
    | Returned n calls => Ok (n, calls)
    | Broke n paramValues => search_finish t q n paramValues
    end.

(** ** Vocabulary of the statements *)

(** [n] is the terminal node of [pattern]: a pattern ends there and its
    key is [pattern]. *)
Definition terminal_of (t : Trie) (n : ptr) (pattern : string) : Prop :=
  exists nd, deref t n = Ok nd /\ end_ nd = true /\ key nd = pattern.

Definition options (ci su : bool) : TrieOptions :=
  {| CaseInsensitive := ci; SearchUnvisitedParams := su |}.

(** The trie built from [ps], and the node behind a pointer, for
    the statements about given tries. *)
Definition built (opts : TrieOptions) (ps : list string) : Trie :=
  match insert_all (NewTrieWithOptions opts) ps with
  | Ok (t, _) => t
  | _ => NewTrieWithOptions opts
  end.

Definition node_at (t : Trie) (n : ptr) : Node :=
  match deref t n with Ok nd => nd | _ => zeroNode end.

(** ** Vocabulary of the invariants of insertion *)

(** The pattern, or request, made of the segments [segs]: each one
    after a separator. *)
Fixpoint path_of (segs : list string) : string :=
  match segs with
  | [] => ""
  | s :: rest => pathSep +:+ s +:+ path_of rest
  end.

Fixpoint no_slash (s : string) : bool :=
  match s with
  | EmptyString => true
  | String c s' => negb (Ascii.eqb c pathSepB) && no_slash s'
  end.

(** A segment that [insert] takes as static: it is not empty, starts
    with neither [:] nor [*], and holds neither [+:] nor [-:]. *)
Definition plain (s : string) : bool :=
  match byte_at s 0 with
  | Ok c => negb (Ascii.eqb c ":") && negb (Ascii.eqb c "*")
            && negb (isPrefixParam s) && negb (isSuffixParam s)
  | _ => false
  end.

Definition static_segment (s : string) : bool := plain s && no_slash s.

(** The key under which [insert] files a static segment. *)
Definition canon (t : Trie) (s : string) : string :=
  if caseInsensitive t then ToLower s else s.

(** The text [s] is lowered byte by byte, if at all: the trie keeps the
    case of the text, or [s] is ASCII. *)
Definition within_ascii (t : Trie) (s : string) : bool :=
  negb (caseInsensitive t) || isASCII s.

(** The child maps of the nodes, by address. *)
Definition kids (t : Trie) : list (gmap string addr) := children <$> nodes t.

(** The child of the node at [a] under the key [s]. *)
Definition child_of (t : Trie) (a : addr) (s : string) : option addr :=
  match kids t !! a with
  | Some m => m !! s
  | None => None
  end.

(** What insertion keeps or only extends: the root, the options, the
    flag of the root slash and the child maps. *)
Definition shape (t : Trie)
  : ptr * bool * bool * bool * list (gmap string addr) :=
  (root t, caseInsensitive t, searchUnvisitedParams t, hasRootSlash t, kids t).

(** The heap of a trie built by insertion: the root is the first node,
    and every child is an allocated node other than the root. *)
Definition heap_ok (t : Trie) : Prop :=
  root t = Some 0%nat
  /\ (0 < length (nodes t))%nat
  /\ forall a s c, child_of t a s = Some c -> (0 < c < length (nodes t))%nat.

(** [t'] has the root, options and root-slash flag of [t], and every
    child of [t]. *)
Definition extends (t t' : Trie) : Prop :=
  root t' = root t
  /\ caseInsensitive t' = caseInsensitive t
  /\ searchUnvisitedParams t' = searchUnvisitedParams t
  /\ hasRootSlash t' = hasRootSlash t
  /\ (length (nodes t) <= length (nodes t'))%nat
  /\ forall a s c, child_of t a s = Some c -> child_of t' a s = Some c.

(** The node reached from [a] along the keys [keys]. *)
Fixpoint walk (t : Trie) (a : addr) (keys : list string) : option addr :=
  match keys with
  | [] => Some a
  | k :: rest =>
      match child_of t a k with
      | Some c => walk t c rest
      | None => None
      end
  end.

(** The segment starts with the wildcard mark. *)
Definition starts_star (s : string) : bool :=
  match byte_at s 0 with
  | Ok c => Ascii.eqb c "*"
  | _ => false
  end.

Definition head_star (segs : list string) : bool :=
  match segs with
  | s :: _ => starts_star s
  | [] => false
  end.

(** The pattern registers a wildcard directly under the root. *)
Definition is_root_wildcard (pattern : string) : bool :=
  match slowPathSplit pattern with
  | Ok segs => head_star segs
  | _ => false
  end.

(** The trie with the node [nd] stored at the address [a]. *)
Definition store (t : Trie) (a : addr) (nd : Node) : Trie :=
  set_nodes (<[a := nd]> (nodes t)) t.

(** The node [insert] leaves at the end of [key]. *)
Definition finished (nd : Node) (paramKeys : list string) (key static tag : string)
    (optionalData handler : option nat) : Node :=
  set_end_ true
    (set_staticKey static
       (set_key key
          (set_paramKeys paramKeys
             (set_Data optionalData (set_Handler handler (set_Tag tag nd)))))).

(** What holds of every trie built by insertion: the heap is well
    formed, and the two flags of the root are backed by children. *)
Definition trie_ok (t : Trie) : Prop :=
  heap_ok t
  /\ (hasRootSlash t = true -> is_Some (child_of t 0%nat pathSep))
  /\ (hasRootWildcard t = true -> is_Some (child_of t 0%nat WildcardParamStart)).

(** Forgetting what [insert] records of the spelling of the pattern. *)
Definition forget_key (nd : Node) : Node := set_staticKey "" (set_key "" nd).

(** Two results of [insert] that differ by the recorded spelling only. *)
Definition same_insertion (r1 r2 : res (Trie * option nat)) : Prop :=
  match r1, r2 with
  | Ok (t1, n1), Ok (t2, n2) =>
      n1 = n2 /\ update t1 n1 forget_key = update t2 n2 forget_key
  | Panic k1, Panic k2 => k1 = k2
  | OutOfFuel, OutOfFuel => True
  | _, _ => False
  end.

(** A field update that leaves the children of a node alone. *)
Definition keeps_children (f : Node -> Node) : Prop :=
  forall nd, children (f nd) = children nd.

(** Strictly descending: what the comments of [getPrefixParamChild] and
    [getSuffixParamChild] expect of the tables of lengths. *)
Fixpoint strictly_descending (l : list Z) : bool :=
  match l with
  | x :: ((y :: _) as rest) => (y <? x) && strictly_descending rest
  | _ => true
  end.

(** ** SearchPrefix, HasPrefix and Parents (trie.go) *)

(** The loop of [SearchPrefix] over the segments of the prefix. *)
Fixpoint SearchPrefix_loop (t : Trie) (n : ptr) (input : list string) : res ptr :=
  match input with
  | [] => Ok n
  | s :: rest =>
      let s := if caseInsensitive t then ToLower s else s in
      child ← getChild t n s;
      match child with
      | Some _ => SearchPrefix_loop t child rest
      | None => Ok None
      end
  end.

Definition SearchPrefix (t : Trie) (prefix : string) : res ptr :=
  input ← slowPathSplit prefix;
  SearchPrefix_loop t (root t) input.

Definition HasPrefix (t : Trie) (prefix : string) : res bool :=
  n ← SearchPrefix t prefix;
  Ok (bool_decide (n ≠ None)).

(** [n.Parent()] and [n.IsEnd()] *)
Definition Node_Parent (t : Trie) (n : ptr) : res ptr :=
  nd ← deref t n; Ok (parent nd).

Definition Node_IsEnd (t : Trie) (n : ptr) : res bool :=
  nd ← deref t n; Ok (end_ nd).

(** The loop [for { if n == nil { break } ... }] of [Parents]. *)
Fixpoint Parents_loop (fuel : nat) (t : Trie) (n : ptr) (parents : list ptr)
  : res (list ptr) :=
  match n with
  | None => Ok parents
  | Some _ =>
      match fuel with
      | O => OutOfFuel
      | S fuel' =>
          is_end ← Node_IsEnd t n;
          let parents := if is_end : bool then (parents ++ [n])%list else parents in
          n ← Node_Parent t n;
          Parents_loop fuel' t n parents
      end
  end.

(** The loop climbs the parent chain, as [findClosestParentWildcardNode]
    does. *)
Definition Parents (t : Trie) (prefix : string) : res (list ptr) :=
  n ← SearchPrefix t prefix;
  match n with
  | Some _ =>
      n ← Node_Parent t n;
      Parents_loop (length (nodes t)) t n []
  | None => Ok []
  end.

(** [DefaultKeysSorter(list)(i, j)]: the less function given to
    [sort.Slice] (part_001). *)
Definition DefaultKeysSorter (list : list string) (i j : Z) : res bool :=
  a ← index_at list i;
  b ← index_at list j;
  Ok (Z.of_nat (length (Split a pathSepB)) <? Z.of_nat (length (Split b pathSepB))).

(** ** Vocabulary of the further properties *)

(** A call of one of the three constructors of options. *)
Inductive option_call :=
| CallWithHandler (h : nat)
| CallWithTag (tag : string)
| CallWithData (data : option nat).

(** The option the call gives. *)
Definition option_of (c : option_call) : InsertOption :=
  match c with
  | CallWithHandler h =>
      match WithHandler (Some h) with
      | Ok o => o
      | _ => fun n => n
      end
  | CallWithTag tag => WithTag tag
  | CallWithData data => WithData data
  end.

(** The handler of the first [WithHandler] among the calls, the first
    tag that is not empty, the datum of the last [WithData]. *)
Fixpoint first_handler (cs : list option_call) : option nat :=
  match cs with
  | [] => None
  | CallWithHandler h :: _ => Some h
  | _ :: rest => first_handler rest
  end.

Fixpoint first_tag (cs : list option_call) : string :=
  match cs with
  | [] => ""
  | CallWithTag tag :: rest => if (tag =? "")%string then first_tag rest else tag
  | _ :: rest => first_tag rest
  end.

Fixpoint last_data (cs : list option_call) (d : option nat) : option nat :=
  match cs with
  | [] => d
  | CallWithData data :: rest => last_data rest data
  | _ :: rest => last_data rest d
  end.

(** [v] is a piece of [q]: [q[lo:hi]] for some bounds. *)
Definition piece_of (q v : string) : Prop := exists lo hi, slice q lo hi = Ok v.

(** The buffer a turn of the loop leaves. *)
Definition buffer_of (r : search_state + loop_exit) : list string :=
  match r with
  | inl st => backing (st_paramValues st)
  | inr (Broke _ pv) => backing pv
  | inr (Returned _ _) => []
  end.

Definition calls_of (r : search_state + loop_exit) : sets :=
  match r with
  | inr (Returned _ calls) => calls
  | _ => []
  end.

(** What [insert] records at the end of a pattern, with what the options
    of [Insert] add. *)
Definition payload (nd : Node)
  : bool * string * string * list string * option nat * string * option nat :=
  (end_ nd, key nd, staticKey nd, paramKeys nd, Handler nd, Tag nd, Data nd).

(** The key under which [insert] files the child of a segment, before
    it is lowered: the mark alone for a named or wildcard parameter, the
    literal with its mark for a prefix or suffix parameter, the segment
    itself when it is static. *)
Definition segment_key (s : string) : string :=
  match byte_at s 0 with
  | Ok c =>
      if Ascii.eqb c ":" then ParamStart
      else if Ascii.eqb c "*" then WildcardParamStart
      else if isPrefixParam s then
        match slice_to s (Index s PrefixParamStart + 2) with Ok k => k | _ => s end
      else if isSuffixParam s then
        match slice_from s (Index s SuffixParamStart) with Ok k => k | _ => s end
      else s
  | _ => s
  end.

(** The parameter name [insert] appends to [paramKeys] for a segment. *)
Definition segment_param (s : string) : list string :=
  match byte_at s 0 with
  | Ok c =>
      if Ascii.eqb c ":" || Ascii.eqb c "*" then
        match slice_from s 1 with Ok name => [name] | _ => [] end
      else if isPrefixParam s then
        match slice_from s (Index s PrefixParamStart + 2) with
        | Ok name => [name] | _ => []
        end
      else if isSuffixParam s then
        match slice_to s (Index s SuffixParamStart) with
        | Ok name => [name] | _ => []
        end
      else []
  | _ => []
  end.

(** The segment starts with the mark of a named parameter. *)
Definition starts_colon (s : string) : bool :=
  match byte_at s 0 with
  | Ok c => Ascii.eqb c ":"
  | _ => false
  end.

(** The lengths in the two tables of a node are lengths of strings. *)
Definition lengths_ok (nd : Node) : Prop :=
  Forall (Z.le 0) (childPrefixLengths nd) /\ Forall (Z.le 0) (childSuffixLengths nd).

(** What holds of every node of a trie built by insertion: a node that
    ends no pattern records nothing; [paramCount] is a count; the flag of
    the named child is backed by the child. *)
Definition node_ok (nd : Node) : Prop :=
  (end_ nd = false -> payload nd = payload zeroNode)
  /\ 0 <= paramCount nd
  /\ (childNamedParameter nd = true -> is_Some (children nd !! ParamStart))
  /\ lengths_ok nd.

(** The parent of a node was allocated before it, and every child
    points back to the node it is filed under. *)
Definition links_ok (t : Trie) : Prop :=
  (forall a nd b, nodes t !! a = Some nd -> parent nd = Some b -> (b < a)%nat)
  /\ (forall a s c, child_of t a s = Some c ->
        exists nd, nodes t !! c = Some nd /\ parent nd = Some a).

Definition tree_ok (t : Trie) : Prop :=
  trie_ok t /\ links_ok t /\ Forall node_ok (nodes t).

(** From [t] to [t'] the heap only grew: the nodes of [t] are still
    there, with their parent and what was recorded at them, and the nodes
    added record nothing. *)
Definition grows (t t' : Trie) : Prop :=
  (length (nodes t) <= length (nodes t'))%nat
  /\ (forall b nd, nodes t !! b = Some nd ->
        exists nd', nodes t' !! b = Some nd'
                    /\ payload nd' = payload nd /\ parent nd' = parent nd)
  /\ (forall b nd', nodes t' !! b = Some nd' -> (length (nodes t) <= b)%nat ->
        payload nd' = payload zeroNode).

(** A segment of the pattern is a wildcard. *)
Definition wildcard_pattern (pattern : string) : bool :=
  match slowPathSplit pattern with
  | Ok segs => existsb starts_star segs
  | _ => false
  end.

(** No node of the trie has a wildcard child. *)
Definition wildcard_free (t : Trie) : Prop :=
  hasRootWildcard t = false
  /\ Forall (fun nd => childWildcardParameter nd = false) (nodes t).

(** The pointer is to an allocated node. *)
Definition valid (t : Trie) (n : ptr) : Prop :=
  exists a nd, n = Some a /\ nodes t !! a = Some nd.

(** A panic of the kind the wildcard fallbacks of [Search] raise, on a
    trie that has a wildcard. *)
Definition wildcard_panic {A} (t : Trie) (r : res A) : Prop :=
  ~ wildcard_free t /\ (r = Panic IndexOutOfRange \/ r = Panic SliceBounds).

(** The pointers to the allocated nodes. *)
Definition all_nodes (t : Trie) : gset (option nat) :=
  list_to_set (Some <$> seq 0 (length (nodes t))).

(** What decreases at every turn of the loop of [Search]: the nodes
    not yet visited count for a whole scan of the request, then the bytes
    left to scan. *)
Definition search_measure (t : Trie) (q : string) (vis : gset (option nat)) (i : Z)
  : nat :=
  (size (all_nodes t ∖ vis) * (String.length q + 2)
   + (String.length q + 1 - Z.to_nat i))%nat.

(** What holds of the variables of the loop of [Search] at every turn. *)
Definition state_ok (t : Trie) (q : string) (st : search_state) : Prop :=
  valid t (st_n st) /\ 0 <= st_start st <= st_i st /\ st_i st <= len q.

Definition exit_ok (t : Trie) (e : loop_exit) : Prop :=
  match e with
  | Returned n _ => n = None \/ valid t n
  | Broke n _ => n = None \/ valid t n
  end.

(** From [t] to [t'] no child was lost and no node stopped ending a
    pattern; the case mode is the same. *)
Definition keeps (t t' : Trie) : Prop :=
  caseInsensitive t' = caseInsensitive t
  /\ (forall a s c, child_of t a s = Some c -> child_of t' a s = Some c)
  /\ (forall m nd, nodes t !! m = Some nd -> end_ nd = true ->
        exists nd', nodes t' !! m = Some nd' /\ end_ nd' = true).

(** The keys of the children [insert] follows for the segments of a
    pattern, and the parameter names it collects. *)
Definition pattern_keys (t : Trie) (segs : list string) : list string :=
  (fun s => canon t (segment_key s)) <$> segs.

Definition pattern_params (segs : list string) : list string :=
  concat (segment_param <$> segs).

(** The nodes on the way from [a] along [keys], from [a] to the node
    reached. *)
Fixpoint path_nodes (t : Trie) (a : addr) (keys : list string) : list addr :=
  a :: match keys with
       | [] => []
       | k :: rest =>
           match child_of t a k with
           | Some c => path_nodes t c rest
           | None => []
           end
       end.

(** Those of the nodes that end a pattern, as pointers. *)
Definition ending (t : Trie) (l : list addr) : list ptr :=
  Some <$> List.filter (fun b => end_ (node_at t (Some b))) l.

(** The number of separators of a key. *)
Fixpoint count_sep (s : string) : nat :=
  match s with
  | EmptyString => 0
  | String c s' => (if Ascii.eqb c pathSepB then 1 else 0) + count_sep s'
  end.

(** The loop of [Search] was left by [break] at a node that ends a
    pattern. *)
Definition at_terminal (t : Trie) (r : search_state + loop_exit) : Prop :=
  match r with
  | inl _ => True
  | inr (Broke n _) => exists nd, deref t n = Ok nd /\ end_ nd = true
  | inr (Returned _ _) => False
  end.

(** A segment [:name] of a pattern, and a segment that is static or of
    this form. *)
Definition named_segment (s : string) : bool := starts_colon s && no_slash s.

Definition simple_segment (s : string) : bool := static_segment s || named_segment s.

(** The segment [v] of a request is an instance of the segment [s] of a
    pattern: any text other than the mark [:] for a named parameter, the
    segment itself, up to the case when the trie ignores it, for a
    static one. *)
Definition instance_of (t : Trie) (s v : string) : Prop :=
  no_slash v = true
  /\ if starts_colon s then v <> ParamStart else canon t v = canon t s.

(** The segments of the request that stand at the named parameters of
    the pattern. *)
Fixpoint bound_values (segs vals : list string) : list string :=
  match segs, vals with
  | s :: segs', v :: vals' =>
      ((if starts_colon s then [v] else []) ++ bound_values segs' vals')%list
  | _, _ => []
  end.

(** The slice lies within its backing array. *)
Definition buffer_ok (p : strslice) : Prop := 0 <= slen p <= cap p.

(** From the address [a] on, the nodes are those of the segments [segs]
    alone: each has the next address as its only child, filed under the
    key of its segment, and the flag of the named parameter when the
    segment is one. *)
Fixpoint chain (t : Trie) (a : addr) (segs : list string) : Prop :=
  match segs with
  | [] => True
  | s :: rest =>
      (exists nd, nodes t !! a = Some nd
                  /\ children nd = {[canon t (segment_key s) := S a]}
                  /\ childPrefixParameter nd = false
                  /\ childSuffixParameter nd = false
                  /\ childNamedParameter nd = starts_colon s)
      /\ chain t (S a) rest
  end.

(** The Kelvin sign U+212A in UTF-8, the bytes E2 84 AA:
    [strings.ToLower] turns it into the letter k. *)
Definition KelvinSign : string :=
  String (byte_of 226) (String (byte_of 132) (String (byte_of 170) EmptyString)).

(** * Properties *)

(** ** Tactics *)

Ltac run_insert := vm_compute; reflexivity.

(* Conjuncts are settled left to right: the first one computes the trie
   the later ones are about. *)
Ltac scenario :=
  lazymatch goal with
  | |- _ /\ _ => split; [scenario | scenario]
  | |- exists _, _ => eexists; scenario
  | |- terminal_of _ _ _ => unfold terminal_of; scenario
  | |- _ <> _ => vm_compute; discriminate
  | |- forall _, _ => intros; scenario
  | |- _ => run_insert
  end.

Lemma bind_Ok {A B} (m : res A) (f : A -> res B) (b : B) :
  m ≫= f = Ok b -> exists a, m = Ok a /\ f a = Ok b.
Proof. destruct m; simpl; intros H; try discriminate. eauto. Qed.

(* Inversion of a computation that returned: binds are opened, tests
   and matches are split. *)
Ltac res_inv :=
  repeat first
    [ progress simplify_eq/=
    | match goal with
      | H : _ ≫= _ = Ok _ |- _ =>
          apply bind_Ok in H as (? & ? & H)
      | H : (let '(_, _) := ?p in _) = Ok _ |- _ => destruct p
      | H : context [match ?x with _ => _ end] |- _ =>
          lazymatch type of H with
          | _ = Ok _ => destruct x eqn:?
          end
      end ].

(** ** Strings *)

Lemma len_nonneg s : 0 <= len s.
Proof. unfold len. lia. Qed.

Lemma app_cons c a b : String c a +:+ b = String c (a +:+ b).
Proof. reflexivity. Qed.

Lemma app_nil_l b : "" +:+ b = b.
Proof. reflexivity. Qed.

Ltac str_simpl := rewrite ?app_cons, ?app_nil_l; simpl.

Lemma length_app_str a b :
  String.length (a +:+ b) = (String.length a + String.length b)%nat.
Proof. induction a as [|c0 a IH]; str_simpl; [done | first [by rewrite IH | by f_equal]]. Qed.

Lemma len_app a b : len (a +:+ b) = len a + len b.
Proof. unfold len. rewrite length_app_str. lia. Qed.

Lemma len_String c s : len (String c s) = 1 + len s.
Proof. unfold len. simpl. lia. Qed.

Lemma str_drop_app a b : str_drop (String.length a) (a +:+ b) = b.
Proof. induction a; simpl; [by destruct b | done]. Qed.

Lemma str_take_app a b : str_take (String.length a) (a +:+ b) = a.
Proof. induction a as [|c0 a IH]; str_simpl; [by destruct b | by rewrite ?IH]. Qed.

Lemma app_str_assoc a b c : (a +:+ b) +:+ c = a +:+ (b +:+ c).
Proof. induction a as [|c0 a IH]; str_simpl; [done | first [by rewrite IH | by f_equal]]. Qed.

Lemma app_str_nil_r a : a +:+ "" = a.
Proof. induction a as [|c0 a IH]; str_simpl; [done | first [by rewrite IH | by f_equal]]. Qed.

Lemma slice_middle pre seg rest :
  slice (pre +:+ seg +:+ rest) (len pre) (len pre + len seg) = Ok seg.
Proof.
  unfold slice.
  pose proof (len_nonneg pre). pose proof (len_nonneg seg). pose proof (len_nonneg rest).
  rewrite !len_app.
  replace ((len pre <? 0) || (len pre + len seg <? len pre)
           || (len pre + (len seg + len rest) <? len pre + len seg)) with false
    by (symmetry; rewrite !orb_false_iff, !Z.ltb_ge; lia).
  unfold len. rewrite Nat2Z.id.
  replace (Z.to_nat (Z.of_nat (String.length pre) + Z.of_nat (String.length seg)
                     - Z.of_nat (String.length pre))) with (String.length seg) by lia.
  by rewrite str_drop_app, str_take_app.
Qed.

Lemma slice_to_app a b : slice_to (a +:+ b) (len a) = Ok a.
Proof.
  unfold slice_to.
  pose proof (slice_middle "" a b) as H. rewrite app_nil_l in H.
  replace (len "") with 0 in H by done. exact H.
Qed.

Lemma get_app_here pre c rest :
  String.get (String.length pre) (pre +:+ String c rest) = Some c.
Proof. induction pre; str_simpl; done. Qed.

Lemma byte_at_app pre c rest :
  byte_at (pre +:+ String c rest) (len pre) = Ok c.
Proof.
  unfold byte_at. pose proof (len_nonneg pre). pose proof (len_nonneg rest).
  rewrite len_app, len_String.
  replace ((len pre <? 0) || (len pre + (1 + len rest) <=? len pre)) with false
    by (symmetry; rewrite orb_false_iff, Z.ltb_ge, Z.leb_gt; lia).
  unfold len. rewrite Nat2Z.id. by rewrite get_app_here.
Qed.

Lemma isASCII_app a b : isASCII (a +:+ b) = isASCII a && isASCII b.
Proof.
  induction a as [|c0 a IH]; str_simpl; [done |].
  by rewrite IH, andb_assoc.
Qed.

Lemma lower_bytes_app a b : lower_bytes (a +:+ b) = lower_bytes a +:+ lower_bytes b.
Proof. induction a as [|c0 a IH]; str_simpl; [done | first [by rewrite IH | by f_equal]]. Qed.

Lemma lower_bytes_length a : String.length (lower_bytes a) = String.length a.
Proof. induction a as [|c0 a IH]; str_simpl; [done | first [by rewrite IH | by f_equal]]. Qed.

(** On ASCII text [strings.ToLower] works byte by byte: it commutes with
    concatenation and keeps the length.  Beyond ASCII it does neither. *)
Lemma ToLower_app a b :
  isASCII (a +:+ b) = true -> ToLower (a +:+ b) = ToLower a +:+ ToLower b.
Proof.
  intros H. unfold ToLower. rewrite H.
  rewrite isASCII_app in H. apply andb_true_iff in H as (-> & ->).
  apply lower_bytes_app.
Qed.

Lemma ToLower_length a :
  isASCII a = true -> String.length (ToLower a) = String.length a.
Proof. intros H. unfold ToLower. rewrite H. apply lower_bytes_length. Qed.

Lemma len_ToLower a : isASCII a = true -> len (ToLower a) = len a.
Proof. intros H. unfold len. by rewrite ToLower_length. Qed.

Lemma byte_at_last_app a c :
  byte_at (a +:+ String c "") (len (a +:+ String c "") - 1) = Ok c.
Proof.
  rewrite len_app, len_String. replace (len "") with 0 by done.
  replace (len a + (1 + 0) - 1) with (len a) by lia.
  apply byte_at_app.
Qed.

(** A non-empty string ends with its last byte. *)
Lemma str_snoc s : s <> "" -> exists a c, s = a +:+ String c "".
Proof.
  induction s as [|c s IH]; [done | intros _].
  destruct s as [|c' s'].
  - by exists "", c.
  - destruct IH as (a & c0 & ->); [done |].
    by exists (String c a), c0.
Qed.

Lemma no_slash_app a b : no_slash (a +:+ b) = no_slash a && no_slash b.
Proof.
  induction a as [|c a IH]; str_simpl; [done |].
  rewrite IH. by rewrite andb_assoc.
Qed.

Lemma eqb_sep_false c : c <> pathSepB -> Ascii.eqb c pathSepB = false.
Proof. intros H. by apply Ascii.eqb_neq. Qed.

Lemma Index_from_eq k s substr :
  Index_from k s substr
  = if String.prefix substr s then k
    else match s with
         | EmptyString => -1
         | String _ s' => Index_from (k + 1) s' substr
         end.
Proof. by destruct s. Qed.

Lemma Index_from_range substr s :
  forall k, Index_from k s substr = -1
            \/ k <= Index_from k s substr <= k + len s.
Proof.
  induction s as [|c s IH]; intros k; rewrite Index_from_eq.
  - destruct (String.prefix substr ""); [right | by left].
    change (len "") with 0. lia.
  - destruct (String.prefix substr (String c s)).
    + right. pose proof (len_nonneg (String c s)). lia.
    + destruct (IH (k + 1)) as [-> | H]; [by left | right].
      rewrite len_String. lia.
Qed.

Lemma slice_to_ok s i : 0 <= i <= len s -> exists r, slice_to s i = Ok r.
Proof.
  intros H. unfold slice_to, slice.
  replace ((0 <? 0) || (i <? 0) || (len s <? i)) with false; [eauto |].
  symmetry. rewrite !orb_false_iff, !Z.ltb_ge. lia.
Qed.

Lemma resolveStaticPart_ok key : exists static, resolveStaticPart key = Ok static.
Proof.
  unfold resolveStaticPart, Index. cbv zeta.
  pose proof (len_nonneg key).
  apply slice_to_ok.
  pose proof (Index_from_range ParamStart key 0) as H1.
  pose proof (Index_from_range WildcardParamStart key 0) as H2.
  set (i1 := Index_from 0 key ParamStart) in *.
  set (i2 := Index_from 0 key WildcardParamStart) in *.
  destruct (Z.eqb_spec i1 (-1)) as [E1 | E1].
  - destruct (Z.eqb_spec i2 (-1)) as [E2 | E2]; lia.
  - destruct (Z.eqb_spec i1 (-1)) as [E2 | E2]; lia.
Qed.

(** ** Splitting a path into its segments *)

Lemma Split_seg s rest :
  no_slash s = true ->
  (rest = [] \/ Split (path_of rest) pathSepB = "" :: rest) ->
  Split (s +:+ path_of rest) pathSepB = s :: rest.
Proof.
  intros Hs Hrest. induction s as [|c s IH]; str_simpl.
  - destruct Hrest as [-> | H]; [done |].
    destruct rest as [|r rest]; [done |].
    rewrite H. done.
  - simpl in Hs. apply andb_true_iff in Hs as (Hc & Hs).
    apply negb_true_iff in Hc. rewrite Hc.
    by rewrite (IH Hs).
Qed.

Lemma Split_path_of segs :
  forallb no_slash segs = true ->
  segs = [] \/ Split (path_of segs) pathSepB = "" :: segs.
Proof.
  induction segs as [|s rest IH]; intros H; [by left | right].
  simpl in H. apply andb_true_iff in H as (Hs & Hrest).
  simpl. unfold pathSep. str_simpl. f_equal. apply Split_seg; auto.
Qed.

Lemma path_of_cons s rest : path_of (s :: rest) = String pathSepB (s +:+ path_of rest).
Proof. reflexivity. Qed.

Lemma plain_nonempty s : plain s = true -> exists c s', s = String c s'.
Proof.
  unfold plain, byte_at. destruct s as [|c s']; [done | eauto].
Qed.

Lemma static_segment_inv s :
  static_segment s = true -> plain s = true /\ no_slash s = true.
Proof. unfold static_segment. apply andb_true_iff. Qed.

Lemma forallb_static_inv segs :
  forallb static_segment segs = true ->
  forallb plain segs = true /\ forallb no_slash segs = true.
Proof.
  induction segs as [|s rest IH]; simpl; [done |].
  intros H. apply andb_true_iff in H as (Hs & Hrest).
  apply static_segment_inv in Hs as (-> & ->). simpl. by apply IH.
Qed.

(** A path of static segments ends with a byte that is no separator. *)
Lemma path_of_last segs :
  segs <> [] ->
  forallb static_segment segs = true ->
  exists a c, path_of segs = a +:+ String c "" /\ c <> pathSepB.
Proof.
  induction segs as [|s rest IH]; [done | intros _ H].
  simpl in H. apply andb_true_iff in H as (Hs & Hrest).
  rewrite path_of_cons.
  destruct rest as [|r rest].
  - simpl. rewrite app_str_nil_r.
    apply static_segment_inv in Hs as (Hp & Hns).
    destruct (plain_nonempty _ Hp) as (c0 & s0 & ->).
    destruct (str_snoc (String c0 s0)) as (a & c & E); [done |].
    exists (String pathSepB a), c. rewrite E. split; [done |].
    rewrite E, no_slash_app in Hns. apply andb_true_iff in Hns as (_ & Hc).
    simpl in Hc. rewrite andb_true_r in Hc.
    by apply negb_true_iff, Ascii.eqb_neq in Hc.
  - destruct IH as (a & c & E & Hc); [done | done |].
    exists (String pathSepB (s +:+ a)), c. split; [| done].
    rewrite E. rewrite app_cons. by rewrite app_str_assoc.
Qed.

Lemma slowPathSplit_not_sep_last a c :
  c <> pathSepB ->
  slowPathSplit (a +:+ String c "")
  = list_slice_from (Split (a +:+ String c "") pathSepB) 1.
Proof.
  intros Hc. unfold slowPathSplit.
  destruct (String.eqb_spec (a +:+ String c "") pathSep) as [E | _].
  - exfalso. destruct a as [|c0 a]; [| destruct a; discriminate].
    rewrite app_nil_l in E. injection E as ->. done.
  - rewrite byte_at_last_app. cbn [mbind res_bind].
    by rewrite (eqb_sep_false _ Hc).
Qed.

Lemma slowPathSplit_trailing_sep p :
  p <> "" ->
  slowPathSplit (p +:+ pathSep) = list_slice_from (Split p pathSepB) 1.
Proof.
  intros Hp. unfold slowPathSplit.
  destruct (String.eqb_spec (p +:+ pathSep) pathSep) as [E | _].
  - exfalso. destruct p as [|c0 p]; [done |].
    rewrite app_cons in E. injection E as _ E. by destruct p.
  - unfold pathSep. rewrite byte_at_last_app. cbn [mbind res_bind].
    unfold pathSepB. rewrite Ascii.eqb_refl.
    replace (len (p +:+ "/") - 1) with (len p)
      by (rewrite len_app; change (len "/") with 1; lia).
    rewrite slice_to_app. done.
Qed.

(** Part of C9: one separator at the end of a pattern changes nothing
    of its segments. *)
Lemma slowPathSplit_trailing p c :
  byte_at p (len p - 1) = Ok c ->
  c <> pathSepB ->
  slowPathSplit (p +:+ pathSep) = slowPathSplit p.
Proof.
  intros Hlast Hc.
  assert (Hp : p <> "") by (intros ->; done).
  rewrite (slowPathSplit_trailing_sep _ Hp).
  destruct (str_snoc _ Hp) as (a & c' & ->).
  rewrite byte_at_last_app in Hlast. injection Hlast as ->.
  by rewrite (slowPathSplit_not_sep_last _ _ Hc).
Qed.

Lemma slowPathSplit_path_of segs :
  segs <> [] ->
  forallb static_segment segs = true ->
  slowPathSplit (path_of segs) = Ok segs.
Proof.
  intros Hne Hst.
  destruct (path_of_last _ Hne Hst) as (a & c & E & Hc).
  rewrite E, (slowPathSplit_not_sep_last _ _ Hc), <- E.
  destruct (forallb_static_inv _ Hst) as (_ & Hns).
  destruct (Split_path_of _ Hns) as [-> | ->]; [done |].
  unfold list_slice_from.
  replace ((1 <? 0) || (Z.of_nat (length ("" :: segs)) <? 1)) with false; [done |].
  symmetry. rewrite orb_false_iff, !Z.ltb_ge. simpl. lia.
Qed.

Lemma path_of_nonempty segs : segs <> [] -> path_of segs <> "".
Proof. by destruct segs. Qed.

Lemma slowPathSplit_sep : slowPathSplit pathSep = Ok [pathSep].
Proof. reflexivity. Qed.

(** ** The tables of lengths *)

Lemma dedup_seen_spec l :
  forall seen,
    NoDup (dedup_seen seen l)
    /\ forall x, x ∈ dedup_seen seen l <-> x ∈ l /\ x ∉ seen.
Proof.
  induction l as [|v l IH]; intros seen; simpl.
  - split; [constructor |]. intros x. rewrite elem_of_nil. tauto.
  - destruct (bool_decide (v ∈ seen)) eqn:Hv.
    + apply bool_decide_eq_true in Hv.
      destruct (IH seen) as (Hnd & Hin). split; [done |].
      intros x. rewrite Hin, elem_of_cons.
      split; [tauto |]. intros [[-> | Hx] Hs]; tauto.
    + apply bool_decide_eq_false in Hv.
      destruct (IH ({[v]} ∪ seen)) as (Hnd & Hin). split.
      * constructor; [| done]. rewrite Hin, not_elem_of_union, not_elem_of_singleton.
        tauto.
      * intros x. rewrite !elem_of_cons, Hin, not_elem_of_union, not_elem_of_singleton.
        destruct (decide (x = v)) as [-> | Hx]; tauto.
Qed.

Lemma strictly_descending_tail x l :
  strictly_descending (x :: l) = true -> strictly_descending l = true.
Proof.
  destruct l as [|y l]; [done |]. simpl. intros H.
  by apply andb_true_iff in H as (_ & H).
Qed.

Lemma strictly_descending_cons x y l :
  y < x ->
  strictly_descending (y :: l) = true ->
  strictly_descending (x :: y :: l) = true.
Proof.
  intros Hlt H.
  change (strictly_descending (x :: y :: l))
    with ((y <? x) && strictly_descending (y :: l)).
  rewrite H, andb_true_r. by apply Z.ltb_lt.
Qed.

(** Inserting a new length keeps a strictly descending table so; its
    head is the new length or the old head. *)
Lemma insert_desc_spec x l :
  strictly_descending l = true ->
  x ∉ l ->
  strictly_descending (insert_desc x l) = true
  /\ (forall y, y ∈ insert_desc x l <-> y = x \/ y ∈ l)
  /\ (exists tl, insert_desc x l = x :: tl
                 \/ exists y l', l = y :: l' /\ x < y /\ insert_desc x l = y :: tl).
Proof.
  induction l as [|y l IH]; intros Hs Hx; simpl.
  - split; [done |]. split; [| exists []; by left].
    intros z. rewrite list_elem_of_singleton, elem_of_nil. tauto.
  - rewrite elem_of_cons in Hx.
    destruct (Z.ltb_spec y x) as [Hlt | Hge].
    + split; [by apply strictly_descending_cons |].
      split; [| exists (y :: l); by left].
      intros z. rewrite !elem_of_cons. tauto.
    + assert (Hyx : x < y) by (assert (x <> y) by tauto; lia).
      destruct IH as (IHs & IHin & tl & IHhd);
        [by eapply strictly_descending_tail | tauto |].
      split; [| split].
      * destruct IHhd as [E | (w & l' & -> & Hxw & E)]; rewrite E in *.
        -- by apply strictly_descending_cons.
        -- apply strictly_descending_cons; [| done].
           simpl in Hs. apply andb_true_iff in Hs as (Hwy & _).
           by apply Z.ltb_lt in Hwy.
      * intros z. rewrite !elem_of_cons, IHin. tauto.
      * exists (insert_desc x l). right. by exists y, l.
Qed.

Lemma sort_desc_spec l :
  NoDup l ->
  strictly_descending (sort_desc l) = true
  /\ forall y, y ∈ sort_desc l <-> y ∈ l.
Proof.
  induction 1 as [|x l Hx Hnd IH]; simpl; [done |].
  destruct IH as (IHs & IHin).
  destruct (insert_desc_spec x (sort_desc l)) as (Hs & Hin & _);
    [done | by rewrite IHin |].
  split; [done |]. intros y. rewrite Hin, IHin, elem_of_cons. tauto.
Qed.

(** The table [addLength] sorts, and drops, is strictly descending. *)
Lemma paramDesc_of_descending stored :
  strictly_descending (paramDesc_of stored) = true.
Proof.
  unfold paramDesc_of.
  destruct (dedup_seen_spec stored ∅) as (Hnd & _).
  by destruct (sort_desc_spec _ Hnd).
Qed.

(** ** The heap under insertion *)

Lemma deref_Some t a nd : nodes t !! a = Some nd -> deref t (Some a) = Ok nd.
Proof. intros H. unfold deref. by rewrite H. Qed.

Lemma kids_lookup t a nd :
  nodes t !! a = Some nd -> kids t !! a = Some (children nd).
Proof. intros H. unfold kids. by rewrite list_lookup_fmap, H. Qed.

Lemma child_of_node t a nd s :
  nodes t !! a = Some nd -> child_of t a s = children nd !! s.
Proof. intros H. unfold child_of. by rewrite (kids_lookup _ _ _ H). Qed.

Lemma child_of_Some t a s c :
  child_of t a s = Some c ->
  exists nd, nodes t !! a = Some nd /\ children nd !! s = Some c.
Proof.
  unfold child_of, kids. rewrite list_lookup_fmap.
  destruct (nodes t !! a) as [nd|]; simpl; [eauto | done].
Qed.

Lemma getChild_child_of t a nd s :
  nodes t !! a = Some nd -> getChild t (Some a) s = Ok (child_of t a s).
Proof.
  intros H. unfold getChild. rewrite (deref_Some _ _ _ H). simpl.
  by rewrite (child_of_node _ _ _ _ H).
Qed.

Lemma update_inv t n f t' :
  update t n f = Ok t' ->
  exists a nd, n = Some a /\ nodes t !! a = Some nd
               /\ t' = set_nodes (<[a := f nd]> (nodes t)) t.
Proof.
  unfold update, deref. intros H.
  destruct n as [a|]; [| done].
  destruct (nodes t !! a) as [nd|] eqn:Hnd; [| done].
  simpl in H. simplify_eq. eauto.
Qed.

Lemma update_ok t a nd f :
  nodes t !! a = Some nd ->
  update t (Some a) f = Ok (set_nodes (<[a := f nd]> (nodes t)) t).
Proof. intros H. unfold update. by rewrite (deref_Some _ _ _ H). Qed.

Lemma update_shape t n f t' :
  keeps_children f ->
  update t n f = Ok t' ->
  shape t' = shape t /\ hasRootWildcard t' = hasRootWildcard t
  /\ length (nodes t') = length (nodes t).
Proof.
  intros Hf H. apply update_inv in H as (a & nd & -> & Hnd & ->).
  unfold shape, kids. simpl.
  rewrite list_fmap_insert, Hf, length_insert.
  rewrite list_insert_id; [done |].
  by rewrite list_lookup_fmap, Hnd.
Qed.

Lemma shape_child_of t t' a s :
  shape t' = shape t -> child_of t' a s = child_of t a s.
Proof.
  unfold shape, child_of. intros H.
  by replace (kids t') with (kids t) by congruence.
Qed.

Lemma length_kids t : length (kids t) = length (nodes t).
Proof. unfold kids. by rewrite length_fmap. Qed.

Lemma shape_length t t' :
  shape t' = shape t -> length (nodes t') = length (nodes t).
Proof.
  intros H. rewrite <- !length_kids. unfold shape in H. congruence.
Qed.

Lemma shape_heap_ok t t' : shape t' = shape t -> heap_ok t -> heap_ok t'.
Proof.
  intros H (Hr & Hl & Hc). unfold heap_ok.
  rewrite (shape_length _ _ H).
  split; [unfold shape in H; congruence |].
  split; [done |].
  intros a s c. rewrite (shape_child_of _ _ _ _ H). apply Hc.
Qed.

Lemma shape_extends t t' : shape t' = shape t -> extends t t'.
Proof.
  intros H. unfold extends. rewrite (shape_length _ _ H).
  unfold shape in H.
  repeat split; try congruence; try lia.
  intros a s c. by rewrite (shape_child_of t t') by (unfold shape; congruence).
Qed.

Lemma extends_refl t : extends t t.
Proof. by apply shape_extends. Qed.

Lemma extends_trans t1 t2 t3 : extends t1 t2 -> extends t2 t3 -> extends t1 t3.
Proof.
  intros (? & ? & ? & ? & ? & H12) (? & ? & ? & ? & ? & H23).
  unfold extends. repeat split; try congruence; try lia. eauto.
Qed.

Lemma heap_ok_valid t a s c :
  heap_ok t -> child_of t a s = Some c -> exists nd, nodes t !! c = Some nd.
Proof.
  intros (_ & _ & H) Hc. apply H in Hc.
  apply lookup_lt_is_Some_2. lia.
Qed.

(** Descending into the child filed under [s], creating it when it is
    missing. *)
Lemma descend_or_create_spec t a nd s :
  heap_ok t ->
  nodes t !! a = Some nd ->
  exists t' c,
    descend_or_create t (Some a) s = Ok (t', Some c)
    /\ child_of t' a s = Some c
    /\ heap_ok t'
    /\ extends t t'
    /\ hasRootWildcard t' = hasRootWildcard t.
Proof.
  intros Hok Hnd. pose proof Hok as (Hroot & Hlen & Hkids).
  unfold descend_or_create, hasChild.
  rewrite (getChild_child_of _ _ _ _ Hnd). simpl.
  destruct (child_of t a s) as [c|] eqn:Hc.
  - exists t, c. simpl.
    rewrite (getChild_child_of _ _ _ _ Hnd), Hc. simpl.
    split; [done |]. split; [done |]. split; [done |].
    split; [apply extends_refl | done].
  - simpl.
    assert (Hnone : children nd !! s = None)
      by (by rewrite <- (child_of_node _ _ _ _ Hnd)).
    assert (Ha : (a < length (nodes t))%nat)
      by (by eapply lookup_lt_Some).
    set (new := length (nodes t)).
    set (t1 := set_nodes (nodes t ++ [zeroNode])%list t).
    assert (Hnd1 : nodes t1 !! a = Some nd)
      by (simpl; by rewrite lookup_app_l).
    assert (Hnew1 : nodes t1 !! new = Some zeroNode).
    { simpl. rewrite lookup_app_r by (unfold new; lia).
      by replace (new - length (nodes t))%nat with 0%nat by (unfold new; lia). }
    unfold addChild.
    rewrite (deref_Some _ _ _ Hnd1). simpl. rewrite Hnone.
    rewrite (update_ok _ _ _ _ Hnew1). simpl.
    set (t2 := set_nodes (<[new := set_parent (Some a) zeroNode]> (nodes t1)) t1).
    assert (Hnd2 : nodes t2 !! a = Some nd).
    { simpl. rewrite list_lookup_insert_ne by (unfold new; lia).
      by rewrite lookup_app_l. }
    rewrite (update_ok _ _ _ _ Hnd2). simpl.
    set (nd' := set_children (<[s := new]> (children nd)) nd).
    set (t3 := set_nodes (<[a := nd']> (nodes t2)) t2).
    assert (Hlen3 : length (nodes t3) = S new).
    { simpl. rewrite !length_insert, length_app. simpl. unfold new. lia. }
    assert (Hnd3 : nodes t3 !! a = Some nd').
    { simpl. apply list_lookup_insert_eq.
      rewrite length_insert, length_app. simpl. lia. }
    assert (Hother : forall b, b <> a -> forall s',
               child_of t3 b s' = child_of t b s').
    { intros b Hb s'. unfold child_of, kids. simpl.
      rewrite !list_lookup_fmap.
      rewrite list_lookup_insert_ne by done.
      destruct (decide (b = new)) as [-> | Hbn].
      - rewrite list_lookup_insert_eq
          by (rewrite length_app; simpl; unfold new; lia).
        rewrite (lookup_ge_None_2 (nodes t) new) by (unfold new; lia).
        done.
      - rewrite list_lookup_insert_ne by done.
        destruct (decide (b < new)%nat).
        + by rewrite lookup_app_l.
        + rewrite (lookup_ge_None_2 (nodes t) b) by (unfold new; lia).
          rewrite lookup_ge_None_2; [done |].
          rewrite length_app. simpl. unfold new in *. lia. }
    assert (Hsame : forall s', child_of t3 a s'
                               = if decide (s = s') then Some new
                                 else child_of t a s').
    { intros s'. rewrite (child_of_node _ _ _ _ Hnd3).
      rewrite (child_of_node _ _ _ _ Hnd). simpl.
      rewrite lookup_insert. by destruct (decide (s = s')). }
    exists t3, new.
    rewrite (getChild_child_of _ _ _ _ Hnd3), Hsame.
    rewrite decide_True by done. simpl.
    split; [done |]. split; [done |].
    split; [| split; [| done]].
    + split; [done |]. split; [lia |].
      intros b s' c. rewrite Hlen3.
      destruct (decide (b = a)) as [-> | Hb].
      * rewrite Hsame. destruct (decide (s = s')).
        -- intros [= <-]. unfold new. lia.
        -- intros Hc'. apply Hkids in Hc'. unfold new. lia.
      * rewrite Hother by done. intros Hc'. apply Hkids in Hc'. unfold new. lia.
    + unfold extends. rewrite Hlen3.
      repeat split; try done; [unfold new; lia |].
      intros b s' c Hc'.
      destruct (decide (b = a)) as [-> | Hb].
      * rewrite Hsame. destruct (decide (s = s')) as [<- | ]; [congruence | done].
      * by rewrite Hother.
Qed.

Lemma store_lookup t a nd x :
  nodes t !! a = Some nd -> nodes (store t a x) !! a = Some x.
Proof.
  intros H. unfold store. simpl. apply list_lookup_insert_eq.
  by eapply lookup_lt_Some.
Qed.

Lemma store_store t a x y : store (store t a x) a y = store t a y.
Proof. unfold store. simpl. by rewrite list_insert_insert_eq. Qed.

Lemma update_first t a nd f :
  nodes t !! a = Some nd -> update t (Some a) f = Ok (store t a (f nd)).
Proof. apply update_ok. Qed.

Lemma update_store t a nd x f :
  nodes t !! a = Some nd ->
  update (store t a x) (Some a) f = Ok (store t a (f x)).
Proof.
  intros H. rewrite (update_ok _ _ x) by (by eapply store_lookup).
  fold (store (store t a x) a (f x)). by rewrite store_store.
Qed.

Lemma store_shape t a nd x :
  nodes t !! a = Some nd ->
  children x = children nd ->
  shape (store t a x) = shape t
  /\ hasRootWildcard (store t a x) = hasRootWildcard t.
Proof.
  intros Hnd Hx. unfold shape, kids, store. simpl.
  rewrite list_fmap_insert, Hx.
  rewrite list_insert_id; [done |].
  by rewrite list_lookup_fmap, Hnd.
Qed.

Lemma heap_ok_root t : heap_ok t -> exists nd, nodes t !! 0%nat = Some nd.
Proof. intros (_ & H & _). apply lookup_lt_is_Some_2. lia. Qed.

Lemma heap_ok_set_hasRootSlash t b : heap_ok t -> heap_ok (set_hasRootSlash b t).
Proof.
  intros (Hr & Hl & Hk). split; [done |]. split; [done |]. exact Hk.
Qed.

(** ** Insertion *)

(* Every field update of a hypothesis is turned into the facts that the
   shape, the root-wildcard flag and the size of the heap are kept. *)
Ltac updates_keep :=
  repeat match goal with
    | H : update _ _ _ = Ok _ |- _ =>
        apply update_shape in H as (? & ? & ?); [| by intros ?]
    | H : addPrefixLength _ _ _ = Ok _ |- _ =>
        apply update_shape in H as (? & ? & ?); [| by intros ?]
    | H : addSuffixLength _ _ _ = Ok _ |- _ =>
        apply update_shape in H as (? & ? & ?); [| by intros ?]
    end.

Ltac shape_solve :=
  repeat split; unfold shape, kids in *; simpl in *; congruence.

Lemma register_segment_inv t n pk c s t' pk' s' :
  register_segment t n pk c s = Ok (t', pk', s') ->
  shape t' = shape t
  /\ length (nodes t') = length (nodes t)
  /\ hasRootWildcard t'
     = hasRootWildcard t || (Ascii.eqb c "*" && bool_decide (root t = n))
  /\ (Ascii.eqb c "*" = true -> s' = WildcardParamStart).
Proof.
  unfold register_segment. intros H.
  destruct (Ascii.eqb c ":") eqn:Hparam.
  { assert (Ascii.eqb c "*" = false) as ->.
    { apply Ascii.eqb_eq in Hparam as ->. done. }
    simpl in H.
    apply bind_Ok in H as (t1 & H1 & H).
    apply bind_Ok in H as (name & _ & H).
    apply bind_Ok in H as (t2 & H2 & H).
    simplify_eq. updates_keep.
    rewrite orb_false_r. shape_solve. }
  destruct (Ascii.eqb c "*") eqn:Hwild.
  { simpl in H.
    apply bind_Ok in H as (t1 & H1 & H).
    apply bind_Ok in H as (name & _ & H).
    apply bind_Ok in H as (t2 & H2 & H).
    updates_keep.
    assert (Hroot : root t2 = root t) by (unfold shape in *; congruence).
    rewrite Hroot in H.
    destruct (bool_decide (root t = n)); simplify_eq; simpl.
    - rewrite orb_true_r. shape_solve.
    - rewrite orb_false_r. shape_solve. }
  rewrite orb_false_r. simpl in H.
  destruct (isPrefixParam s) eqn:Hpre.
  { simpl in H.
    apply bind_Ok in H as (t1 & H1 & H).
    apply bind_Ok in H as (name & _ & H).
    apply bind_Ok in H as (t2 & H2 & H).
    apply bind_Ok in H as (t3 & H3 & H).
    apply bind_Ok in H as (s3 & _ & H).
    simplify_eq. updates_keep. shape_solve. }
  destruct (isSuffixParam s) eqn:Hsuf.
  { simpl in H.
    apply bind_Ok in H as (t1 & H1 & H).
    apply bind_Ok in H as (name & _ & H).
    apply bind_Ok in H as (t2 & H2 & H).
    apply bind_Ok in H as (t3 & H3 & H).
    apply bind_Ok in H as (s3 & _ & H).
    simplify_eq. updates_keep. shape_solve. }
  simpl in H. simplify_eq. shape_solve.
Qed.

Lemma register_segment_plain t n pk c s :
  byte_at s 0 = Ok c ->
  plain s = true ->
  register_segment t n pk c s = Ok (t, pk, s).
Proof.
  unfold plain, register_segment. intros -> H.
  apply andb_true_iff in H as (H & Hsuf).
  apply andb_true_iff in H as (H & Hpre).
  apply andb_true_iff in H as (Hparam & Hwild).
  apply negb_true_iff in Hparam, Hwild, Hpre, Hsuf.
  by rewrite Hparam, Hwild, Hpre, Hsuf.
Qed.

Lemma plain_not_star s : plain s = true -> starts_star s = false.
Proof.
  unfold plain, starts_star. destruct (byte_at s 0); try done.
  intros H.
  apply andb_true_iff in H as (H & _).
  apply andb_true_iff in H as (H & _).
  apply andb_true_iff in H as (_ & H).
  by apply negb_true_iff in H.
Qed.

Lemma canon_star t : canon t WildcardParamStart = WildcardParamStart.
Proof. unfold canon. by destruct (caseInsensitive t). Qed.

Lemma canon_sep t : canon t pathSep = pathSep.
Proof. unfold canon. by destruct (caseInsensitive t). Qed.

(** One segment: the heap stays well formed and only grows, the node
    descended into is a child of [a], filed under the wildcard mark for
    a wildcard segment and under the segment itself for a static one. *)
Lemma insert_segment_inv t a nd pk i s t' n' pk' :
  heap_ok t ->
  nodes t !! a = Some nd ->
  insert_segment t (Some a) pk i s = Ok (t', n', pk') ->
  exists c k,
    n' = Some c
    /\ child_of t' a k = Some c
    /\ (starts_star s = true -> k = WildcardParamStart)
    /\ (plain s = true -> k = canon t s /\ pk' = pk)
    /\ heap_ok t'
    /\ extends t t'
    /\ hasRootWildcard t'
       = hasRootWildcard t || (starts_star s && bool_decide (a = 0%nat)).
Proof.
  intros Hok Hnd H. unfold insert_segment in H.
  apply bind_Ok in H as (c0 & Hc0 & H).
  apply bind_Ok in H as (t1 & H1 & H).
  apply bind_Ok in H as (t2 & H2 & H).
  apply bind_Ok in H as ([[t3 pk3] s3] & H3 & H).
  apply bind_Ok in H as ([t4 n4] & H4 & H).
  simplify_eq.
  assert (Hsh3 : shape t3 = shape t
                 /\ hasRootWildcard t3
                    = hasRootWildcard t || (starts_star s && bool_decide (a = 0%nat))
                 /\ (starts_star s = true -> s3 = WildcardParamStart)
                 /\ (plain s = true -> s3 = s /\ pk' = pk)).
  { destruct (plain s) eqn:Hplain.
    - updates_keep.
      rewrite (register_segment_plain _ _ _ _ _ Hc0 Hplain) in H3. simplify_eq.
      rewrite (plain_not_star _ Hplain). simpl. rewrite orb_false_r.
      shape_solve.
    - apply register_segment_inv in H3 as (Hs3 & _ & Hw3 & Hk3).
      updates_keep.
      assert (Hroot : root t2 = Some 0%nat)
        by (destruct Hok as (Hr & _); unfold shape in *; congruence).
      unfold starts_star. rewrite Hc0.
      rewrite Hw3, Hroot.
      replace (bool_decide (Some 0%nat = Some a)) with (bool_decide (a = 0%nat))
        by (apply bool_decide_ext; split; congruence).
      repeat split; try (unfold shape, kids in *; simpl in *; congruence). done. }
  destruct Hsh3 as (Hs3 & Hw3 & Hstar & Hplain).
  assert (Hok3 : heap_ok t3) by (by eapply shape_heap_ok).
  assert (Hnd3 : exists nd3, nodes t3 !! a = Some nd3).
  { apply lookup_lt_is_Some_2. rewrite (shape_length _ _ Hs3).
    by eapply lookup_lt_Some. }
  destruct Hnd3 as (nd3 & Hnd3).
  destruct (descend_or_create_spec t3 a nd3
              (if caseInsensitive t3 then ToLower s3 else s3) Hok3 Hnd3)
    as (t5 & c & Hd & Hchild & Hok5 & Hext & Hw5).
  rewrite Hd in H4. injection H4 as <- <-.
  exists c, (canon t3 s3).
  split; [done |]. split; [exact Hchild |].
  assert (Hci : caseInsensitive t3 = caseInsensitive t)
    by (unfold shape in *; congruence).
  split; [| split; [| split; [done | split]]].
  - intros Hs. rewrite (Hstar Hs). apply canon_star.
  - intros Hp. destruct (Hplain Hp) as (-> & ->).
    split; [| done]. unfold canon. by rewrite Hci.
  - eapply extends_trans; [apply shape_extends; exact Hs3 | exact Hext].
  - congruence.
Qed.

Lemma insert_segment_plain_ok t a nd pk i s :
  heap_ok t ->
  nodes t !! a = Some nd ->
  plain s = true ->
  exists r, insert_segment t (Some a) pk i s = Ok r.
Proof.
  intros Hok Hnd Hplain. unfold insert_segment.
  assert (Hc : exists c, byte_at s 0 = Ok c).
  { unfold plain in Hplain. destruct (byte_at s 0); [eauto | done | done]. }
  destruct Hc as (c & Hc). rewrite Hc.
  pose proof (update_ok t a nd (set_pathIndex (i + 1)) Hnd) as H1.
  remember (set_nodes (<[a := set_pathIndex (i + 1) nd]> (nodes t)) t) as t1 eqn:Et1.
  assert (Hnd1 : nodes t1 !! a = Some (set_pathIndex (i + 1) nd)).
  { rewrite Et1. simpl. apply list_lookup_insert_eq. by eapply lookup_lt_Some. }
  pose proof (update_ok t1 a _ (set_paramCount (Z.of_nat (length pk))) Hnd1) as H2.
  remember (set_nodes (<[a := set_paramCount (Z.of_nat (length pk))
                                (set_pathIndex (i + 1) nd)]> (nodes t1)) t1)
    as t2 eqn:Et2.
  assert (Hsh : shape t2 = shape t).
  { pose proof H1 as E1. pose proof H2 as E2.
    apply update_shape in E1 as (E1 & _); [| by intros ?].
    apply update_shape in E2 as (E2 & _); [| by intros ?].
    congruence. }
  assert (Hok2 : heap_ok t2) by (by eapply shape_heap_ok).
  assert (Hnd2 : exists nd2, nodes t2 !! a = Some nd2).
  { apply lookup_lt_is_Some_2. rewrite (shape_length _ _ Hsh).
    by eapply lookup_lt_Some. }
  destruct Hnd2 as (nd2 & Hnd2).
  destruct (descend_or_create_spec t2 a nd2
              (if caseInsensitive t2 then ToLower s else s) Hok2 Hnd2)
    as (t3 & c3 & Hd & _).
  cbn [mbind res_bind]. rewrite H1. cbn [mbind res_bind]. rewrite H2.
  cbn [mbind res_bind].
  rewrite (register_segment_plain _ _ _ _ _ Hc Hplain).
  cbn [mbind res_bind]. rewrite Hd. cbn [mbind res_bind]. eauto.
Qed.

(** The loop over the segments, from the node at [a]. *)
Lemma insert_loop_inv segs :
  forall t a nd pk i t' n' pk',
    heap_ok t ->
    nodes t !! a = Some nd ->
    insert_loop t (Some a) pk i segs = Ok (t', n', pk') ->
    exists m ndm,
      n' = Some m
      /\ nodes t' !! m = Some ndm
      /\ heap_ok t'
      /\ extends t t'
      /\ hasRootWildcard t'
         = hasRootWildcard t || (head_star segs && bool_decide (a = 0%nat))
      /\ (head_star segs = true ->
          is_Some (child_of t' a WildcardParamStart))
      /\ (forallb plain segs = true ->
          walk t' a (canon t <$> segs) = Some m /\ pk' = pk).
Proof.
  induction segs as [|s rest IH]; intros t a nd pk i t' n' pk' Hok Hnd H.
  - simpl in H. simplify_eq. exists a, nd. simpl.
    rewrite orb_false_r.
    split; [done |]. split; [done |]. split; [done |].
    split; [apply extends_refl |]. split; [done |].
    split; [done |]. by intros _.
  - simpl in H.
    apply bind_Ok in H as ([[t1 n1] pk1] & Hseg & H).
    destruct (insert_segment_inv _ _ _ _ _ _ _ _ _ Hok Hnd Hseg)
      as (c & k & -> & Hchild & Hstar & Hplain & Hok1 & Hext1 & Hw1).
    destruct (heap_ok_valid _ _ _ _ Hok1 Hchild) as (ndc & Hndc).
    destruct (IH _ _ _ _ _ _ _ _ Hok1 Hndc H)
      as (m & ndm & -> & Hndm & Hok' & Hext' & Hw' & _ & Hwalk).
    assert (Hc0 : bool_decide (c = 0%nat) = false).
    { apply bool_decide_eq_false.
      destruct Hok1 as (_ & _ & Hk). apply Hk in Hchild. lia. }
    rewrite Hc0, andb_false_r, orb_false_r in Hw'.
    exists m, ndm. simpl.
    split; [done |]. split; [done |]. split; [done |].
    split; [by eapply extends_trans |].
    split; [congruence |].
    destruct Hext' as (_ & _ & _ & _ & _ & Hmono).
    destruct Hext1 as (_ & Hci & _).
    split.
    + intros Hs. exists c. apply Hmono. by rewrite <- (Hstar Hs).
    + intros Hp. apply andb_true_iff in Hp as (Hps & Hprest).
      destruct (Hplain Hps) as (-> & ->).
      rewrite (Hmono _ _ _ Hchild).
      destruct (Hwalk Hprest) as (Hw & ->).
      split; [| done].
      assert (E : canon t <$> rest = canon t1 <$> rest).
      { apply list_fmap_ext. intros ? x _. unfold canon. by rewrite Hci. }
      unfold fmap in E. rewrite E. exact Hw.
Qed.

Lemma insert_loop_plain_ok segs :
  forall t a nd pk i,
    heap_ok t ->
    nodes t !! a = Some nd ->
    forallb plain segs = true ->
    exists r, insert_loop t (Some a) pk i segs = Ok r.
Proof.
  induction segs as [|s rest IH]; intros t a nd pk i Hok Hnd Hp; simpl.
  - eauto.
  - apply andb_true_iff in Hp as (Hps & Hprest).
    destruct (insert_segment_plain_ok t a nd pk i s Hok Hnd Hps)
      as ([[t1 n1] pk1] & Hseg).
    rewrite Hseg. simpl.
    destruct (insert_segment_inv _ _ _ _ _ _ _ _ _ Hok Hnd Hseg)
      as (c & k & -> & Hchild & _ & _ & Hok1 & _).
    destruct (heap_ok_valid _ _ _ _ Hok1 Hchild) as (ndc & Hndc).
    eapply IH; eauto.
Qed.

Lemma insert_finish_spec t m nd pk key tag d h :
  nodes t !! m = Some nd ->
  exists static,
    resolveStaticPart key = Ok static
    /\ insert_finish t (Some m) pk key tag d h
       = Ok (store t m (finished nd pk key static tag d h), Some m).
Proof.
  intros Hnd. destruct (resolveStaticPart_ok key) as (static & Hst).
  exists static. split; [done |].
  unfold insert_finish.
  rewrite (update_first _ _ _ _ Hnd). cbn [mbind res_bind].
  do 4 (rewrite (update_store _ _ _ _ _ Hnd); cbn [mbind res_bind]).
  rewrite Hst. cbn [mbind res_bind].
  do 2 (rewrite (update_store _ _ _ _ _ Hnd); cbn [mbind res_bind]).
  done.
Qed.

(** [insert] as a whole. *)
Lemma insert_inv t pat tag d h t' n' :
  heap_ok t ->
  insert t pat tag d h = Ok (t', n') ->
  exists m ndm segs,
    slowPathSplit pat = Ok segs
    /\ n' = Some m
    /\ nodes t' !! m = Some ndm
    /\ end_ ndm = true
    /\ key ndm = pat
    /\ heap_ok t'
    /\ caseInsensitive t' = caseInsensitive t
    /\ searchUnvisitedParams t' = searchUnvisitedParams t
    /\ hasRootSlash t' = hasRootSlash t || (pat =? pathSep)%string
    /\ hasRootWildcard t' = hasRootWildcard t || head_star segs
    /\ (forall a s c, child_of t a s = Some c -> child_of t' a s = Some c)
    /\ (head_star segs = true -> is_Some (child_of t' 0%nat WildcardParamStart))
    /\ (forallb plain segs = true ->
        walk t' 0%nat (canon t <$> segs) = Some m /\ paramKeys ndm = []).
Proof.
  intros Hok H. unfold insert in H.
  apply bind_Ok in H as (segs & Hsplit & H).
  apply bind_Ok in H as ([[t1 n1] pk1] & Hloop & H).
  set (t0 := if (pat =? pathSep)%string then set_hasRootSlash true t else t) in *.
  assert (Hok0 : heap_ok t0).
  { unfold t0. destruct (pat =? pathSep)%string; [| done].
    by apply heap_ok_set_hasRootSlash. }
  assert (Ht0 : root t0 = Some 0%nat /\ nodes t0 = nodes t
                /\ caseInsensitive t0 = caseInsensitive t
                /\ searchUnvisitedParams t0 = searchUnvisitedParams t
                /\ hasRootWildcard t0 = hasRootWildcard t
                /\ hasRootSlash t0 = hasRootSlash t || (pat =? pathSep)%string
                /\ kids t0 = kids t).
  { destruct Hok as (Hr & _). unfold t0.
    destruct (pat =? pathSep)%string; simpl;
      rewrite ?orb_true_r, ?orb_false_r; done. }
  destruct Ht0 as (Hr0 & Hn0 & Hci0 & Hsu0 & Hw0 & Hs0 & Hk0).
  replace (root t) with (Some 0%nat) in Hloop by (by destruct Hok as (-> & _)).
  destruct (heap_ok_root _ Hok0) as (nd0 & Hnd0).
  destruct (insert_loop_inv _ _ _ _ _ _ _ _ _ Hok0 Hnd0 Hloop)
    as (m & ndm & -> & Hndm & Hok1 & Hext & Hw1 & Hstar & Hwalk).
  destruct (insert_finish_spec t1 m ndm pk1 pat tag d h Hndm)
    as (static & _ & Hfin).
  rewrite Hfin in H. injection H as <- <-.
  destruct (store_shape t1 m ndm (finished ndm pk1 pat static tag d h) Hndm)
    as (Hsh & Hw2); [done |].
  destruct Hext as (_ & Hci1 & Hsu1 & Hs1 & _ & Hmono).
  exists m, (finished ndm pk1 pat static tag d h), segs.
  split; [done |]. split; [done |].
  split; [by eapply store_lookup |].
  split; [done |]. split; [done |].
  split; [by eapply shape_heap_ok |].
  split; [unfold shape in Hsh; congruence |].
  split; [unfold shape in Hsh; congruence |].
  split; [unfold shape in Hsh; congruence |].
  split.
  { rewrite Hw2, Hw1, Hw0. rewrite bool_decide_eq_true_2 by done.
    by rewrite andb_true_r. }
  assert (Hc01 : forall a s c, child_of t a s = Some c ->
                               child_of (store t1 m (finished ndm pk1 pat static tag d h)) a s
                               = Some c).
  { intros a s c Hc. rewrite (shape_child_of _ _ _ _ Hsh). apply Hmono.
    unfold child_of in *. by rewrite Hk0. }
  split; [exact Hc01 |].
  split.
  { intros Hs. rewrite (shape_child_of _ _ _ _ Hsh). by apply Hstar. }
  intros Hp. destruct (Hwalk Hp) as (Hw & ->).
  split; [| done].
  assert (E : canon t <$> segs = canon t0 <$> segs).
  { apply list_fmap_ext. intros ? x _. unfold canon. by rewrite Hci0. }
  rewrite E. clear E.
  revert Hw. generalize (canon t0 <$> segs). generalize 0%nat.
  intros a keys. revert a.
  induction keys as [|k keys IHk]; intros a Hw; simpl in *; [done |].
  rewrite (shape_child_of _ _ _ _ Hsh).
  destruct (child_of t1 a k); [by apply IHk | done].
Qed.

Lemma insert_plain_ok t key tag d h segs :
  heap_ok t ->
  slowPathSplit key = Ok segs ->
  forallb plain segs = true ->
  exists r, insert t key tag d h = Ok r.
Proof.
  intros Hok Hsplit Hp. unfold insert. rewrite Hsplit. cbn [mbind res_bind].
  set (t0 := if (key =? pathSep)%string then set_hasRootSlash true t else t).
  assert (Hok0 : heap_ok t0).
  { unfold t0. destruct (key =? pathSep)%string; [| done].
    by apply heap_ok_set_hasRootSlash. }
  replace (root t) with (Some 0%nat) by (by destruct Hok as (-> & _)).
  destruct (heap_ok_root _ Hok0) as (nd0 & Hnd0).
  destruct (insert_loop_plain_ok segs t0 0%nat nd0 [] 0 Hok0 Hnd0 Hp)
    as ([[t1 n1] pk1] & Hloop).
  rewrite Hloop. cbn [mbind res_bind].
  destruct (insert_loop_inv _ _ _ _ _ _ _ _ _ Hok0 Hnd0 Hloop)
    as (m & ndm & -> & Hndm & _).
  destruct (insert_finish_spec t1 m ndm pk1 key tag d h Hndm)
    as (static & _ & Hfin).
  rewrite Hfin. eauto.
Qed.

Lemma Insert_inv t p t' n' :
  Insert t p [] = Ok (t', n') ->
  p <> "" /\ insert t p "" None None = Ok (t', n').
Proof.
  unfold Insert. destruct (String.eqb_spec p "") as [-> | Hp]; [done |].
  intros H. split; [done |].
  destruct (insert t p "" None None) as [[t1 n1]| |]; simpl in H; by simplify_eq.
Qed.

Lemma Insert_ok t p r :
  p <> "" -> insert t p "" None None = Ok r -> Insert t p [] = Ok r.
Proof.
  intros Hp H. unfold Insert.
  destruct (String.eqb_spec p "") as [-> | _]; [done |].
  rewrite H. by destruct r.
Qed.

Lemma walk_one t a k c : walk t a [k] = Some c -> child_of t a k = Some c.
Proof. simpl. by destruct (child_of t a k). Qed.

Lemma insert_static t pat segs :
  heap_ok t ->
  pat <> "" ->
  slowPathSplit pat = Ok segs ->
  forallb plain segs = true ->
  exists t' m nd,
    Insert t pat [] = Ok (t', Some m)
    /\ nodes t' !! m = Some nd
    /\ end_ nd = true
    /\ key nd = pat
    /\ paramKeys nd = []
    /\ root t' = Some 0%nat
    /\ hasRootSlash t' = hasRootSlash t || (pat =? pathSep)%string
    /\ walk t' 0%nat (canon t' <$> segs) = Some m.
Proof.
  intros Hok Hne Hsplit Hp.
  destruct (insert_plain_ok t pat "" None None segs Hok Hsplit Hp) as ([t' n'] & Hins).
  destruct (insert_inv _ _ _ _ _ _ _ Hok Hins)
    as (m & nd & segs' & Hsplit' & -> & Hnd & Hend & Hkey & Hok' & Hci & _
        & Hs & _ & _ & _ & Hwalk).
  assert (segs' = segs) as -> by congruence.
  destruct (Hwalk Hp) as (Hw & Hpk).
  exists t', m, nd.
  split; [by apply Insert_ok |].
  split; [done |]. split; [done |]. split; [done |]. split; [done |].
  split; [by destruct Hok' |]. split; [done |].
  assert (E : canon t' <$> segs = canon t <$> segs).
  { apply list_fmap_ext. intros ? x _. unfold canon. by rewrite Hci. }
  by rewrite E.
Qed.

(** One [Insert] keeps a trie well formed, and sets the two flags of
    the root as its pattern says. *)
Lemma Insert_trie_ok t p t' n' :
  trie_ok t ->
  Insert t p [] = Ok (t', n') ->
  trie_ok t'
  /\ caseInsensitive t' = caseInsensitive t
  /\ searchUnvisitedParams t' = searchUnvisitedParams t
  /\ hasRootSlash t' = hasRootSlash t || (p =? pathSep)%string
  /\ hasRootWildcard t' = hasRootWildcard t || is_root_wildcard p.
Proof.
  intros (Hok & Hslash & Hwild) H.
  apply Insert_inv in H as (Hp & H).
  destruct (insert_inv _ _ _ _ _ _ _ Hok H)
    as (m & ndm & segs & Hsplit & -> & Hndm & Hend & Hkey & Hok' & Hci & Hsu
        & Hs & Hw & Hmono & Hstar & Hwalk).
  assert (Hrw : is_root_wildcard p = head_star segs)
    by (unfold is_root_wildcard; by rewrite Hsplit).
  rewrite Hrw.
  split; [| done].
  split; [done |]. split.
  - rewrite Hs. intros Hor. apply orb_true_iff in Hor as [Hold | Hnew].
    + destruct (Hslash Hold) as (c & Hc). exists c. by apply Hmono.
    + apply String.eqb_eq in Hnew. clear Hkey. subst p.
      rewrite slowPathSplit_sep in Hsplit. injection Hsplit as <-.
      destruct (Hwalk eq_refl) as (Hw1 & _).
      exists m. apply walk_one. simpl in Hw1. by rewrite canon_sep in Hw1.
  - rewrite Hw. intros Hor. apply orb_true_iff in Hor as [Hold | Hnew].
    + destruct (Hwild Hold) as (c & Hc). exists c. by apply Hmono.
    + by apply Hstar.
Qed.

Lemma insert_all_trie_ok ps :
  forall t t' terms,
    trie_ok t ->
    insert_all t ps = Ok (t', terms) ->
    trie_ok t'
    /\ caseInsensitive t' = caseInsensitive t
    /\ searchUnvisitedParams t' = searchUnvisitedParams t
    /\ hasRootSlash t' = hasRootSlash t || existsb (String.eqb pathSep) ps
    /\ hasRootWildcard t' = hasRootWildcard t || existsb is_root_wildcard ps.
Proof.
  induction ps as [|p ps IH]; intros t t' terms Hok H; simpl in H.
  - simplify_eq. simpl. by rewrite !orb_false_r.
  - apply bind_Ok in H as ([t1 n1] & H1 & H).
    apply bind_Ok in H as ([t2 ns] & H2 & H).
    simplify_eq.
    destruct (Insert_trie_ok _ _ _ _ Hok H1) as (Hok1 & Hci1 & Hsu1 & Hs1 & Hw1).
    destruct (IH _ _ _ Hok1 H2) as (Hok2 & Hci2 & Hsu2 & Hs2 & Hw2).
    split; [done |].
    split; [congruence |]. split; [congruence |].
    cbn [existsb]. rewrite Hs2, Hs1, Hw2, Hw1.
    rewrite !orb_assoc. by rewrite (String.eqb_sym pathSep p).
Qed.

Lemma NewTrieWithOptions_ok opts : trie_ok (NewTrieWithOptions opts).
Proof.
  split; [| by split].
  split; [done |]. split; [simpl; lia |].
  intros a s c. unfold child_of, kids. simpl.
  destruct a as [|a]; simpl; [| done].
  by rewrite lookup_empty.
Qed.

(** Every trie built by insertions from a new one is well formed. *)
Lemma built_trie_ok opts ps t terms :
  insert_all (NewTrieWithOptions opts) ps = Ok (t, terms) ->
  trie_ok t
  /\ hasRootSlash t = existsb (String.eqb pathSep) ps
  /\ hasRootWildcard t = existsb is_root_wildcard ps.
Proof.
  intros H.
  destruct (insert_all_trie_ok _ _ _ _ (NewTrieWithOptions_ok opts) H)
    as (Hok & _ & _ & Hs & Hw).
  done.
Qed.

Lemma insert_finish_same t n pk key1 key2 tag d h :
  same_insertion (insert_finish t n pk key1 tag d h)
                 (insert_finish t n pk key2 tag d h).
Proof.
  destruct n as [m|]; [| done].
  destruct (nodes t !! m) as [nd|] eqn:Hnd.
  - destruct (insert_finish_spec t m nd pk key1 tag d h Hnd) as (s1 & _ & ->).
    destruct (insert_finish_spec t m nd pk key2 tag d h Hnd) as (s2 & _ & ->).
    simpl. split; [done |].
    by rewrite !(update_store _ _ _ _ _ Hnd).
  - unfold insert_finish, update, deref. rewrite Hnd. done.
Qed.

Lemma insert_trailing_sep t p c tag d h :
  byte_at p (len p - 1) = Ok c ->
  c <> pathSepB ->
  same_insertion (insert t p tag d h) (insert t (p +:+ pathSep) tag d h).
Proof.
  intros Hlast Hc.
  assert (Hp : p <> "") by (intros ->; done).
  unfold insert. rewrite (slowPathSplit_trailing _ _ Hlast Hc).
  assert (E1 : (p =? pathSep)%string = false).
  { apply String.eqb_neq. intros ->. apply Hc.
    vm_compute in Hlast. by injection Hlast as <-. }
  assert (E2 : (p +:+ pathSep =? pathSep)%string = false).
  { apply String.eqb_neq. destruct p as [|c0 p]; [done |].
    rewrite app_cons. intros [= _ E]. by destruct p. }
  rewrite E1, E2.
  destruct (slowPathSplit p) as [segs| |]; [| done | done].
  cbn [mbind res_bind].
  destruct (insert_loop t (root t) [] 0 segs) as [[[t1 n1] pk1]| |]; [| done | done].
  cbn [mbind res_bind]. apply insert_finish_same.
Qed.

(** ** Search along static segments *)

(** A search that ends does so whatever fuel is added. *)
Lemma search_loop_fuel fuel :
  forall t q qc end_q st r extra,
    search_loop fuel t q qc end_q st = r ->
    r <> OutOfFuel ->
    search_loop (fuel + extra) t q qc end_q st = r.
Proof.
  induction fuel as [|fuel IH]; intros t q qc end_q st r extra H Hr; simpl in *.
  - congruence.
  - destruct (search_step t q qc end_q st) as [[st' | e]| |]; simpl in *; try done.
    by apply IH.
Qed.

Lemma search_step_scan t q qc st c :
  st_i st <> len q ->
  byte_at q (st_i st) = Ok c ->
  c <> pathSepB ->
  search_step t q qc (len q) st
  = Ok (inl {| st_n := st_n st; st_start := st_start st; st_i := st_i st + 1;
               st_paramValues := st_paramValues st;
               st_visitedNodes := st_visitedNodes st |}).
Proof.
  intros Hi Hc Hne. unfold search_step.
  apply Z.eqb_neq in Hi. rewrite Hi, Hc. simpl.
  by rewrite (eqb_sep_false _ Hne).
Qed.

Lemma search_step_static t q qc st s c :
  (st_i st = len q \/ byte_at q (st_i st) = Ok pathSepB) ->
  slice qc (st_start st) (st_i st) = Ok s ->
  getChild t (st_n st) s = Ok (Some c) ->
  search_step t q qc (len q) st
  = descended t q qc (len q) (Some c) (st_start st) (st_i st)
              (st_paramValues st) (st_visitedNodes st).
Proof.
  intros Hi Hs Hc. unfold search_step.
  assert (Hsep : (if st_i st =? len q then Ok true
                  else byte_at q (st_i st) ≫= λ c0, Ok (Ascii.eqb c0 pathSepB))
                 = Ok true).
  { destruct (Z.eqb_spec (st_i st) (len q)) as [|Hne]; [done |].
    destruct Hi as [|Hi]; [done |]. rewrite Hi. done. }
  rewrite Hsep. simpl. rewrite Hs. simpl. rewrite Hc. done.
Qed.

Lemma search_loop_scan t q qc n start pv vis tail todo :
  forall front k,
    q = front +:+ todo +:+ tail ->
    no_slash todo = true ->
    search_loop (String.length todo + k) t q qc (len q)
      {| st_n := n; st_start := start; st_i := len front;
         st_paramValues := pv; st_visitedNodes := vis |}
    = search_loop k t q qc (len q)
        {| st_n := n; st_start := start; st_i := len (front +:+ todo);
           st_paramValues := pv; st_visitedNodes := vis |}.
Proof.
  induction todo as [|c todo IH]; intros front k Hq Hns.
  - by rewrite app_str_nil_r.
  - simpl in Hns. apply andb_true_iff in Hns as (Hc & Hns).
    apply negb_true_iff, Ascii.eqb_neq in Hc.
    simpl. rewrite (search_step_scan _ _ _ _ c); simpl; try done.
    + replace (len front + 1) with (len (front +:+ String c ""))
        by (rewrite len_app, len_String; done).
      rewrite (IH (front +:+ String c "") k).
      * by rewrite app_str_assoc.
      * rewrite Hq. by rewrite app_str_assoc.
      * done.
      (* the state reached is the one of the induction hypothesis *)
    + rewrite Hq, !len_app, len_String.
      pose proof (len_nonneg todo). pose proof (len_nonneg tail). lia.
    + rewrite Hq. rewrite app_cons. apply byte_at_app.
Qed.

Lemma within_ascii_app t a b :
  within_ascii t (a +:+ b) = within_ascii t a && within_ascii t b.
Proof.
  unfold within_ascii. rewrite isASCII_app.
  by destruct (caseInsensitive t), (isASCII a), (isASCII b).
Qed.

Lemma canon_app t a b :
  within_ascii t (a +:+ b) = true -> canon t (a +:+ b) = canon t a +:+ canon t b.
Proof.
  unfold within_ascii, canon. destruct (caseInsensitive t); [apply ToLower_app | done].
Qed.

Lemma len_canon t a : within_ascii t a = true -> len (canon t a) = len a.
Proof.
  unfold within_ascii, canon. destruct (caseInsensitive t); [apply len_ToLower | done].
Qed.

Lemma within_ascii_ci t t' a :
  caseInsensitive t' = caseInsensitive t -> within_ascii t' a = within_ascii t a.
Proof. unfold within_ascii. by intros ->. Qed.

Lemma descended_at_end t q qc n nd start pv vis :
  nodes t !! n = Some nd ->
  end_ nd = true ->
  descended t q qc (len q) (Some n) start (len q) pv vis
  = Ok (inr (Broke (Some n) pv)).
Proof.
  intros Hn Hend. unfold descended.
  rewrite Z.eqb_refl.
  destruct (searchUnvisitedParams t); [| done].
  rewrite (deref_Some _ _ _ Hn). simpl. by rewrite Hend.
Qed.

Lemma descended_before_end t q qc n start i pv vis :
  i <> len q ->
  descended t q qc (len q) n start i pv vis
  = Ok (inl {| st_n := n; st_start := i + 1; st_i := i + 1;
               st_paramValues := pv; st_visitedNodes := vis |}).
Proof.
  intros Hi. unfold descended. apply Z.eqb_neq in Hi. by rewrite Hi.
Qed.

(** From a node [n] at the start of the segments [s :: rest] of the
    request, along children filed under these segments, the loop
    reaches the last child and breaks there, capturing nothing.  The
    lowered copy of the request is sliced by the indices of the request:
    the request is ASCII when the trie lowers it. *)
Lemma search_loop_static t q pv vis m nd :
  within_ascii t q = true ->
  nodes t !! m = Some nd ->
  end_ nd = true ->
  forall rest s pre n k,
    q = pre +:+ s +:+ path_of rest ->
    no_slash s = true ->
    forallb no_slash rest = true ->
    walk t n (canon t <$> (s :: rest)) = Some m ->
    search_loop (S (String.length s + String.length (path_of rest)) + k)
      t q (canon t q) (len q)
      {| st_n := Some n; st_start := len pre; st_i := len pre;
         st_paramValues := pv; st_visitedNodes := vis |}
    = Ok (Broke (Some m) pv).
Proof.
  intros Hascii Hm Hend.
  induction rest as [|r rest IH]; intros s pre n k Hq Hs Hrest Hwalk.
  - simpl in Hq. rewrite app_str_nil_r in Hq.
    simpl in Hwalk. destruct (child_of t n (canon t s)) as [c|] eqn:Hc; [| done].
    simplify_eq.
    destruct (child_of_Some _ _ _ _ Hc) as (ndn & Hn & _).
    replace (S (String.length s + String.length (path_of [])) + k)%nat
      with (String.length s + S k)%nat by (simpl; lia).
    rewrite (search_loop_scan _ _ _ _ _ _ _ "" s pre (S k));
      [| by rewrite app_str_nil_r | done].
    simpl.
    rewrite (search_step_static _ _ _ _ (canon t s) m); simpl.
    + rewrite (descended_at_end _ _ _ _ nd); done.
    + by left.
    + pose proof Hascii as Hparts.
      rewrite within_ascii_app in Hparts. apply andb_true_iff in Hparts as (Hpre & Hsa).
      rewrite canon_app, len_app, <- (len_canon t pre), <- (len_canon t s) by done.
      pose proof (slice_middle (canon t pre) (canon t s) "") as H.
      by rewrite app_str_nil_r in H.
    + by rewrite (getChild_child_of _ _ ndn), Hc.
  - simpl in Hrest. apply andb_true_iff in Hrest as (Hr & Hrest).
    simpl in Hwalk. destruct (child_of t n (canon t s)) as [c|] eqn:Hc; [| done].
    destruct (child_of_Some _ _ _ _ Hc) as (ndn & Hn & _).
    assert (Hpath : path_of (r :: rest) = String pathSepB (r +:+ path_of rest)) by done.
    replace (S (String.length s + String.length (path_of (r :: rest))) + k)%nat
      with (String.length s
            + S (S (String.length r + String.length (path_of rest)) + k))%nat
      by (rewrite Hpath; simpl; rewrite length_app_str; lia).
    rewrite (search_loop_scan _ _ _ _ _ _ _ (path_of (r :: rest)) s pre); [| done | done].
    simpl.
    assert (Hlt : len (pre +:+ s) <> len q).
    { rewrite Hq, Hpath, !len_app, len_String.
      pose proof (len_nonneg (r +:+ path_of rest)). lia. }
    rewrite (search_step_static _ _ _ _ (canon t s) c); simpl.
    + rewrite descended_before_end by done.
      replace (len (pre +:+ s) + 1) with (len (pre +:+ s +:+ pathSep))
        by (rewrite !len_app; change (len pathSep) with 1; lia).
      apply IH; try done.
      rewrite Hq, Hpath. rewrite !app_str_assoc. reflexivity.
    + right. rewrite Hq, Hpath. rewrite <- app_str_assoc. apply byte_at_app.
    + assert (Hparts : within_ascii t pre = true /\ within_ascii t s = true
                       /\ within_ascii t (path_of (r :: rest)) = true).
      { pose proof Hascii as H.
        rewrite Hq, !within_ascii_app, !andb_true_iff in H. tauto. }
      destruct Hparts as (Hpre & Hsa & Htail).
      rewrite Hq, !canon_app, len_app, <- (len_canon t pre), <- (len_canon t s);
        rewrite ?within_ascii_app, ?Hpre, ?Hsa, ?Htail; try done.
      apply slice_middle.
    + by rewrite (getChild_child_of _ _ ndn), Hc.
Qed.

Lemma search_static t segs m nd :
  within_ascii t (path_of segs) = true ->
  root t = Some 0%nat ->
  segs <> [] ->
  forallb static_segment segs = true ->
  walk t 0%nat (canon t <$> segs) = Some m ->
  nodes t !! m = Some nd ->
  end_ nd = true ->
  Search t (path_of segs) = Ok (Some m, []).
Proof.
  intros Hascii Hroot Hne Hst Hwalk Hm Hend.
  destruct segs as [|s rest]; [done |].
  destruct (forallb_static_inv _ Hst) as (Hp & Hns).
  simpl in Hp, Hns.
  apply andb_true_iff in Hp as (Hps & _).
  apply andb_true_iff in Hns as (Hnss & Hnsrest).
  destruct (plain_nonempty _ Hps) as (c0 & s0 & Es).
  set (q := path_of (s :: rest)) in *.
  assert (Hq : q = pathSep +:+ s +:+ path_of rest) by done.
  assert (Hlen : len q = 1 + len s + len (path_of rest)).
  { rewrite Hq, !len_app. change (len pathSep) with 1. lia. }
  assert (Hlens : 1 <= len s) by (rewrite Es, len_String; pose proof (len_nonneg s0); lia).
  pose proof (len_nonneg (path_of rest)) as Hlenr.
  unfold Search.
  replace (len q =? 0) with false by (symmetry; apply Z.eqb_neq; lia).
  replace (len q =? 1) with false by (symmetry; apply Z.eqb_neq; lia).
  cbn [mbind res_bind].
  fold (canon t q). rewrite Hroot.
  assert (Hfuel : exists k, search_fuel t q
                            = (S (String.length s + String.length (path_of rest)) + k)%nat).
  { exists (search_fuel t q - S (String.length s + String.length (path_of rest)))%nat.
    assert (String.length q = S (String.length s + String.length (path_of rest))).
    { rewrite Hq. unfold pathSep. rewrite app_cons, app_nil_l. simpl.
      by rewrite length_app_str. }
    unfold search_fuel. nia. }
  destruct Hfuel as (k & ->).
  change 1 with (len pathSep).
  rewrite (search_loop_static t q nil_slice ∅ m nd Hascii Hm Hend rest s pathSep 0%nat k
             Hq Hnss Hnsrest Hwalk).
  cbn [mbind res_bind]. unfold search_finish.
  rewrite (deref_Some _ _ _ Hm). cbn [mbind res_bind]. rewrite Hend.
  cbn [mbind res_bind]. done.
Qed.

(** ** The calls a search makes *)

Lemma emit_zip keys values i :
  emit keys i values = zip (drop i keys) values.
Proof.
  revert i. induction values as [|v values IH]; intros i; simpl.
  - by destruct (drop i keys).
  - destruct (keys !! i) as [k|] eqn:Hk.
    + rewrite (drop_S _ _ _ Hk). simpl. by rewrite IH.
    + rewrite IH. apply lookup_ge_None in Hk.
      rewrite !drop_ge by lia. done.
Qed.

Lemma fst_zip_take (keys values : list string) :
  (zip keys values).*1 = take (length (zip keys values)) keys.
Proof.
  revert values. induction keys as [|k keys IH]; intros [|v values]; simpl; try done.
  by rewrite IH.
Qed.

Lemma bind_wildcard_calls t q n from r calls nd :
  bind_wildcard t q n from = Ok (r, calls) ->
  deref t r = Ok nd ->
  r = n /\ exists k v, paramKeys nd !! 0%nat = Some k /\ calls = [(k, v)].
Proof.
  unfold bind_wildcard, index_at. intros H Hd. res_inv.
  split; [done |]. replace nd with x by congruence. eauto.
Qed.

Lemma descended_not_returned t q qc end_q n start i pv vis r calls :
  descended t q qc end_q n start i pv vis <> Ok (inr (Returned r calls)).
Proof.
  unfold descended. intros H. res_inv.
Qed.

Lemma search_step_returned t q qc end_q st r calls nd :
  search_step t q qc end_q st = Ok (inr (Returned r calls)) ->
  deref t r = Ok nd ->
  calls = [] \/ exists k v, paramKeys nd !! 0%nat = Some k /\ calls = [(k, v)].
Proof.
  unfold search_step. intros H Hd.
  repeat first
    [ progress simplify_eq/=
    | match goal with
      | H : descended _ _ _ _ _ _ _ _ _ = Ok (inr (Returned _ _)) |- _ =>
          by apply descended_not_returned in H
      | H : bind_wildcard _ _ _ _ = Ok _ |- _ =>
          eapply bind_wildcard_calls in H; [| eassumption ];
          destruct H as (_ & H)
      | H : _ ≫= _ = Ok _ |- _ =>
          apply bind_Ok in H as (? & ? & H)
      | H : context [match ?x with _ => _ end] |- _ =>
          lazymatch type of H with
          | _ = Ok _ => destruct x eqn:?
          end
      end ]; eauto.
Qed.

Lemma search_loop_returned fuel t q qc end_q st r calls nd :
  search_loop fuel t q qc end_q st = Ok (Returned r calls) ->
  deref t r = Ok nd ->
  calls = [] \/ exists k v, paramKeys nd !! 0%nat = Some k /\ calls = [(k, v)].
Proof.
  revert st. induction fuel as [|fuel IH]; intros st H Hd; simpl in H; [done |].
  apply bind_Ok in H as ([st' | e] & Hstep & H).
  - eauto.
  - simplify_eq. eapply search_step_returned; eauto.
Qed.

Lemma search_finish_calls t q n pv r calls nd :
  search_finish t q n pv = Ok (r, calls) ->
  deref t r = Ok nd ->
  (r = n /\ end_ nd = true /\ calls = zip (paramKeys nd) (cells pv))
  \/ calls = []
  \/ exists k v, paramKeys nd !! 0%nat = Some k /\ calls = [(k, v)].
Proof.
  unfold search_finish. intros H Hd.
  apply bind_Ok in H as (is_end & Hend & H).
  destruct is_end.
  - apply bind_Ok in H as (nd' & Hd' & H). simplify_eq.
    left. split; [done |]. split.
    + destruct r; [| simpl in Hend; congruence].
      rewrite Hd in Hend. simpl in Hend. congruence.
    + replace nd' with nd by congruence. by rewrite emit_zip.
  - right.
    apply bind_Ok in H as (w & Hw & H).
    destruct w.
    + apply bind_Ok in H as (wn & Hwn & H).
      eapply bind_wildcard_calls in H; [| eassumption].
      destruct H as (_ & H). by right.
    + destruct (hasRootWildcard t).
      * apply bind_Ok in H as (c & Hc & H).
        eapply bind_wildcard_calls in H; [| eassumption].
        destruct H as (_ & H). by right.
      * simplify_eq; try by left.
Qed.

(** * The claims *)

(** ** C1: backtracking to an unvisited parameter *)

(** C1. With searchUnvisitedParams enabled, after /a/b/c/z and /a/:p1/c/d
    were inserted, the search of /a/b/c/d returns the terminal node of
    /a/:p1/c/d and makes the one call Set("p1", "b"); with it disabled
    the same search returns nil and makes no call. *)
Theorem C1_unvisited_param_backtracking (ci : bool) :
  (exists t z d,
      insert_all (NewTrieWithOptions (options ci true))
                 ["/a/b/c/z"; "/a/:p1/c/d"] = Ok (t, [z; d])
      /\ terminal_of t d "/a/:p1/c/d"
      /\ Search t "/a/b/c/d" = Ok (d, [("p1", "b")]))
  /\
  (exists t z d,
      insert_all (NewTrieWithOptions (options ci false))
                 ["/a/b/c/z"; "/a/:p1/c/d"] = Ok (t, [z; d])
      /\ terminal_of t d "/a/:p1/c/d"
      /\ Search t "/a/b/c/d" = Ok (None, [])).
Proof. destruct ci; scenario. Qed.

(** ** C2: the tables of prefix and suffix lengths *)

(** C2, on the code. [addLength] appends through the pointer and drops
    the table it sorted: the table it builds in [paramDesc] is strictly
    descending, the table of the node is the old one with the new length
    at its end.  After two prefix patterns of ascending literal lengths
    on one parent the table is ascending, after the same pattern twice
    it holds a duplicate, and likewise for suffixes.  The shorter
    literal is then probed first. *)
Theorem C2_length_tables_as_stored :
  (forall stored l, addLength stored l = (stored ++ [l])%list)
  /\
  (forall stored, strictly_descending (paramDesc_of stored) = true)
  /\
  (exists t terms files nd,
      insert_all NewTrie ["/files/a+:n"; "/files/ab+:n"] = Ok (t, terms)
      /\ getChild t (root t) "files" = Ok files
      /\ deref t files = Ok nd
      /\ childPrefixLengths nd = [1; 2]
      /\ strictly_descending (childPrefixLengths nd) = false
      /\ paramDesc_of (childPrefixLengths nd) = [2; 1])
  /\
  (exists t terms files nd,
      insert_all NewTrie ["/files/ab+:n"; "/files/ab+:n"] = Ok (t, terms)
      /\ getChild t (root t) "files" = Ok files
      /\ deref t files = Ok nd
      /\ childPrefixLengths nd = [2; 2]
      /\ strictly_descending (childPrefixLengths nd) = false)
  /\
  (exists t terms img nd,
      insert_all NewTrie ["/img/n-:.c"; "/img/n-:.cc"; "/img/n-:.c"] = Ok (t, terms)
      /\ getChild t (root t) "img" = Ok img
      /\ deref t img = Ok nd
      /\ childSuffixLengths nd = [2; 3; 2]
      /\ strictly_descending (childSuffixLengths nd) = false)
  /\
  (exists t a ab,
      insert_all NewTrie ["/files/a+:n"; "/files/ab+:n"] = Ok (t, [a; ab])
      /\ a <> ab
      /\ Search t "/files/abc" = Ok (a, [("n", "abc")])).
Proof.
  split; [reflexivity |].
  split; [apply paramDesc_of_descending |].
  scenario.
Qed.

(** ** C3: the wildcard of the closest ancestor *)

(** C3, on the code. After /hello/*p and /hello/:p1/static/:p2 were
    inserted, in either case mode and with either setting of
    searchUnvisitedParams: /hello/x/static/y reaches the terminal of the
    second pattern with p1 = x and p2 = y, and /hello/x/other falls back
    to the wildcard of the closest ancestor, the terminal of /hello/*p,
    with p bound to what follows its staticKey /hello/ in the request.
    The search of /hello/x returns the terminal of /hello/*p as well; it
    binds p to x when searchUnvisitedParams is off, but to hello when it
    is on: the request ends at the node of :p1, which ends no pattern,
    and the retry there takes the indices [findClosestUnvisitedNode]
    hands back, those of the segment before the last. *)
Theorem C3_closest_wildcard_fallback (ci su : bool) :
  exists t w s wn,
    insert_all (NewTrieWithOptions (options ci su))
               ["/hello/*p"; "/hello/:p1/static/:p2"] = Ok (t, [w; s])
    /\ terminal_of t w "/hello/*p"
    /\ terminal_of t s "/hello/:p1/static/:p2"
    /\ Search t "/hello/x/static/y" = Ok (s, [("p1", "x"); ("p2", "y")])
    /\ Search t "/hello/x" = Ok (w, [("p", if su then "hello" else "x")])
    /\ Search t "/hello/x/other" = Ok (w, [("p", "x/other")])
    /\ deref t w = Ok wn
    /\ staticKey wn = "/hello/"
    /\ slice_from "/hello/x" (len (staticKey wn)) = Ok "x"
    /\ slice_from "/hello/x/other" (len (staticKey wn)) = Ok "x/other".
Proof. destruct ci, su; scenario. Qed.

(** ** C4: the calls of Set and the parameter keys *)

(** C4, on the code. With searchUnvisitedParams on, after /:x/b/c and
    /:x/:y were inserted, the search of /1/b returns the terminal of
    /:x/:y, whose paramKeys are x and y, after the one call Set(x, 1):
    the retry at the end of the request cuts the buffer of values and
    the value of y is never captured.  After /a/b/c and /a/:y the search
    of /a/b returns the terminal of /a/:y with y bound to a, the segment
    before the one the parameter stands for.  With the option off both
    searches return nil.  And on the fast path the request / returns the
    terminal of a root wildcard, which has one parameter key, without
    any call. *)
Theorem C4_fewer_calls_than_keys (ci : bool) :
  (exists t b y nd,
      insert_all (NewTrieWithOptions (options ci true))
                 ["/:x/b/c"; "/:x/:y"] = Ok (t, [b; y])
      /\ terminal_of t y "/:x/:y"
      /\ Search t "/1/b" = Ok (y, [("x", "1")])
      /\ deref t y = Ok nd
      /\ paramKeys nd = ["x"; "y"]
      /\ length [("x", "1")] <> length (paramKeys nd))
  /\
  (exists t b y nd,
      insert_all (NewTrieWithOptions (options ci true))
                 ["/a/b/c"; "/a/:y"] = Ok (t, [b; y])
      /\ terminal_of t y "/a/:y"
      /\ Search t "/a/b" = Ok (y, [("y", "a")])
      /\ deref t y = Ok nd
      /\ paramKeys nd = ["y"])
  /\
  (exists t1 t2 terms1 terms2,
      insert_all (NewTrieWithOptions (options ci false))
                 ["/:x/b/c"; "/:x/:y"] = Ok (t1, terms1)
      /\ Search t1 "/1/b" = Ok (None, [])
      /\ insert_all (NewTrieWithOptions (options ci false))
                    ["/a/b/c"; "/a/:y"] = Ok (t2, terms2)
      /\ Search t2 "/a/b" = Ok (None, []))
  /\
  (exists t w nd,
      insert_all (NewTrieWithOptions (options ci false)) ["/*all"] = Ok (t, [w])
      /\ terminal_of t w "/*all"
      /\ Search t "/" = Ok (w, [])
      /\ deref t w = Ok nd
      /\ paramKeys nd = ["all"]).
Proof. destruct ci; scenario. Qed.

(** ** C5: panics of Search *)

(** C5, on the code. The wildcard fallback reads [n.paramKeys[0]] and
    [q[len(n.staticKey):]] unguarded.  A suffix pattern puts the name
    before the [:] that ends staticKey, so staticKey can be longer than
    the request; a wildcard that is not the last segment leaves a
    wildcard child without parameter keys.  Both searches panic. *)
Theorem C5_search_panics :
  (exists t terms,
      insert_all NewTrie ["/longname-:.png/*p"; "/longname-:.png/x/y"] = Ok (t, terms)
      /\ Search t "/a.png/x" = Panic SliceBounds)
  /\
  (exists t terms,
      insert_all NewTrie ["/a/*p/b"] = Ok (t, terms)
      /\ Search t "/a/x" = Panic IndexOutOfRange).
Proof. scenario. Qed.

(** ** C6: prefix and suffix parameters before the named one *)

(** C6, as stated, fails on its suffix half: /img/-:name.png registers a
    suffix child whose literal is name.png and whose parameter has the
    empty name, so /img/logo.png is served by the named child. *)
Lemma C6_suffix_syntax_counterexample :
  exists t s n,
    insert_all NewTrie ["/img/-:name.png"; "/img/:name"] = Ok (t, [s; n])
    /\ terminal_of t s "/img/-:name.png"
    /\ terminal_of t n "/img/:name"
    /\ s <> n
    /\ Search t "/img/logo.png" = Ok (n, [("name", "logo.png")])
    /\ Search t "/img/logo.png" <> Ok (s, [("name", "logo.png")]).
Proof. scenario. Qed.

(** C6, amended. After /files/file+:name and /files/:name: /files/fileA
    reaches the prefix terminal with name = fileA, /files/other the named
    terminal with name = other.  After /img/name-:.png (the suffix syntax
    of the source: the name, [-:], the literal) and /img/:name:
    /img/logo.png reaches the suffix terminal with name = logo.png,
    /img/logo.jpg the named terminal with name = logo.jpg.  In each case
    the value is the whole segment.  This holds for all options. *)
Theorem C6_prefix_suffix_priority (ci su : bool) :
  (exists t p n,
      insert_all (NewTrieWithOptions (options ci su))
                 ["/files/file+:name"; "/files/:name"] = Ok (t, [p; n])
      /\ terminal_of t p "/files/file+:name"
      /\ terminal_of t n "/files/:name"
      /\ Search t "/files/fileA" = Ok (p, [("name", "fileA")])
      /\ Search t "/files/other" = Ok (n, [("name", "other")]))
  /\
  (exists t s n,
      insert_all (NewTrieWithOptions (options ci su))
                 ["/img/name-:.png"; "/img/:name"] = Ok (t, [s; n])
      /\ terminal_of t s "/img/name-:.png"
      /\ terminal_of t n "/img/:name"
      /\ Search t "/img/logo.png" = Ok (s, [("name", "logo.png")])
      /\ Search t "/img/logo.jpg" = Ok (n, [("name", "logo.jpg")])).
Proof. destruct ci, su; scenario. Qed.

(** ** C7: the empty request and the request / *)

Lemma existsb_sep_elem ps :
  existsb (String.eqb pathSep) ps = true <-> pathSep ∈ ps.
Proof.
  rewrite existsb_exists. split.
  - intros (x & Hx & E). apply String.eqb_eq in E. subst x.
    by apply list_elem_of_In.
  - intros H. exists pathSep. split; [by apply list_elem_of_In |].
    apply String.eqb_refl.
Qed.

(** C7. For the empty request and for the request /, on every trie
    built by insertions: when the pattern / was inserted Search returns
    the child of the root under /; otherwise, when a wildcard was
    inserted directly under the root, it returns the child of the root
    under the wildcard mark; otherwise it returns nil.  In no case is
    Set called. *)
Theorem C7_empty_and_root_requests (opts : TrieOptions) (ps : list string)
    (t : Trie) (terms : list ptr) (q : string) :
  insert_all (NewTrieWithOptions opts) ps = Ok (t, terms) ->
  q = "" \/ q = "/" ->
  if bool_decide (pathSep ∈ ps) then
    exists c, getChild t (root t) pathSep = Ok (Some c)
              /\ Search t q = Ok (Some c, [])
  else if existsb is_root_wildcard ps then
    exists w, getChild t (root t) WildcardParamStart = Ok (Some w)
              /\ Search t q = Ok (Some w, [])
  else Search t q = Ok (None, []).
Proof.
  intros Hbuilt Hq.
  destruct (built_trie_ok _ _ _ _ Hbuilt) as ((Hok & Hslash & Hwild) & Hs & Hw).
  destruct (heap_ok_root _ Hok) as (nd0 & Hnd0).
  assert (Hroot : root t = Some 0%nat) by (by destruct Hok).
  assert (Hfast : Search t q
                  = if hasRootSlash t then
                      getChild t (root t) pathSep ≫= λ n, Ok (n, [])
                    else if hasRootWildcard t then
                      getChild t (root t) WildcardParamStart ≫= λ n, Ok (n, [])
                    else Ok (None, [])).
  { by destruct Hq as [-> | ->]. }
  rewrite Hfast, Hroot, !(getChild_child_of _ _ _ _ Hnd0).
  destruct (bool_decide (pathSep ∈ ps)) eqn:Hin.
  - apply bool_decide_eq_true, existsb_sep_elem in Hin.
    rewrite Hs, Hin. rewrite Hs in Hslash.
    destruct (Hslash Hin) as (c & Hc). exists c. by rewrite Hc.
  - apply bool_decide_eq_false in Hin.
    assert (Hn : existsb (String.eqb pathSep) ps = false).
    { apply not_true_is_false. by rewrite existsb_sep_elem. }
    rewrite Hs, Hn, Hw. rewrite Hw in Hwild.
    destruct (existsb is_root_wildcard ps) eqn:Hrw; [| done].
    destruct (Hwild eq_refl) as (w & Hc). exists w. by rewrite Hc.
Qed.

(** C7 on the trie of /*all alone and the request /. *)
Lemma C7_empty_and_root_requests_witness :
  exists t w,
    insert_all (NewTrieWithOptions (options false false)) ["/*all"] = Ok (t, [w])
    /\ exists w', getChild t (root t) WildcardParamStart = Ok (Some w')
                  /\ Search t "/" = Ok (Some w', []).
Proof.
  assert (Hb : insert_all (NewTrieWithOptions (options false false)) ["/*all"]
               = Ok (built (options false false) ["/*all"], [Some 1%nat]))
    by (vm_compute; reflexivity).
  exists (built (options false false) ["/*all"]), (Some 1%nat).
  split; [exact Hb |].
  exact (C7_empty_and_root_requests (options false false) ["/*all"] _ _ "/"
           Hb (or_intror eq_refl)).
Defined.

(** ** C8: the round trip of static patterns *)

(** C8, as stated, fails for a static pattern that ends with a
    separator: it is inserted without it, and its own search, which
    keeps the separator, finds nothing. *)
Lemma C8_trailing_separator_counterexample :
  exists t n,
    insert_all NewTrie ["/a/"] = Ok (t, [n])
    /\ terminal_of t n "/a/"
    /\ slowPathSplit "/a/" = Ok ["a"]
    /\ static_segment "a" = true
    /\ Search t "/a/" = Ok (None, [])
    /\ Search t "/a/" <> Ok (n, []).
Proof. scenario. Qed.

(** C8, amended. For every pattern made of static segments, each after
    one separator and none after the last (and for the pattern /),
    inserted into any trie built by insertions: the search of the
    pattern returns the terminal node of its insertion and calls Set not
    once.  On a case-insensitive trie this is for a pattern of ASCII
    text: Search slices the lowered copy of the request by the indices
    of the request itself. *)
Theorem C8_static_round_trip (opts : TrieOptions) (ps : list string)
    (t : Trie) (terms : list ptr) (segs : list string) (p : string) :
  insert_all (NewTrieWithOptions opts) ps = Ok (t, terms) ->
  (p = pathSep \/
   (segs <> [] /\ forallb static_segment segs = true /\ p = path_of segs)) ->
  within_ascii t p = true ->
  exists t' n,
    Insert t p [] = Ok (t', Some n)
    /\ terminal_of t' (Some n) p
    /\ Search t' p = Ok (Some n, []).
Proof.
  intros Hbuilt Hp Hascii.
  destruct (built_trie_ok _ _ _ _ Hbuilt) as (Htrie & _).
  pose proof Htrie as (Hok & _).
  destruct Hp as [-> | (Hne & Hst & ->)].
  - destruct (insert_static t pathSep [pathSep] Hok) as
      (t' & m & nd & Hins & Hnd & Hend & Hkey & _ & Hroot & Hs & Hwalk);
      [done | done | done |].
    exists t', m. split; [done |].
    split; [exists nd; by rewrite (deref_Some _ _ _ Hnd) |].
    apply walk_one in Hwalk. rewrite canon_sep in Hwalk.
    assert (Hfast : Search t' pathSep
                    = if hasRootSlash t' then
                        getChild t' (root t') pathSep ≫= λ n, Ok (n, [])
                      else if hasRootWildcard t' then
                        getChild t' (root t') WildcardParamStart ≫= λ n, Ok (n, [])
                      else Ok (None, [])) by done.
    rewrite Hfast, Hs, orb_true_r, Hroot.
    destruct (child_of_Some _ _ _ _ Hwalk) as (nd0 & Hnd0 & _).
    by rewrite (getChild_child_of _ _ _ _ Hnd0), Hwalk.
  - destruct (forallb_static_inv _ Hst) as (Hplain & _).
    destruct (insert_static t (path_of segs) segs Hok) as
      (t' & m & nd & Hins & Hnd & Hend & Hkey & _ & Hroot & _ & Hwalk);
      [by apply path_of_nonempty | by apply slowPathSplit_path_of | done |].
    destruct (Insert_trie_ok _ _ _ _ Htrie Hins) as (_ & Hci & _).
    exists t', m. split; [done |].
    split; [exists nd; by rewrite (deref_Some _ _ _ Hnd) |].
    eapply search_static; try done.
    by rewrite (within_ascii_ci t).
Qed.

(** C8 on the pattern /a/b inserted after /a/:x, in a case-insensitive
    trie. *)
Lemma C8_static_round_trip_witness :
  exists t' n,
    Insert (built (options true false) ["/a/:x"]) "/a/b" [] = Ok (t', Some n)
    /\ terminal_of t' (Some n) "/a/b"
    /\ Search t' "/a/b" = Ok (Some n, []).
Proof.
  assert (Hb : insert_all (NewTrieWithOptions (options true false)) ["/a/:x"]
               = Ok (built (options true false) ["/a/:x"], [Some 2%nat]))
    by (vm_compute; reflexivity).
  assert (Hs : ["a"; "b"] <> [] /\ forallb static_segment ["a"; "b"] = true
               /\ "/a/b" = path_of ["a"; "b"])
    by (split; [discriminate | split; reflexivity]).
  assert (Ha : within_ascii (built (options true false) ["/a/:x"]) "/a/b" = true)
    by reflexivity.
  exact (C8_static_round_trip (options true false) ["/a/:x"] _ _ ["a"; "b"] "/a/b"
           Hb (or_intror Hs) Ha).
Defined.

(** ** C9: a separator at the end of a pattern *)

(** C9. A pattern with one separator at its end has the segments of
    the pattern without it; the two insertions walk the same nodes and
    end at the same node, and leave the same trie but for the spelling
    recorded at that node (key and staticKey).  For a pattern of static
    segments, inserted into a trie built by insertions, the search of
    the pattern without the separator then finds that node in both
    cases; so it is for /a/ and /a, whatever the options.  On a
    case-insensitive trie the searches are those of an ASCII pattern,
    as in C8. *)
Theorem C9_trailing_separator (opts : TrieOptions) (ps : list string)
    (t : Trie) (terms : list ptr) (p : string) (c : ascii) :
  insert_all (NewTrieWithOptions opts) ps = Ok (t, terms) ->
  byte_at p (len p - 1) = Ok c ->
  c <> pathSepB ->
  slowPathSplit (p +:+ pathSep) = slowPathSplit p
  /\ same_insertion (insert t p "" None None)
                    (insert t (p +:+ pathSep) "" None None)
  /\ (forall segs,
        segs <> [] -> forallb static_segment segs = true -> p = path_of segs ->
        exists t1 t2 n,
          Insert t p [] = Ok (t1, Some n)
          /\ Insert t (p +:+ pathSep) [] = Ok (t2, Some n)
          /\ terminal_of t1 (Some n) p
          /\ terminal_of t2 (Some n) (p +:+ pathSep)
          /\ (within_ascii t p = true ->
              Search t1 p = Ok (Some n, [])
              /\ Search t2 p = Ok (Some n, []))).
Proof.
  intros Hbuilt Hlast Hc.
  destruct (built_trie_ok _ _ _ _ Hbuilt) as (Htrie & _).
  pose proof Htrie as (Hok & _).
  pose proof (slowPathSplit_trailing _ _ Hlast Hc) as Hsplit.
  pose proof (insert_trailing_sep t p c "" None None Hlast Hc) as Hsame.
  split; [done |]. split; [done |].
  intros segs Hne Hst Hpath.
  destruct (forallb_static_inv _ Hst) as (Hplain & _).
  assert (Hsp : slowPathSplit p = Ok segs)
    by (rewrite Hpath; by apply slowPathSplit_path_of).
  assert (Hp : p <> "") by (rewrite Hpath; by apply path_of_nonempty).
  assert (Hp' : p +:+ pathSep <> "") by (by destruct p).
  destruct (insert_static t p segs Hok Hp Hsp Hplain) as
    (t1 & m1 & nd1 & Hins1 & Hnd1 & Hend1 & Hkey1 & _ & Hroot1 & _ & Hwalk1).
  destruct (insert_static t (p +:+ pathSep) segs Hok Hp') as
    (t2 & m2 & nd2 & Hins2 & Hnd2 & Hend2 & Hkey2 & _ & Hroot2 & _ & Hwalk2);
    [congruence | done |].
  destruct (Insert_trie_ok _ _ _ _ Htrie Hins1) as (_ & Hci1 & _).
  destruct (Insert_trie_ok _ _ _ _ Htrie Hins2) as (_ & Hci2 & _).
  apply Insert_inv in Hins1 as H1. destruct H1 as (_ & H1).
  apply Insert_inv in Hins2 as H2. destruct H2 as (_ & H2).
  rewrite H1, H2 in Hsame. destruct Hsame as (Hm & _).
  injection Hm as <-.
  exists t1, t2, m1.
  split; [done |]. split; [done |].
  split; [exists nd1; by rewrite (deref_Some _ _ _ Hnd1) |].
  split; [exists nd2; by rewrite (deref_Some _ _ _ Hnd2) |].
  intros Hascii. rewrite Hpath in Hascii |- *.
  split; eapply search_static; try done.
  - by rewrite (within_ascii_ci t).
  - by rewrite (within_ascii_ci t).
Qed.

(** C9 on the patterns /a and /a/, inserted into a new case-insensitive
    trie that searches unvisited parameters. *)
Lemma C9_trailing_separator_witness :
  exists t1 t2 n,
    Insert (NewTrieWithOptions (options true true)) "/a" [] = Ok (t1, Some n)
    /\ Insert (NewTrieWithOptions (options true true)) "/a/" [] = Ok (t2, Some n)
    /\ terminal_of t1 (Some n) "/a"
    /\ terminal_of t2 (Some n) "/a/"
    /\ Search t1 "/a" = Ok (Some n, [])
    /\ Search t2 "/a" = Ok (Some n, []).
Proof.
  assert (Hb : insert_all (NewTrieWithOptions (options true true)) []
               = Ok (NewTrieWithOptions (options true true), [])) by reflexivity.
  assert (Hlast : byte_at "/a" (len "/a" - 1) = Ok "a"%char) by reflexivity.
  assert (Hc : "a"%char <> pathSepB) by discriminate.
  destruct (C9_trailing_separator (options true true) []
              (NewTrieWithOptions (options true true)) [] "/a" "a"%char
              Hb Hlast Hc) as (_ & _ & H).
  destruct (H ["a"]) as (t1 & t2 & n & H1 & H2 & H3 & H4 & H5);
    [discriminate | reflexivity | reflexivity |].
  exists t1, t2, n.
  destruct H5 as (H5 & H6); [reflexivity |].
  repeat split; assumption.
Defined.

(** ** C10: a wildcard and the empty remainder *)

(** C10. After /hello/*p alone was inserted, the search of /hello/
    returns the wildcard terminal and makes the one call Set("p", ""):
    the wildcard captures the empty last segment.  For all options. *)
Theorem C10_wildcard_empty_remainder (ci su : bool) :
  exists t w,
    insert_all (NewTrieWithOptions (options ci su)) ["/hello/*p"] = Ok (t, [w])
    /\ terminal_of t w "/hello/*p"
    /\ Search t "/hello/" = Ok (w, [("p", "")]).
Proof. destruct ci, su; scenario. Qed.

(** * Further properties *)

(** ** The options of Insert *)

Lemma foldl_update_store opts :
  forall t a nd x,
    nodes t !! a = Some nd ->
    foldl (fun acc opt => t ← acc; update t (Some a) opt) (Ok (store t a x)) opts
    = Ok (store t a (foldl (fun nd (o : InsertOption) => o nd) x opts)).
Proof.
  induction opts as [|o opts IH]; intros t a nd x Ha; [done|].
  cbn [foldl]. cbn [mbind res_bind].
  rewrite (update_store t a nd x o Ha). by apply (IH t a nd).
Qed.

Lemma options_fold cs :
  forall nd,
    let nd' := foldl (fun nd (o : InsertOption) => o nd) nd (option_of <$> cs) in
    Handler nd' = match Handler nd with Some h => Some h | None => first_handler cs end
    /\ Tag nd' = (if (Tag nd =? "")%string then first_tag cs else Tag nd)
    /\ Data nd' = last_data cs (Data nd)
    /\ end_ nd' = end_ nd /\ key nd' = key nd /\ paramKeys nd' = paramKeys nd
    /\ staticKey nd' = staticKey nd /\ children nd' = children nd
    /\ parent nd' = parent nd.
Proof.
  induction cs as [|c cs IH]; intros nd; cbn [fmap list_fmap foldl].
  - simpl. split; [by destruct (Handler nd)|]. split; [|done].
    destruct (Tag nd =? "")%string eqn:E; [|done]. by apply String.eqb_eq in E.
  - specialize (IH (option_of c nd)). simpl in IH.
    destruct IH as (H1 & H2 & H3 & H4 & H5 & H6 & H7 & H8 & H9).
    simpl. rewrite H1, H2, H3, H4, H5, H6, H7, H8, H9. clear.
    destruct c as [h|tag|d]; simpl.
    + unfold WithHandler. destruct (Handler nd) eqn:E; simpl; rewrite ?E; done.
    + unfold WithTag. destruct (Tag nd =? "")%string eqn:E; simpl; rewrite ?E; done.
    + done.
Qed.

Lemma insert_finish_inv t n pk key tag d h t' n' :
  insert_finish t n pk key tag d h = Ok (t', n') ->
  exists m nd static,
    n = Some m /\ n' = Some m /\ nodes t !! m = Some nd
    /\ resolveStaticPart key = Ok static
    /\ t' = store t m (finished nd pk key static tag d h).
Proof.
  intros H. destruct n as [m|]; [|done].
  destruct (nodes t !! m) as [nd|] eqn:Hm.
  - destruct (insert_finish_spec t m nd pk key tag d h Hm) as (static & Hs & Hf).
    rewrite Hf in H. simplify_eq. by exists m, nd, static.
  - unfold insert_finish, update, deref in H. rewrite Hm in H. done.
Qed.

Lemma Insert_options_inv t p opts t' n :
  Insert t p opts = Ok (t', n) ->
  exists t0 pk0 n0 m nd static segs,
    p <> ""
    /\ slowPathSplit p = Ok segs
    /\ insert_loop (if (p =? pathSep)%string then set_hasRootSlash true t else t)
                   (root t) [] 0 segs = Ok (t0, n0, pk0)
    /\ n0 = Some m /\ n = Some m /\ nodes t0 !! m = Some nd
    /\ resolveStaticPart p = Ok static
    /\ t' = store t0 m (foldl (fun nd (o : InsertOption) => o nd)
                              (finished nd pk0 p static "" None None) opts).
Proof.
  unfold Insert. destruct (p =? "")%string eqn:Ep; [done|].
  apply String.eqb_neq in Ep. intros H.
  apply bind_Ok in H as ([t1 n1] & Hi & H).
  unfold insert in Hi.
  apply bind_Ok in Hi as (segs & Hsplit & Hi).
  apply bind_Ok in Hi as ([[t0 n0] pk0] & Hloop & Hfin).
  apply insert_finish_inv in Hfin as (m & nd & static & -> & -> & Hm & Hs & ->).
  rewrite (foldl_update_store opts t0 m nd _ Hm) in H. simpl in H. simplify_eq.
  by exists t0, pk0, (Some m), m, nd, static, segs.
Qed.

(** X1: after [Insert(pattern, options...)] with options made by [WithHandler], [WithTag] and [WithData], the node returned ends the pattern, its handler is that of the first [WithHandler], its tag the first tag that is not empty, its datum that of the last [WithData]; nothing of an earlier insertion of the pattern is left, since [insert] clears the three fields first. *)
Theorem Insert_options (t : Trie) (p : string) (cs : list option_call)
    (t' : Trie) (n : ptr) :
  Insert t p (option_of <$> cs) = Ok (t', n) ->
  exists nd,
    deref t' n = Ok nd
    /\ end_ nd = true
    /\ key nd = p
    /\ Handler nd = first_handler cs
    /\ Tag nd = first_tag cs
    /\ Data nd = last_data cs None.
Proof.
  intros H.
  apply Insert_options_inv in H
    as (t0 & pk0 & n0 & m & nd & static & segs & Hp & Hsplit & Hloop & -> & -> & Hm & Hs & ->).
  eexists. split; [apply deref_Some; by eapply store_lookup|].
  pose proof (options_fold cs (finished nd pk0 p static "" None None)) as Hf.
  simpl in Hf. destruct Hf as (H1 & H2 & H3 & H4 & H5 & _).
  by rewrite H1, H2, H3, H4, H5.
Qed.

Lemma Insert_options_witness :
  let cs := [CallWithTag ""; CallWithHandler 7; CallWithData (Some 1%nat);
             CallWithTag "x"; CallWithHandler 8; CallWithData (Some 2%nat)] in
  exists t' n,
    Insert (built (options false false) ["/a"]) "/a" (option_of <$> cs) = Ok (t', n)
    /\ exists nd,
         deref t' n = Ok nd /\ end_ nd = true /\ key nd = "/a"
         /\ Handler nd = first_handler cs
         /\ Tag nd = first_tag cs
         /\ Data nd = last_data cs None.
Proof.
  intros cs. eexists _, _. split; [vm_compute; reflexivity|].
  apply (Insert_options (built (options false false) ["/a"]) "/a" cs).
  vm_compute; reflexivity.
Defined.

(** ** The values a search captures *)

Lemma piece_of_empty q : piece_of q "".
Proof.
  exists 0, 0. unfold slice. pose proof (len_nonneg q).
  replace (len q <? 0) with false by (symmetry; apply Z.ltb_ge; lia). done.
Qed.

Lemma piece_of_slice q lo hi v : slice q lo hi = Ok v -> piece_of q v.
Proof. intros H. by exists lo, hi. Qed.

Lemma piece_of_slice_from q lo v : slice_from q lo = Ok v -> piece_of q v.
Proof. intros H. by exists lo, (len q). Qed.

Lemma appendParameterValue_pieces q pv v :
  Forall (piece_of q) (backing pv) ->
  piece_of q v ->
  Forall (piece_of q) (backing (appendParameterValue pv v)).
Proof.
  intros Hpv Hv. unfold appendParameterValue.
  destruct (slen pv <? cap pv); simpl.
  - destruct (decide (Z.to_nat (slen pv) < length (backing pv))%nat) as [Hlt|Hge].
    + by apply Forall_insert.
    + rewrite list_insert_ge by lia. done.
  - apply Forall_app. split; [by apply Forall_take|].
    apply Forall_cons. split; [done|].
    apply Forall_replicate. apply piece_of_empty.
Qed.

Lemma reslice_to_backing pv hi pv' :
  reslice_to pv hi = Ok pv' -> backing pv' = backing pv.
Proof. unfold reslice_to. case_match; [done|]. by intros [= <-]. Qed.

Lemma rewind_pieces t q n start i pv pv' :
  Forall (piece_of q) (backing pv) ->
  rewind t q n start i pv = Ok pv' ->
  Forall (piece_of q) (backing pv').
Proof.
  intros Hpv H. unfold rewind in H.
  apply bind_Ok in H as (nd & _ & H).
  apply bind_Ok in H as (pv1 & Hre & H).
  apply bind_Ok in H as (v & Hv & H). simplify_eq.
  apply appendParameterValue_pieces; [|by eapply piece_of_slice].
  by rewrite (reslice_to_backing _ _ _ Hre).
Qed.

Lemma descended_pieces t q qc end_q n start i pv vis r :
  Forall (piece_of q) (backing pv) ->
  descended t q qc end_q n start i pv vis = Ok r ->
  Forall (piece_of q) (buffer_of r) /\ calls_of r = [].
Proof.
  intros Hpv H. unfold descended in H.
  destruct (i =? end_q); [|by simplify_eq].
  destruct (searchUnvisitedParams t); [|by simplify_eq].
  apply bind_Ok in H as (nd & _ & H).
  destruct (negb (end_ nd)); [|by simplify_eq].
  apply bind_Ok in H as ([[n' start'] i'] & _ & H).
  destruct n' as [c|]; [|by simplify_eq].
  apply bind_Ok in H as (pv' & Hre & H). simplify_eq. simpl.
  split; [|done]. by eapply rewind_pieces.
Qed.

Lemma bind_wildcard_pieces t q n from r calls :
  bind_wildcard t q n from = Ok (r, calls) ->
  Forall (fun kv => piece_of q kv.2) calls.
Proof.
  unfold bind_wildcard. intros H.
  apply bind_Ok in H as (nd & _ & H).
  apply bind_Ok in H as (k & _ & H).
  apply bind_Ok in H as (v & Hv & H). simplify_eq.
  apply Forall_cons. split; [|done]. simpl. by eapply piece_of_slice_from.
Qed.

Lemma search_step_pieces t q qc end_q st r :
  Forall (piece_of q) (backing (st_paramValues st)) ->
  search_step t q qc end_q st = Ok r ->
  Forall (piece_of q) (buffer_of r)
  /\ Forall (fun kv => piece_of q kv.2) (calls_of r).
Proof.
  intros Hpv H. unfold search_step in H.
  apply bind_Ok in H as (at_sep & _ & H).
  destruct at_sep; [|by simplify_eq].
  apply bind_Ok in H as (s & _ & H).
  apply bind_Ok in H as (child & _ & H).
  assert (Hdesc : forall n start i pv vis,
             Forall (piece_of q) (backing pv) ->
             descended t q qc end_q n start i pv vis = Ok r ->
             Forall (piece_of q) (buffer_of r)
             /\ Forall (fun kv => piece_of q kv.2) (calls_of r)).
  { intros n start i pv vis Hb Hd.
    destruct (descended_pieces _ _ _ _ _ _ _ _ _ _ Hb Hd) as [? ->]. done. }
  destruct child as [c|]; [by eapply Hdesc|].
  apply bind_Ok in H as ([child ex] & _ & H).
  destruct ex.
  { apply bind_Ok in H as (v & Hv & H).
    eapply Hdesc; [|exact H].
    apply appendParameterValue_pieces; [done|by eapply piece_of_slice]. }
  apply bind_Ok in H as ([child' ex] & _ & H).
  destruct ex.
  { apply bind_Ok in H as (v & Hv & H).
    eapply Hdesc; [|exact H].
    apply appendParameterValue_pieces; [done|by eapply piece_of_slice]. }
  apply bind_Ok in H as (nd & _ & H).
  destruct (childNamedParameter nd).
  { apply bind_Ok in H as (c & _ & H).
    apply bind_Ok in H as (v & Hv & H).
    eapply Hdesc; [|exact H].
    apply appendParameterValue_pieces; [done|by eapply piece_of_slice]. }
  destruct (childWildcardParameter nd).
  { apply bind_Ok in H as (c & _ & H).
    apply bind_Ok in H as (v & Hv & H). simplify_eq. simpl.
    split; [|done].
    apply appendParameterValue_pieces; [done|by eapply piece_of_slice_from]. }
  apply bind_Ok in H as ([[unvisited start'] i'] & _ & H).
  destruct unvisited as [u|].
  { apply bind_Ok in H as (pv' & Hre & H).
    eapply Hdesc; [|exact H]. by eapply rewind_pieces. }
  apply bind_Ok in H as (w & _ & H).
  destruct w as [w|]; [|by simplify_eq].
  apply bind_Ok in H as (wn & _ & H).
  apply bind_Ok in H as ([w' calls] & Hb & H). simplify_eq. simpl.
  split; [done|]. by eapply bind_wildcard_pieces.
Qed.

Lemma search_loop_pieces fuel :
  forall t q qc end_q st e,
    Forall (piece_of q) (backing (st_paramValues st)) ->
    search_loop fuel t q qc end_q st = Ok e ->
    Forall (piece_of q) (buffer_of (inr e))
    /\ Forall (fun kv => piece_of q kv.2) (calls_of (inr e)).
Proof.
  induction fuel as [|fuel IH]; intros t q qc end_q st e Hpv H; [done|].
  cbn [search_loop] in H.
  apply bind_Ok in H as (r & Hstep & H).
  destruct (search_step_pieces _ _ _ _ _ _ Hpv Hstep) as [Hb Hc].
  destruct r as [st'|e']; [by eapply IH|]. by simplify_eq.
Qed.

Lemma emit_values keys values :
  forall i kv, kv ∈ emit keys i values -> kv.2 ∈ values.
Proof.
  induction values as [|v values IH]; intros i kv; cbn [emit].
  - by intros ?%elem_of_nil.
  - destruct (keys !! i).
    + intros [->|Hin]%elem_of_cons; [by left|]. right. by eapply IH.
    + intros Hin. right. by eapply IH.
Qed.

Lemma search_finish_pieces t q n pv r calls :
  Forall (piece_of q) (backing pv) ->
  search_finish t q n pv = Ok (r, calls) ->
  Forall (fun kv => piece_of q kv.2) calls.
Proof.
  intros Hpv H. unfold search_finish in H.
  apply bind_Ok in H as (is_end & _ & H).
  destruct is_end.
  - apply bind_Ok in H as (nd & _ & H). simplify_eq.
    apply Forall_forall. intros kv Hkv.
    apply emit_values in Hkv. unfold cells in Hkv.
    apply elem_of_take in Hkv as (j & Hj & _).
    eapply Forall_lookup_1 in Hpv; [|exact Hj]. done.
  - apply bind_Ok in H as (w & _ & H).
    destruct w as [w|].
    + apply bind_Ok in H as (wn & _ & H). by eapply bind_wildcard_pieces.
    + destruct (hasRootWildcard t); [|by simplify_eq].
      apply bind_Ok in H as (c & _ & H). by eapply bind_wildcard_pieces.
Qed.

(** X2: every value [Search] hands to [params.Set] is a piece [q[lo:hi]] of the request, on every trie. *)
Theorem Search_values_are_pieces (t : Trie) (q : string) (n : ptr) (calls : sets) :
  Search t q = Ok (n, calls) ->
  forall k v, (k, v) ∈ calls -> exists lo hi, slice q lo hi = Ok v.
Proof.
  intros H k v Hin.
  assert (Hall : Forall (fun kv => piece_of q kv.2) calls).
  { unfold Search in H.
    apply bind_Ok in H as (fast & _ & H).
    destruct fast.
    - destruct (hasRootSlash t).
      + apply bind_Ok in H as (c & _ & H). by simplify_eq.
      + destruct (hasRootWildcard t); [|by simplify_eq].
        apply bind_Ok in H as (c & _ & H). by simplify_eq.
    - apply bind_Ok in H as (e & Hloop & H).
      apply search_loop_pieces in Hloop as [Hb Hc]; [|by apply Forall_nil].
      destruct e as [r cs|r pv]; [by simplify_eq|].
      by eapply search_finish_pieces. }
  eapply Forall_forall in Hall; [|exact Hin]. exact Hall.
Qed.

Lemma Search_values_are_pieces_witness :
  exists lo hi, slice "/hello/x/static/y" lo hi = Ok "x".
Proof.
  apply (Search_values_are_pieces
           (built (options false false) ["/hello/*p"; "/hello/:p1/static/:p2"])
           "/hello/x/static/y" (Some 5%nat) [("p1", "x"); ("p2", "y")]
           ltac:(vm_compute; reflexivity) "p1" "x").
  apply elem_of_cons. by left.
Defined.

(** ** Which patterns Insert accepts *)

Lemma prefix_length sub s :
  String.prefix sub s = true -> (String.length sub <= String.length s)%nat.
Proof.
  revert s. induction sub as [|a sub IH]; intros s H; simpl; [lia|].
  destruct s as [|b s]; simpl in H; [done|].
  destruct (Ascii.ascii_dec a b); [|done].
  apply IH in H. simpl. lia.
Qed.

Lemma Index_from_bound substr s :
  forall k, Index_from k s substr = -1
            \/ (k <= Index_from k s substr
                /\ Index_from k s substr - k + len substr <= len s).
Proof.
  induction s as [|c s IH]; intros k; rewrite Index_from_eq.
  - destruct (String.prefix substr "") eqn:E; [|by left].
    right. apply prefix_length in E. unfold len. lia.
  - destruct (String.prefix substr (String c s)) eqn:E.
    + right. apply prefix_length in E. unfold len. lia.
    + destruct (IH (k + 1)) as [->|[H1 H2]]; [by left|].
      right. rewrite len_String. lia.
Qed.

Lemma Contains_bound s substr :
  Contains s substr = true ->
  0 <= Index s substr /\ Index s substr + len substr <= len s.
Proof.
  unfold Contains, Index. intros H. apply Z.leb_le in H.
  destruct (Index_from_bound substr s 0) as [E|[H1 H2]]; lia.
Qed.

Lemma slice_ok s lo hi : 0 <= lo -> lo <= hi -> hi <= len s -> exists r, slice s lo hi = Ok r.
Proof.
  intros H1 H2 H3. unfold slice.
  replace (lo <? 0) with false by (symmetry; apply Z.ltb_ge; lia).
  replace (hi <? lo) with false by (symmetry; apply Z.ltb_ge; lia).
  replace (len s <? hi) with false by (symmetry; apply Z.ltb_ge; lia).
  simpl. eauto.
Qed.

Lemma byte_at_0 s : s <> "" -> exists c, byte_at s 0 = Ok c.
Proof.
  destruct s as [|c s]; [done|]. intros _. exists c.
  unfold byte_at. rewrite len_String. pose proof (len_nonneg s).
  replace (1 + len s <=? 0) with false by (symmetry; apply Z.leb_gt; lia). done.
Qed.

Lemma byte_at_0_empty : byte_at "" 0 = Panic IndexOutOfRange.
Proof. done. Qed.

Lemma register_segment_ok t a nd pk c s :
  nodes t !! a = Some nd ->
  byte_at s 0 = Ok c ->
  exists r, register_segment t (Some a) pk c s = Ok r.
Proof.
  intros Hnd Hc. unfold register_segment.
  assert (Hlen : 1 <= len s).
  { destruct s; [done|]. rewrite len_String. pose proof (len_nonneg s). lia. }
  destruct (Ascii.eqb c ":") eqn:Hparam.
  { simpl. rewrite (update_first _ _ _ _ Hnd). cbn [mbind res_bind].
    destruct (slice_ok s 1 (len s)) as (name & Hname); [lia..|].
    unfold slice_from. rewrite Hname. cbn [mbind res_bind].
    rewrite (update_store _ _ _ _ _ Hnd). cbn [mbind res_bind]. eauto. }
  destruct (Ascii.eqb c "*") eqn:Hwild.
  { simpl. rewrite (update_first _ _ _ _ Hnd). cbn [mbind res_bind].
    destruct (slice_ok s 1 (len s)) as (name & Hname); [lia..|].
    unfold slice_from. rewrite Hname. cbn [mbind res_bind].
    rewrite (update_store _ _ _ _ _ Hnd). cbn [mbind res_bind]. eauto. }
  simpl.
  destruct (isPrefixParam s) eqn:Hpre.
  { simpl. rewrite (update_first _ _ _ _ Hnd). cbn [mbind res_bind].
    apply Contains_bound in Hpre as [Hp1 Hp2].
    change (len PrefixParamStart) with 2 in Hp2.
    destruct (slice_ok s (Index s PrefixParamStart + 2) (len s)) as (name & Hname); [lia..|].
    unfold slice_from. rewrite Hname. cbn [mbind res_bind].
    rewrite (update_store _ _ _ _ _ Hnd). cbn [mbind res_bind].
    unfold addPrefixLength. rewrite (update_store _ _ _ _ _ Hnd). cbn [mbind res_bind].
    destruct (slice_ok s 0 (Index s PrefixParamStart + 2)) as (s' & Hs'); [lia..|].
    unfold slice_to. rewrite Hs'. cbn [mbind res_bind]. eauto. }
  destruct (isSuffixParam s) eqn:Hsuf.
  { simpl. rewrite (update_first _ _ _ _ Hnd). cbn [mbind res_bind].
    apply Contains_bound in Hsuf as [Hp1 Hp2].
    change (len SuffixParamStart) with 2 in Hp2.
    destruct (slice_ok s 0 (Index s SuffixParamStart)) as (name & Hname); [lia..|].
    unfold slice_to. rewrite Hname. cbn [mbind res_bind].
    rewrite (update_store _ _ _ _ _ Hnd). cbn [mbind res_bind].
    unfold addSuffixLength. rewrite (update_store _ _ _ _ _ Hnd). cbn [mbind res_bind].
    destruct (slice_ok s (Index s SuffixParamStart) (len s)) as (s' & Hs'); [lia..|].
    unfold slice_from. rewrite Hs'. cbn [mbind res_bind]. eauto. }
  simpl. eauto.
Qed.

Lemma insert_segment_ok t a nd pk i s :
  heap_ok t ->
  nodes t !! a = Some nd ->
  s <> "" ->
  exists r, insert_segment t (Some a) pk i s = Ok r.
Proof.
  intros Hok Hnd Hs. unfold insert_segment.
  destruct (byte_at_0 s Hs) as (c & Hc). rewrite Hc. cbn [mbind res_bind].
  rewrite (update_first _ _ _ _ Hnd). cbn [mbind res_bind].
  rewrite (update_store _ _ _ _ _ Hnd). cbn [mbind res_bind].
  set (nd2 := set_paramCount (Z.of_nat (length pk)) (set_pathIndex (i + 1) nd)).
  assert (Hnd2 : nodes (store t a nd2) !! a = Some nd2) by (by eapply store_lookup).
  destruct (store_shape t a nd nd2 Hnd eq_refl) as [Hsh2 _].
  destruct (register_segment_ok (store t a nd2) a nd2 pk c s Hnd2 Hc)
    as ([[t3 pk3] s3] & H3).
  rewrite H3. cbn [mbind res_bind].
  pose proof H3 as H3'.
  apply register_segment_inv in H3' as (Hsh3 & Hlen3 & _).
  assert (Hok3 : heap_ok t3).
  { eapply shape_heap_ok; [exact Hsh3|]. by eapply shape_heap_ok. }
  assert (Hnd3 : exists nd3, nodes t3 !! a = Some nd3).
  { apply lookup_lt_is_Some_2. rewrite Hlen3. by eapply lookup_lt_Some. }
  destruct Hnd3 as (nd3 & Hnd3).
  destruct (descend_or_create_spec t3 a nd3
              (if caseInsensitive t3 then ToLower s3 else s3) Hok3 Hnd3)
    as (t5 & c5 & Hd & _).
  rewrite Hd. cbn [mbind res_bind]. eauto.
Qed.

Lemma insert_segment_empty t n pk i :
  insert_segment t n pk i "" = Panic IndexOutOfRange.
Proof. done. Qed.

(** The loop over the segments returns when none of them is empty, and
    panics at the first empty one. *)
Lemma insert_loop_ok segs :
  forall t a nd pk i,
    heap_ok t ->
    nodes t !! a = Some nd ->
    if bool_decide ("" ∈ segs)
    then insert_loop t (Some a) pk i segs = Panic IndexOutOfRange
    else exists r, insert_loop t (Some a) pk i segs = Ok r.
Proof.
  induction segs as [|s rest IH]; intros t a nd pk i Hok Hnd.
  - rewrite bool_decide_eq_false_2 by (by intros ?%elem_of_nil). simpl. eauto.
  - cbn [insert_loop].
    destruct (decide (s = "")) as [->|Hs].
    + rewrite bool_decide_eq_true_2 by (by left). done.
    + destruct (insert_segment_ok t a nd pk i s Hok Hnd Hs) as ([[t1 n1] pk1] & Hseg).
      rewrite Hseg. cbn [mbind res_bind].
      destruct (insert_segment_inv _ _ _ _ _ _ _ _ _ Hok Hnd Hseg)
        as (c & k & -> & Hchild & _ & _ & Hok1 & _).
      destruct (heap_ok_valid _ _ _ _ Hok1 Hchild) as (ndc & Hndc).
      specialize (IH t1 c ndc pk1 (i + 1) Hok1 Hndc).
      destruct (bool_decide ("" ∈ rest)) eqn:E.
      * rewrite bool_decide_eq_true_2; [done|].
        apply bool_decide_eq_true in E. by right.
      * rewrite bool_decide_eq_false_2; [done|].
        apply bool_decide_eq_false in E.
        intros [?|?]%elem_of_cons; [congruence|done].
Qed.

Lemma Split_nonempty s sep : Split s sep <> [].
Proof.
  induction s as [|c s IH]; simpl; [done|].
  destruct (Ascii.eqb c sep); [done|]. by destruct (Split s sep).
Qed.

Lemma slowPathSplit_total p : p <> "" -> exists segs, slowPathSplit p = Ok segs.
Proof.
  intros Hp. unfold slowPathSplit.
  destruct (p =? pathSep)%string; [eauto|].
  destruct (str_snoc p Hp) as (a & c & ->).
  rewrite byte_at_last_app. cbn [mbind res_bind].
  assert (Hsplit : forall x, exists segs, list_slice_from (Split x pathSepB) 1 = Ok segs).
  { intros x. unfold list_slice_from.
    pose proof (Split_nonempty x pathSepB) as Hne.
    destruct (Split x pathSepB) as [|h tl]; [done|]. simpl.
    replace (Z.of_nat (S (length tl)) <? 1) with false
      by (symmetry; apply Z.ltb_ge; lia).
    simpl. eauto. }
  destruct (Ascii.eqb c pathSepB).
  - destruct (slice_ok (a +:+ String c "") 0 (len (a +:+ String c "") - 1))
      as (r & Hr); [lia| |lia|].
    { rewrite len_app, len_String. pose proof (len_nonneg a). unfold len at 2. simpl. lia. }
    unfold slice_to. rewrite Hr. cbn [mbind res_bind]. apply Hsplit.
  - cbn [mbind res_bind]. apply Hsplit.
Qed.

Lemma slowPathSplit_empty : slowPathSplit "" = Panic IndexOutOfRange.
Proof. done. Qed.

(** X3: on a well-formed trie, a pattern that is not empty always splits into segments; [Insert] panics with an index out of range (at [s[0]]) exactly when one of the segments is empty, and else returns the node that now ends the pattern. *)
Theorem Insert_accepts (t : Trie) (p : string) :
  heap_ok t ->
  p <> "" ->
  exists segs,
    slowPathSplit p = Ok segs
    /\ if bool_decide ("" ∈ segs)
       then Insert t p [] = Panic IndexOutOfRange
       else exists t' n nd, Insert t p [] = Ok (t', Some n)
                            /\ nodes t' !! n = Some nd
                            /\ end_ nd = true /\ key nd = p.
Proof.
  intros Hok Hp.
  destruct (slowPathSplit_total p Hp) as (segs & Hsplit).
  exists segs. split; [done|].
  destruct (heap_ok_root t Hok) as (nd0 & Hnd0).
  pose proof Hok as (Hroot & _).
  set (t0 := if (p =? pathSep)%string then set_hasRootSlash true t else t).
  assert (Hok0 : heap_ok t0).
  { unfold t0. destruct (p =? pathSep)%string; [by apply heap_ok_set_hasRootSlash|done]. }
  assert (Hnd00 : nodes t0 !! 0%nat = Some nd0).
  { unfold t0. by destruct (p =? pathSep)%string. }
  pose proof (insert_loop_ok segs t0 0%nat nd0 [] 0 Hok0 Hnd00) as Hloop.
  assert (Hins : insert t p "" None None
                 = '(t1, n1, pk1) ← insert_loop t0 (Some 0%nat) [] 0 segs;
                   insert_finish t1 n1 pk1 p "" None None).
  { unfold insert. rewrite Hsplit. cbn [mbind res_bind]. by rewrite Hroot. }
  unfold Insert. apply String.eqb_neq in Hp as Hpb. rewrite Hpb.
  rewrite Hins.
  destruct (bool_decide ("" ∈ segs)).
  - by rewrite Hloop.
  - destruct Hloop as ([[t1 n1] pk1] & Hloop). rewrite Hloop. cbn [mbind res_bind].
    destruct (insert_loop_inv _ _ _ _ _ _ _ _ _ Hok0 Hnd00 Hloop)
      as (m & ndm & -> & Hndm & _).
    destruct (insert_finish_spec t1 m ndm pk1 p "" None None Hndm)
      as (static & Hs & Hf).
    rewrite Hf. cbn [mbind res_bind foldl].
    eexists _, m, _. split; [done|].
    split; [by eapply store_lookup|]. done.
Qed.

Lemma Insert_accepts_witness :
  exists segs,
    slowPathSplit "/a//b" = Ok segs
    /\ if bool_decide ("" ∈ segs)
       then Insert NewTrie "/a//b" [] = Panic IndexOutOfRange
       else exists t' n nd, Insert NewTrie "/a//b" [] = Ok (t', Some n)
                            /\ nodes t' !! n = Some nd
                            /\ end_ nd = true /\ key nd = "/a//b".
Proof.
  apply (Insert_accepts NewTrie "/a//b").
  - by destruct (NewTrieWithOptions_ok (options false false)) as [H _].
  - discriminate.
Defined.

(** ** What insertion changes in the heap *)

Lemma update_Some t n f t' : update t n f = Ok t' -> exists a, n = Some a.
Proof. intros H. apply update_inv in H as (a & _ & -> & _). eauto. Qed.

Lemma store_nodes t a x : nodes (store t a x) = <[a := x]> (nodes t).
Proof. done. Qed.

Lemma Forall_addLength l x :
  0 <= x -> Forall (Z.le 0) l -> Forall (Z.le 0) (addLength l x).
Proof.
  intros Hx Hl. unfold addLength. apply Forall_app. split; [done|].
  by apply Forall_cons.
Qed.

(** The flags and tables [register_segment] sets in the node at [a];
    nothing else changes in the heap. *)
Lemma register_segment_exact t a nd pk c s t' pk' s' :
  nodes t !! a = Some nd ->
  byte_at s 0 = Ok c ->
  register_segment t (Some a) pk c s = Ok (t', pk', s') ->
  exists nd',
    nodes t' = <[a := nd']> (nodes t)
    /\ parent nd' = parent nd
    /\ children nd' = children nd
    /\ payload nd' = payload nd
    /\ paramCount nd' = paramCount nd
    /\ childNamedParameter nd' = childNamedParameter nd || Ascii.eqb c ":"
    /\ childWildcardParameter nd' = childWildcardParameter nd || Ascii.eqb c "*"
    /\ (lengths_ok nd -> lengths_ok nd')
    /\ (Ascii.eqb c ":" = true -> s' = ParamStart)
    /\ (Ascii.eqb c ":" = true \/ (isPrefixParam s = false /\ isSuffixParam s = false) ->
        childPrefixParameter nd' = childPrefixParameter nd
        /\ childSuffixParameter nd' = childSuffixParameter nd).
Proof.
  intros Hnd Hc H. unfold register_segment in H.
  destruct (Ascii.eqb c ":") eqn:Hparam.
  { assert (Ascii.eqb c "*" = false) as Hw.
    { apply Ascii.eqb_eq in Hparam as ->. done. }
    rewrite Hw in *. simpl in H.
    rewrite (update_first _ _ _ _ Hnd) in H. cbn [mbind res_bind] in H.
    apply bind_Ok in H as (name & _ & H).
    rewrite (update_store _ _ _ _ _ Hnd) in H. cbn [mbind res_bind] in H.
    simplify_eq. eexists. rewrite store_nodes. split; [reflexivity|]. simpl.
    rewrite orb_true_r, orb_false_r. done. }
  destruct (Ascii.eqb c "*") eqn:Hwild.
  { simpl in H.
    rewrite (update_first _ _ _ _ Hnd) in H. cbn [mbind res_bind] in H.
    apply bind_Ok in H as (name & _ & H).
    rewrite (update_store _ _ _ _ _ Hnd) in H. cbn [mbind res_bind] in H.
    eexists.
    destruct (bool_decide _) in H; simplify_eq; simpl;
      (split; [reflexivity|]); simpl; rewrite orb_true_r, orb_false_r; done. }
  simpl in H. rewrite !orb_false_r.
  destruct (isPrefixParam s) eqn:Hpre.
  { simpl in H.
    rewrite (update_first _ _ _ _ Hnd) in H. cbn [mbind res_bind] in H.
    apply bind_Ok in H as (name & _ & H).
    rewrite (update_store _ _ _ _ _ Hnd) in H. cbn [mbind res_bind] in H.
    unfold addPrefixLength in H.
    rewrite (update_store _ _ _ _ _ Hnd) in H. cbn [mbind res_bind] in H.
    apply bind_Ok in H as (s3 & _ & H).
    simplify_eq. eexists. rewrite store_nodes. split; [reflexivity|]. simpl.
    repeat split; try done.
    - apply Forall_addLength; [|by destruct H]. by apply Contains_bound in Hpre as [? _].
    - by destruct H.
    - by destruct H as [?|[? ?]]. }
  destruct (isSuffixParam s) eqn:Hsuf.
  { simpl in H.
    rewrite (update_first _ _ _ _ Hnd) in H. cbn [mbind res_bind] in H.
    apply bind_Ok in H as (name & _ & H).
    rewrite (update_store _ _ _ _ _ Hnd) in H. cbn [mbind res_bind] in H.
    unfold addSuffixLength in H.
    rewrite (update_store _ _ _ _ _ Hnd) in H. cbn [mbind res_bind] in H.
    apply bind_Ok in H as (s3 & _ & H).
    simplify_eq. eexists. rewrite store_nodes. split; [reflexivity|]. simpl.
    repeat split; try done.
    - by destruct H.
    - apply Forall_addLength; [|by destruct H].
      apply Contains_bound in Hsuf as [? Hb].
      change (len SuffixParamStart) with 2 in Hb. lia.
    - by destruct H as [?|[? ?]]. }
  simpl in H. simplify_eq. exists nd. rewrite list_insert_id by done. done.
Qed.

Lemma register_segment_key t n pk c s t' pk' s' :
  byte_at s 0 = Ok c ->
  register_segment t n pk c s = Ok (t', pk', s') ->
  s' = segment_key s /\ pk' = (pk ++ segment_param s)%list
  /\ caseInsensitive t' = caseInsensitive t.
Proof.
  intros Hc H.
  pose proof H as Hsh. apply register_segment_inv in Hsh as (Hsh & _).
  assert (Hci : caseInsensitive t' = caseInsensitive t)
    by (unfold shape in Hsh; congruence).
  unfold segment_key, segment_param. rewrite Hc.
  unfold register_segment in H.
  destruct (Ascii.eqb c ":") eqn:Hparam.
  { simpl in H.
    apply bind_Ok in H as (t1 & _ & H).
    apply bind_Ok in H as (name & -> & H).
    apply bind_Ok in H as (t2 & _ & H). by simplify_eq. }
  destruct (Ascii.eqb c "*") eqn:Hwild.
  { simpl in H.
    apply bind_Ok in H as (t1 & _ & H).
    apply bind_Ok in H as (name & -> & H).
    apply bind_Ok in H as (t2 & _ & H).
    destruct (bool_decide _) in H; by simplify_eq. }
  simpl in H. simpl.
  destruct (isPrefixParam s) eqn:Hpre.
  { simpl in H.
    apply bind_Ok in H as (t1 & _ & H).
    apply bind_Ok in H as (name & -> & H).
    apply bind_Ok in H as (t2 & _ & H).
    apply bind_Ok in H as (t3 & _ & H).
    apply bind_Ok in H as (s3 & -> & H). by simplify_eq. }
  destruct (isSuffixParam s) eqn:Hsuf.
  { simpl in H.
    apply bind_Ok in H as (t1 & _ & H).
    apply bind_Ok in H as (name & -> & H).
    apply bind_Ok in H as (t2 & _ & H).
    apply bind_Ok in H as (t3 & _ & H).
    apply bind_Ok in H as (s3 & -> & H). by simplify_eq. }
  simpl in H. simplify_eq. by rewrite app_nil_r.
Qed.

(** [descend_or_create] follows the child under [s] when there is one;
    else it appends a node whose parent is [a] and files it under [s]. *)
Lemma descend_or_create_nodes t a nd s t' n' :
  nodes t !! a = Some nd ->
  descend_or_create t (Some a) s = Ok (t', n') ->
  (exists c, children nd !! s = Some c /\ n' = Some c /\ t' = t)
  \/ (children nd !! s = None
      /\ n' = Some (length (nodes t))
      /\ nodes t'
         = (<[a := set_children (<[s := length (nodes t)]> (children nd)) nd]>
              (nodes t) ++ [set_parent (Some a) zeroNode])%list).
Proof.
  intros Hnd H. unfold descend_or_create, hasChild in H.
  rewrite (getChild_child_of _ _ _ _ Hnd) in H. cbn [mbind res_bind] in H.
  rewrite (child_of_node _ _ _ _ Hnd) in H.
  destruct (children nd !! s) as [c|] eqn:Hc.
  - left. exists c. rewrite bool_decide_eq_true_2 in H by done.
    cbn [mbind res_bind] in H.
    rewrite (getChild_child_of _ _ _ _ Hnd), (child_of_node _ _ _ _ Hnd), Hc in H.
    cbn [mbind res_bind] in H. by simplify_eq.
  - right. rewrite bool_decide_eq_false_2 in H by (by intros []).
    assert (Ha : (a < length (nodes t))%nat) by (by eapply lookup_lt_Some).
    set (new := length (nodes t)) in *.
    set (t1 := set_nodes (nodes t ++ [zeroNode])%list t) in *.
    assert (Hnd1 : nodes t1 !! a = Some nd) by (simpl; by rewrite lookup_app_l).
    assert (Hnew1 : nodes t1 !! new = Some zeroNode).
    { simpl. rewrite lookup_app_r by (unfold new; lia).
      by replace (new - length (nodes t))%nat with 0%nat by (unfold new; lia). }
    unfold NewNode in H. fold new in H. fold t1 in H.
    unfold addChild in H.
    rewrite (deref_Some _ _ _ Hnd1) in H. cbn [mbind res_bind] in H.
    rewrite Hc in H.
    rewrite (update_ok _ _ _ _ Hnew1) in H. cbn [mbind res_bind] in H.
    set (t2 := set_nodes (<[new := set_parent (Some a) zeroNode]> (nodes t1)) t1) in *.
    assert (Hnd2 : nodes t2 !! a = Some nd).
    { simpl. rewrite list_lookup_insert_ne by (unfold new; lia).
      by rewrite lookup_app_l. }
    rewrite (update_ok _ _ _ _ Hnd2) in H. cbn [mbind res_bind] in H.
    set (nd' := set_children (<[s := new]> (children nd)) nd) in *.
    set (t3 := set_nodes (<[a := nd']> (nodes t2)) t2) in *.
    assert (Hnd3 : nodes t3 !! a = Some nd').
    { simpl. apply list_lookup_insert_eq.
      rewrite length_insert, length_app. simpl. lia. }
    rewrite (getChild_child_of _ _ _ _ Hnd3) in H.
    rewrite (child_of_node _ _ _ _ Hnd3) in H. simpl in H.
    rewrite lookup_insert_eq in H. cbn [mbind res_bind] in H.
    injection H as <- <-.
    split; [reflexivity|]. split; [reflexivity|]. simpl.
    replace new with (length (nodes t) + 0)%nat at 1 by (unfold new; lia).
    rewrite insert_app_r. simpl.
    by rewrite insert_app_l by exact Ha.
Qed.

(** One turn of the loop of [insert]: the node at [a] keeps its parent
    and what was recorded at it; it gains at most one child, a new node
    at the end of the heap, whose parent it is.  No other node changes. *)
Lemma insert_segment_nodes t n pk i s t' n' pk' :
  insert_segment t n pk i s = Ok (t', n', pk') ->
  exists a nd nd' k,
    n = Some a
    /\ nodes t !! a = Some nd
    /\ parent nd' = parent nd
    /\ payload nd' = payload nd
    /\ paramCount nd' = Z.of_nat (length pk)
    /\ (childNamedParameter nd' = true ->
        childNamedParameter nd = true \/ k = ParamStart)
    /\ (childWildcardParameter nd' = true ->
        childWildcardParameter nd = true \/ starts_star s = true)
    /\ (lengths_ok nd -> lengths_ok nd')
    /\ ((exists c, children nd !! k = Some c /\ children nd' = children nd
                   /\ n' = Some c /\ nodes t' = <[a := nd']> (nodes t))
        \/ (children nd !! k = None
            /\ children nd' = <[k := length (nodes t)]> (children nd)
            /\ n' = Some (length (nodes t))
            /\ nodes t' = (<[a := nd']> (nodes t)
                           ++ [set_parent (Some a) zeroNode])%list))
    /\ k = canon t (segment_key s)
    /\ pk' = (pk ++ segment_param s)%list
    /\ nodes t' !! a = Some nd'
    /\ childNamedParameter nd' = childNamedParameter nd || starts_colon s
    /\ (starts_colon s = true \/ (isPrefixParam s = false /\ isSuffixParam s = false) ->
        childPrefixParameter nd' = childPrefixParameter nd
        /\ childSuffixParameter nd' = childSuffixParameter nd).
Proof.
  intros H. unfold insert_segment in H.
  apply bind_Ok in H as (c0 & Hc0 & H).
  apply bind_Ok in H as (t1 & H1 & H).
  destruct (update_Some _ _ _ _ H1) as (a & ->).
  assert (Hnd : exists nd, nodes t !! a = Some nd).
  { apply update_inv in H1 as (? & nd & [= <-] & ? & _). eauto. }
  destruct Hnd as (nd & Hnd).
  rewrite (update_first _ _ _ _ Hnd) in H1. injection H1 as <-.
  rewrite (update_store _ _ _ _ _ Hnd) in H. cbn [mbind res_bind] in H.
  set (nd2 := set_paramCount (Z.of_nat (length pk)) (set_pathIndex (i + 1) nd)) in *.
  apply bind_Ok in H as ([[t3 pk3] s3] & H3 & H).
  apply bind_Ok in H as ([t4 n4] & H4 & H).
  simplify_eq.
  assert (Hnd2 : nodes (store t a nd2) !! a = Some nd2) by (by eapply store_lookup).
  destruct (register_segment_exact _ _ _ _ _ _ _ _ _ Hnd2 Hc0 H3)
    as (nd3 & E3 & Cp & Cc & Cpl & Cpc & Cn & Cw & Cl & Ck & Cf).
  rewrite store_nodes, list_insert_insert_eq in E3.
  change (parent nd3 = parent nd) in Cp.
  change (children nd3 = children nd) in Cc.
  change (payload nd3 = payload nd) in Cpl.
  change (paramCount nd3 = Z.of_nat (length pk)) in Cpc.
  change (childNamedParameter nd3 = childNamedParameter nd || Ascii.eqb c0 ":") in Cn.
  change (childWildcardParameter nd3 = childWildcardParameter nd || Ascii.eqb c0 "*") in Cw.
  assert (Cl' : lengths_ok nd -> lengths_ok nd3) by (intros ?; by apply Cl).
  assert (Cn' : childNamedParameter nd3 = childNamedParameter nd || starts_colon s)
    by (unfold starts_colon; by rewrite Hc0).
  assert (Cf' : starts_colon s = true
                \/ (isPrefixParam s = false /\ isSuffixParam s = false) ->
                childPrefixParameter nd3 = childPrefixParameter nd
                /\ childSuffixParameter nd3 = childSuffixParameter nd).
  { intros Hf. unfold starts_colon in Hf. rewrite Hc0 in Hf. by apply Cf. }
  assert (Hnd3 : nodes t3 !! a = Some nd3).
  { rewrite E3. apply list_lookup_insert_eq. by eapply lookup_lt_Some. }
  assert (Hlen3 : length (nodes t3) = length (nodes t))
    by (by rewrite E3, length_insert).
  destruct (register_segment_key _ _ _ _ _ _ _ _ Hc0 H3) as (Es3 & Epk & Eci).
  change (caseInsensitive t3 = caseInsensitive t) in Eci.
  set (k := if caseInsensitive t3 then ToLower s3 else s3) in *.
  assert (Ek : k = canon t (segment_key s)).
  { unfold k, canon. by rewrite Eci, Es3. }
  assert (Hk : Ascii.eqb c0 ":" = true -> k = ParamStart).
  { intros Hcolon. unfold k. rewrite (Ck Hcolon). by destruct (caseInsensitive t3). }
  assert (Hn : forall x, childNamedParameter x = childNamedParameter nd3 ->
                         childNamedParameter x = true ->
                         childNamedParameter nd = true \/ k = ParamStart).
  { intros x -> Hx. rewrite Cn in Hx. simpl in Hx.
    apply orb_true_iff in Hx as [?|?]; [by left|right; by apply Hk]. }
  assert (Hw : forall x, childWildcardParameter x = childWildcardParameter nd3 ->
                         childWildcardParameter x = true ->
                         childWildcardParameter nd = true \/ starts_star s = true).
  { intros x -> Hx. rewrite Cw in Hx. simpl in Hx. unfold starts_star. rewrite Hc0.
    apply orb_true_iff in Hx as [?|?]; [by left|by right]. }
  apply (descend_or_create_nodes _ _ _ _ _ _ Hnd3) in H4
    as [(c & Hc & -> & ->)|(Hc & -> & E4)].
  - exists a, nd, nd3, k.
    split; [done|]. split; [done|]. split; [exact Cp|].
    split; [exact Cpl|]. split; [exact Cpc|].
    split; [by apply Hn|]. split; [by apply Hw|]. split; [exact Cl'|].
    split; [|done].
    left. exists c. rewrite Cc in Hc. done.
  - exists a, nd, (set_children (<[k := length (nodes t3)]> (children nd3)) nd3), k.
    split; [done|]. split; [done|]. split; [exact Cp|].
    split; [exact Cpl|]. split; [exact Cpc|].
    split; [by apply Hn|]. split; [by apply Hw|]. split; [exact Cl'|].
    assert (E4' : nodes t'
                  = (<[a := set_children (<[k := length (nodes t)]> (children nd)) nd3]>
                       (nodes t) ++ [set_parent (Some a) zeroNode])%list).
    { rewrite E4, Hlen3, E3, Cc. by rewrite list_insert_insert_eq. }
    split.
    { right. rewrite Cc in Hc. split; [done|]. simpl. rewrite Hlen3, Cc.
      split; [done|]. split; [done|]. exact E4'. }
    split; [done|]. split; [done|]. split; [|done].
    rewrite E4', lookup_app_l by (rewrite length_insert; by eapply lookup_lt_Some).
    rewrite Hlen3, Cc. apply list_lookup_insert_eq. by eapply lookup_lt_Some.
Qed.

Lemma lookup_insert_snoc {A} (l : list A) a x y b z :
  (a < length l)%nat ->
  (<[a := x]> l ++ [y])%list !! b = Some z ->
  (b = a /\ z = x) \/ (b = length l /\ z = y)
  \/ (b <> a /\ (b < length l)%nat /\ l !! b = Some z).
Proof.
  intros Ha H.
  destruct (decide (b < length l)%nat) as [Hb|Hb].
  - rewrite lookup_app_l in H by (by rewrite length_insert).
    destruct (decide (b = a)) as [->|Hne].
    + rewrite list_lookup_insert_eq in H by done. left. by simplify_eq.
    + rewrite list_lookup_insert_ne in H by done. right. right. done.
  - rewrite lookup_app_r in H by (rewrite length_insert; lia).
    rewrite length_insert in H.
    destruct (b - length l)%nat as [|?] eqn:E; simpl in H; [|done].
    right. left. split; [lia|]. by simplify_eq.
Qed.

Lemma lookup_insert_case {A} (l : list A) a x b z :
  (a < length l)%nat ->
  <[a := x]> l !! b = Some z ->
  (b = a /\ z = x) \/ (b <> a /\ l !! b = Some z).
Proof.
  intros Ha H. destruct (decide (b = a)) as [->|Hne].
  - rewrite list_lookup_insert_eq in H by done. left. by simplify_eq.
  - rewrite list_lookup_insert_ne in H by done. by right.
Qed.

Lemma node_ok_new a : node_ok (set_parent (Some a) zeroNode).
Proof.
  split; [done|]. split; [done|]. split; [done|]. split; apply Forall_nil_2.
Qed.

Lemma payload_end nd nd' : payload nd' = payload nd -> end_ nd' = end_ nd.
Proof. unfold payload. congruence. Qed.

(** The effect of one turn of the loop on the nodes, as
    [insert_segment_nodes] gives it. *)
Lemma segment_links_ok t t' a nd nd' :
  links_ok t ->
  nodes t !! a = Some nd ->
  parent nd' = parent nd ->
  (nodes t' = <[a := nd']> (nodes t) /\ children nd' = children nd)
  \/ (exists k, children nd !! k = None
                /\ children nd' = <[k := length (nodes t)]> (children nd)
                /\ nodes t' = (<[a := nd']> (nodes t)
                               ++ [set_parent (Some a) zeroNode])%list) ->
  links_ok t'.
Proof.
  intros [Hup Hdown] Hnd Hp Hcase.
  assert (Ha : (a < length (nodes t))%nat) by (by eapply lookup_lt_Some).
  assert (Hold : forall b s c ndb,
             nodes t !! b = Some ndb -> children ndb !! s = Some c ->
             exists ndc, nodes t' !! c = Some ndc /\ parent ndc = Some b).
  { intros b s c ndb Hb Hc.
    destruct (Hdown b s c) as (ndc & Hndc & Hpc).
    { by rewrite (child_of_node _ _ _ _ Hb). }
    assert (Hcl : (c < length (nodes t))%nat) by (by eapply lookup_lt_Some).
    destruct (decide (c = a)) as [->|Hca].
    - exists nd'. replace ndc with nd in * by congruence.
      split; [|congruence].
      destruct Hcase as [[-> _]|(k & _ & _ & ->)].
      + by apply list_lookup_insert_eq.
      + rewrite lookup_app_l by (by rewrite length_insert).
        by apply list_lookup_insert_eq.
    - exists ndc. split; [|done].
      destruct Hcase as [[-> _]|(k & _ & _ & ->)].
      + by rewrite list_lookup_insert_ne.
      + rewrite lookup_app_l by (by rewrite length_insert).
        by rewrite list_lookup_insert_ne. }
  split.
  - intros b ndb p Hb Hpb.
    destruct Hcase as [[E _]|(k & _ & _ & E)]; rewrite E in Hb.
    + apply lookup_insert_case in Hb as [[-> ->]|[_ Hb]]; [|by eapply Hup|done].
      eapply Hup; [exact Hnd|congruence].
    + apply lookup_insert_snoc in Hb as [[-> ->]|[[-> ->]|(_ & _ & Hb)]]; [| | |done].
      * eapply Hup; [exact Hnd|congruence].
      * simpl in Hpb. by simplify_eq.
      * by eapply Hup.
  - intros b s c Hc.
    apply child_of_Some in Hc as (ndb & Hb & Hc).
    destruct Hcase as [[E Hch]|(k & Hk & Hch & E)].
    + rewrite E in Hb.
      apply lookup_insert_case in Hb as [[-> ->]|[_ Hb]]; [| |done].
      * rewrite Hch in Hc. by eapply Hold.
      * by eapply Hold.
    + pose proof Hb as Hb'. rewrite E in Hb'.
      apply lookup_insert_snoc in Hb' as [[-> ->]|[[-> ->]|(_ & _ & Hb')]]; [| | |done].
      * rewrite Hch in Hc.
        destruct (decide (k = s)) as [->|Hks].
        -- rewrite lookup_insert_eq in Hc. injection Hc as <-.
           exists (set_parent (Some a) zeroNode). split; [|done].
           rewrite E, lookup_app_r by (rewrite length_insert; lia).
           rewrite length_insert. by rewrite Nat.sub_diag.
        -- rewrite lookup_insert_ne in Hc by done. by eapply Hold.
      * simpl in Hc. by rewrite lookup_empty in Hc.
      * by eapply Hold.
Qed.

Lemma segment_nodes_ok t t' a nd nd' k :
  Forall node_ok (nodes t) ->
  nodes t !! a = Some nd ->
  payload nd' = payload nd ->
  0 <= paramCount nd' ->
  (childNamedParameter nd' = true -> childNamedParameter nd = true \/ k = ParamStart) ->
  (lengths_ok nd -> lengths_ok nd') ->
  (exists c, children nd !! k = Some c /\ children nd' = children nd
             /\ nodes t' = <[a := nd']> (nodes t))
  \/ (children nd !! k = None
      /\ children nd' = <[k := length (nodes t)]> (children nd)
      /\ nodes t' = (<[a := nd']> (nodes t)
                     ++ [set_parent (Some a) zeroNode])%list) ->
  Forall node_ok (nodes t').
Proof.
  intros Hall Hnd Hpl Hpc Hn Hl Hcase.
  pose proof (Forall_lookup_1 _ _ _ _ Hall Hnd) as (N1 & N2 & N3 & N4).
  assert (Hnd' : node_ok nd').
  { split; [|split; [|split]].
    - intros He. rewrite Hpl. apply N1. by rewrite <- (payload_end _ _ Hpl).
    - lia.
    - intros Hf. destruct (Hn Hf) as [Hold| ->].
      + destruct (N3 Hold) as (c & Hc).
        destruct Hcase as [(? & _ & -> & _)|(Hk & -> & _)]; [by exists c|].
        exists c. rewrite lookup_insert_ne; [done|]. intros ->. congruence.
      + destruct Hcase as [(c & Hc & -> & _)|(_ & -> & _)]; [by exists c|].
        rewrite lookup_insert_eq. eauto.
    - by apply Hl. }
  destruct Hcase as [(c & _ & _ & ->)|(_ & _ & ->)].
  - by apply Forall_insert.
  - apply Forall_app. split; [by apply Forall_insert|].
    apply Forall_singleton, node_ok_new.
Qed.

Lemma grows_refl t : grows t t.
Proof.
  split; [done|]. split; [eauto|].
  intros b nd' H Hb. apply lookup_lt_Some in H. lia.
Qed.

Lemma grows_trans t1 t2 t3 : grows t1 t2 -> grows t2 t3 -> grows t1 t3.
Proof.
  intros (L1 & K1 & N1) (L2 & K2 & N2).
  split; [lia|]. split.
  - intros b nd Hb. destruct (K1 _ _ Hb) as (nd2 & Hb2 & P2 & Q2).
    destruct (K2 _ _ Hb2) as (nd3 & Hb3 & P3 & Q3).
    exists nd3. split; [done|]. split; congruence.
  - intros b nd3 Hb3 Hb.
    destruct (decide (b < length (nodes t2))%nat) as [Hlt|Hge].
    + destruct (lookup_lt_is_Some_2 _ _ Hlt) as (nd2 & Hb2).
      destruct (K2 _ _ Hb2) as (nd3' & Hb3' & P3 & _).
      replace nd3' with nd3 in * by congruence.
      rewrite P3. by eapply N1.
    + eapply N2; [done|lia].
Qed.

Lemma insert_segment_grows t n pk i s t' n' pk' :
  insert_segment t n pk i s = Ok (t', n', pk') -> grows t t'.
Proof.
  intros H.
  apply insert_segment_nodes in H
    as (a & nd & nd' & k & -> & Hnd & Hp & Hpl & _ & _ & _ & _ & Hcase & _).
  assert (Ha : (a < length (nodes t))%nat) by (by eapply lookup_lt_Some).
  destruct Hcase as [(c & _ & _ & _ & E)|(_ & _ & _ & E)]; unfold grows; rewrite E.
  - split; [by rewrite length_insert|]. split.
    + intros b ndb Hb. destruct (decide (b = a)) as [->|Hne].
      * exists nd'. rewrite list_lookup_insert_eq by done.
        replace ndb with nd by congruence. done.
      * exists ndb. by rewrite list_lookup_insert_ne.
    + intros b ndb Hb Hge. apply lookup_lt_Some in Hb.
      rewrite length_insert in Hb. lia.
  - split; [rewrite length_app, length_insert; lia|]. split.
    + intros b ndb Hb.
      assert (Hbl : (b < length (nodes t))%nat) by (by eapply lookup_lt_Some).
      rewrite lookup_app_l by (by rewrite length_insert).
      destruct (decide (b = a)) as [->|Hne].
      * exists nd'. rewrite list_lookup_insert_eq by done.
        replace ndb with nd by congruence. done.
      * exists ndb. by rewrite list_lookup_insert_ne.
    + intros b ndb Hb Hge.
      apply lookup_insert_snoc in Hb as [[-> ->]|[[-> ->]|(_ & ? & _)]]; [lia|done|lia|done].
Qed.

Lemma insert_loop_grows segs :
  forall t n pk i t' n' pk',
    insert_loop t n pk i segs = Ok (t', n', pk') -> grows t t'.
Proof.
  induction segs as [|s rest IH]; intros t n pk i t' n' pk' H.
  - simpl in H. simplify_eq. apply grows_refl.
  - cbn [insert_loop] in H.
    apply bind_Ok in H as ([[t1 n1] pk1] & Hseg & H).
    eapply grows_trans; [by eapply insert_segment_grows|by eapply IH].
Qed.

Lemma insert_segment_tree t n pk i s t' n' pk' :
  links_ok t ->
  Forall node_ok (nodes t) ->
  insert_segment t n pk i s = Ok (t', n', pk') ->
  links_ok t' /\ Forall node_ok (nodes t').
Proof.
  intros Hl Hn H.
  apply insert_segment_nodes in H
    as (a & nd & nd' & k & -> & Hnd & Hp & Hpl & Hpc & Hnm & _ & Hlen & Hcase & _).
  split.
  - eapply segment_links_ok; [exact Hl|exact Hnd|exact Hp|].
    destruct Hcase as [(c & _ & ? & _ & ?)|(? & ? & _ & ?)]; [by left|right; eauto].
  - eapply (segment_nodes_ok t t' a nd nd' k); try done; [lia|].
    destruct Hcase as [(c & ? & ? & _ & ?)|(? & ? & _ & ?)]; [left; eauto|by right].
Qed.

Lemma insert_loop_tree segs :
  forall t n pk i t' n' pk',
    links_ok t ->
    Forall node_ok (nodes t) ->
    insert_loop t n pk i segs = Ok (t', n', pk') ->
    links_ok t' /\ Forall node_ok (nodes t').
Proof.
  induction segs as [|s rest IH]; intros t n pk i t' n' pk' Hl Hn H.
  - simpl in H. by simplify_eq.
  - cbn [insert_loop] in H.
    apply bind_Ok in H as ([[t1 n1] pk1] & Hseg & H).
    destruct (insert_segment_tree _ _ _ _ _ _ _ _ Hl Hn Hseg) as [Hl1 Hn1].
    by eapply IH.
Qed.

Lemma insert_segment_wild t n pk i s t' n' pk' :
  starts_star s = false ->
  Forall (fun nd => childWildcardParameter nd = false) (nodes t) ->
  insert_segment t n pk i s = Ok (t', n', pk') ->
  Forall (fun nd => childWildcardParameter nd = false) (nodes t').
Proof.
  intros Hs Hall H.
  apply insert_segment_nodes in H
    as (a & nd & nd' & k & -> & Hnd & _ & _ & _ & _ & Hw & _ & Hcase & _).
  assert (Hnd' : childWildcardParameter nd' = false).
  { destruct (childWildcardParameter nd') eqn:E; [|done].
    destruct (Hw eq_refl) as [Hold|Hstar]; [|congruence].
    by rewrite (Forall_lookup_1 _ _ _ _ Hall Hnd) in Hold. }
  destruct Hcase as [(c & _ & _ & _ & ->)|(_ & _ & _ & ->)].
  - by apply Forall_insert.
  - apply Forall_app. split; [by apply Forall_insert|]. by apply Forall_singleton.
Qed.

Lemma insert_loop_wild segs :
  forall t n pk i t' n' pk',
    existsb starts_star segs = false ->
    Forall (fun nd => childWildcardParameter nd = false) (nodes t) ->
    insert_loop t n pk i segs = Ok (t', n', pk') ->
    Forall (fun nd => childWildcardParameter nd = false) (nodes t').
Proof.
  induction segs as [|s rest IH]; intros t n pk i t' n' pk' Hs Hall H.
  - simpl in H. by simplify_eq.
  - cbn [insert_loop] in H.
    apply bind_Ok in H as ([[t1 n1] pk1] & Hseg & H).
    cbn [existsb] in Hs. apply orb_false_iff in Hs as [Hs Hrest].
    eapply IH; [exact Hrest| |exact H].
    by eapply insert_segment_wild.
Qed.

(** ** Insert and the invariants of the heap *)

Lemma store_links_ok t m nd x :
  links_ok t ->
  nodes t !! m = Some nd ->
  parent x = parent nd ->
  children x = children nd ->
  links_ok (store t m x).
Proof.
  intros Hl Hnd Hp Hc.
  eapply (segment_links_ok t (store t m x) m nd x); try done. by left.
Qed.

Lemma links_ok_nodes t t' : nodes t' = nodes t -> links_ok t -> links_ok t'.
Proof.
  intros E [Hup Hdown]. split.
  - intros a nd b. rewrite E. apply Hup.
  - intros a s c. unfold child_of, kids. rewrite E. apply Hdown.
Qed.

Lemma Insert_tree_ok t p t' n :
  tree_ok t -> Insert t p [] = Ok (t', n) -> tree_ok t'.
Proof.
  intros (Hok & Hl & Hn) H.
  split; [by eapply Insert_trie_ok|].
  apply Insert_options_inv in H
    as (t0 & pk0 & n0 & m & nd & static & segs & Hp & Hsplit & Hloop & -> & -> & Hm & Hs & ->).
  apply insert_loop_tree in Hloop as [Hl0 Hn0].
  - split; [by eapply store_links_ok|].
    rewrite store_nodes. apply Forall_insert; [done|].
    pose proof (Forall_lookup_1 _ _ _ _ Hn0 Hm) as (N1 & N2 & N3 & N4).
    simpl. split; [done|]. done.
  - destruct (p =? pathSep)%string; [|done]. by eapply links_ok_nodes.
  - by destruct (p =? pathSep)%string.
Qed.

Lemma insert_all_tree_ok ps :
  forall t t' terms,
    tree_ok t -> insert_all t ps = Ok (t', terms) -> tree_ok t'.
Proof.
  induction ps as [|p ps IH]; intros t t' terms Hok H.
  - simpl in H. by simplify_eq.
  - cbn [insert_all] in H.
    apply bind_Ok in H as ([t1 n1] & H1 & H).
    apply bind_Ok in H as ([t2 ns] & H2 & H). simplify_eq.
    eapply IH; [|exact H2]. by eapply Insert_tree_ok.
Qed.

Lemma NewTrieWithOptions_tree_ok opts : tree_ok (NewTrieWithOptions opts).
Proof.
  split; [apply NewTrieWithOptions_ok|]. split.
  - split.
    + intros a nd b H Hp. destruct a; simpl in H; [|done]. by simplify_eq.
    + intros a s c H. destruct a; [|done]. done.
  - simpl. apply Forall_singleton.
    split; [done|]. split; [done|]. split; [done|]. split; apply Forall_nil_2.
Qed.

Lemma built_tree_ok opts ps t terms :
  insert_all (NewTrieWithOptions opts) ps = Ok (t, terms) -> tree_ok t.
Proof. apply insert_all_tree_ok, NewTrieWithOptions_tree_ok. Qed.

Lemma Insert_wildcard_free t p t' n :
  heap_ok t ->
  wildcard_free t ->
  wildcard_pattern p = false ->
  Insert t p [] = Ok (t', n) ->
  wildcard_free t'.
Proof.
  intros Hok [Hrw Hall] Hp H.
  pose proof H as H'. apply Insert_inv in H' as [_ H'].
  apply insert_inv in H' as (m' & ndm & segs' & Hsplit' & _ & _ & _ & _ & _ & _ & _ & _ & Hw & _);
    [|done].
  apply Insert_options_inv in H
    as (t0 & pk0 & n0 & m & nd & static & segs & _ & Hsplit & Hloop & -> & -> & Hm & Hs & ->).
  replace segs' with segs in * by congruence.
  unfold wildcard_pattern in Hp. rewrite Hsplit in Hp.
  split.
  - rewrite Hw, Hrw. simpl. destruct segs as [|s rest]; [done|].
    simpl in *. by apply orb_false_iff in Hp as [? _].
  - apply insert_loop_wild in Hloop; [|done|by destruct (p =? pathSep)%string].
    rewrite store_nodes. apply Forall_insert; [done|]. simpl.
    by apply (Forall_lookup_1 _ _ _ _ Hloop Hm).
Qed.

Lemma insert_all_wildcard_free ps :
  forall t t' terms,
    tree_ok t ->
    wildcard_free t ->
    existsb wildcard_pattern ps = false ->
    insert_all t ps = Ok (t', terms) ->
    wildcard_free t'.
Proof.
  induction ps as [|p ps IH]; intros t t' terms Hok Hw Hps H.
  - simpl in H. by simplify_eq.
  - cbn [insert_all] in H.
    apply bind_Ok in H as ([t1 n1] & H1 & H).
    apply bind_Ok in H as ([t2 ns] & H2 & H). simplify_eq.
    cbn [existsb] in Hps. apply orb_false_iff in Hps as [Hp Hps].
    eapply IH; [| |exact Hps|exact H2].
    + by eapply Insert_tree_ok.
    + eapply Insert_wildcard_free; [|exact Hw|exact Hp|exact H1].
      by destruct Hok as [[? _] _].
Qed.

Lemma NewTrieWithOptions_wildcard_free opts : wildcard_free (NewTrieWithOptions opts).
Proof. split; [done|]. by apply Forall_singleton. Qed.

(** X4: [Insert] leaves every node but the one it returns with its parent and with what was recorded at it ([end], [key], [staticKey], [paramKeys], [Handler], [Tag], [Data]); the nodes it allocates, but for the one it returns, record nothing. *)
Theorem Insert_keeps_other_nodes (t : Trie) (p : string)
    (opts : list InsertOption) (t' : Trie) (n : ptr) :
  Insert t p opts = Ok (t', n) ->
  (forall b nd, n <> Some b -> nodes t !! b = Some nd ->
     exists nd', nodes t' !! b = Some nd'
                 /\ payload nd' = payload nd /\ parent nd' = parent nd)
  /\ (forall b nd', n <> Some b -> nodes t' !! b = Some nd' ->
        (length (nodes t) <= b)%nat -> payload nd' = payload zeroNode).
Proof.
  intros H.
  apply Insert_options_inv in H
    as (t0 & pk0 & n0 & m & nd & static & segs & _ & _ & Hloop & -> & -> & Hm & _ & ->).
  apply insert_loop_grows in Hloop as (Hlen & Hkeep & Hnew).
  assert (E : nodes (if (p =? pathSep)%string then set_hasRootSlash true t else t)
              = nodes t) by (by destruct (p =? pathSep)%string).
  rewrite E in *. split.
  - intros b ndb Hne Hb. destruct (Hkeep _ _ Hb) as (ndb' & Hb' & Hpl & Hp).
    exists ndb'. split; [|done]. rewrite store_nodes.
    rewrite list_lookup_insert_ne; [done|]. congruence.
  - intros b ndb' Hne Hb Hge. rewrite store_nodes in Hb.
    rewrite list_lookup_insert_ne in Hb by congruence. by eapply Hnew.
Qed.

Lemma Insert_keeps_other_nodes_witness :
  exists nd',
    nodes (built (options false false) ["/a"; "/a/:x"]) !! 1%nat = Some nd'
    /\ payload nd' = payload (node_at (built (options false false) ["/a"]) (Some 1%nat))
    /\ parent nd' = parent (node_at (built (options false false) ["/a"]) (Some 1%nat)).
Proof.
  apply (Insert_keeps_other_nodes (built (options false false) ["/a"]) "/a/:x" []
           (built (options false false) ["/a"; "/a/:x"]) (Some 2%nat)
           ltac:(vm_compute; reflexivity)).
  - discriminate.
  - vm_compute; reflexivity.
Defined.

Lemma built_is_tree_ok opts ps t terms :
  insert_all (NewTrieWithOptions opts) ps = Ok (t, terms) ->
  tree_ok (built opts ps).
Proof.
  intros H. unfold built. rewrite H. by eapply built_tree_ok.
Qed.

Lemma tree_ok_heap_ok t : tree_ok t -> heap_ok t.
Proof. by intros [[? _] _]. Qed.

(** ** SearchPrefix *)

Lemma SearchPrefix_loop_walk t segs :
  heap_ok t ->
  forall a nd,
    nodes t !! a = Some nd ->
    SearchPrefix_loop t (Some a) segs = Ok (walk t a (canon t <$> segs)).
Proof.
  intros Hok. induction segs as [|s rest IH]; intros a nd Hnd; [done|].
  cbn [SearchPrefix_loop fmap list_fmap walk].
  rewrite (getChild_child_of _ _ _ _ Hnd). cbn [mbind res_bind].
  fold (canon t s).
  destruct (child_of t a (canon t s)) as [c|] eqn:Hc; [|done].
  destruct (heap_ok_valid _ _ _ _ Hok Hc) as (ndc & Hndc).
  by apply (IH c ndc).
Qed.

Lemma SearchPrefix_walk t p segs :
  heap_ok t ->
  slowPathSplit p = Ok segs ->
  SearchPrefix t p = Ok (walk t 0%nat (canon t <$> segs)).
Proof.
  intros Hok Hsplit. unfold SearchPrefix. rewrite Hsplit. cbn [mbind res_bind].
  destruct (heap_ok_root t Hok) as (nd0 & Hnd0).
  destruct Hok as (Hroot & Hrest). rewrite Hroot.
  eapply SearchPrefix_loop_walk; [|exact Hnd0]. by split.
Qed.

Lemma walk_app t keys1 keys2 :
  forall a,
    walk t a (keys1 ++ keys2)
    = match walk t a keys1 with
      | Some m => walk t m keys2
      | None => None
      end.
Proof.
  induction keys1 as [|k keys1 IH]; intros a; [done|].
  simpl. destruct (child_of t a k); [apply IH|done].
Qed.

Lemma walk_extends t t' keys :
  (forall a s c, child_of t a s = Some c -> child_of t' a s = Some c) ->
  forall a m, walk t a keys = Some m -> walk t' a keys = Some m.
Proof.
  intros Hmono. induction keys as [|k keys IH]; intros a m; [done|].
  simpl. destruct (child_of t a k) as [c|] eqn:Hc; [|done].
  rewrite (Hmono _ _ _ Hc). apply IH.
Qed.

Lemma forallb_take {A} (f : A -> bool) l k :
  forallb f l = true -> forallb f (take k l) = true.
Proof.
  revert k. induction l as [|x l IH]; intros k H; [by destruct k|].
  destruct k; [done|]. simpl in *.
  apply andb_true_iff in H as [-> H]. by apply IH.
Qed.

(** X5: on a well-formed trie, [SearchPrefix], [HasPrefix] and [Parents] panic with an index out of range on the empty prefix; on any other prefix [SearchPrefix] returns the node reached from the root along the segments of the prefix (lowered when the trie is case-insensitive), nil if there is none, and [HasPrefix] tells whether there is one. *)
Theorem SearchPrefix_returns (t : Trie) (prefix : string) :
  heap_ok t ->
  if (prefix =? "")%string
  then SearchPrefix t prefix = Panic IndexOutOfRange
       /\ HasPrefix t prefix = Panic IndexOutOfRange
       /\ Parents t prefix = Panic IndexOutOfRange
  else exists segs,
         slowPathSplit prefix = Ok segs
         /\ SearchPrefix t prefix = Ok (walk t 0%nat (canon t <$> segs))
         /\ HasPrefix t prefix
            = Ok (bool_decide (is_Some (walk t 0%nat (canon t <$> segs)))).
Proof.
  intros Hok. destruct (String.eqb_spec prefix "") as [->|Hp]; [done|].
  destruct (slowPathSplit_total prefix Hp) as (segs & Hsplit).
  exists segs. split; [done|].
  pose proof (SearchPrefix_walk t prefix segs Hok Hsplit) as E.
  split; [done|]. unfold HasPrefix. rewrite E. cbn [mbind res_bind].
  f_equal. apply bool_decide_ext. by rewrite is_Some_alt; destruct (walk _ _ _).
Qed.

Lemma SearchPrefix_returns_witness :
  SearchPrefix NewTrie "" = Panic IndexOutOfRange
  /\ HasPrefix NewTrie "" = Panic IndexOutOfRange
  /\ Parents NewTrie "" = Panic IndexOutOfRange.
Proof.
  apply (SearchPrefix_returns NewTrie "").
  by destruct (NewTrieWithOptions_ok (options false false)) as [H _].
Defined.

(** X6: after a static pattern was inserted, [SearchPrefix] of the pattern is the node [Insert] returned, and every leading run of its segments is a prefix that [SearchPrefix] finds and [HasPrefix] accepts. *)
Theorem SearchPrefix_finds_inserted (t : Trie) (segs : list string) :
  heap_ok t ->
  segs <> [] ->
  forallb static_segment segs = true ->
  exists t' n,
    Insert t (path_of segs) [] = Ok (t', Some n)
    /\ SearchPrefix t' (path_of segs) = Ok (Some n)
    /\ forall k, (0 < k <= length segs)%nat ->
         exists m, SearchPrefix t' (path_of (take k segs)) = Ok (Some m)
                   /\ HasPrefix t' (path_of (take k segs)) = Ok true.
Proof.
  intros Hok Hne Hst.
  pose proof (slowPathSplit_path_of segs Hne Hst) as Hsplit.
  destruct (forallb_static_inv _ Hst) as (Hplain & _).
  destruct (insert_static t (path_of segs) segs Hok (path_of_nonempty _ Hne)
              Hsplit Hplain)
    as (t' & n & nd & Hins & Hnd & _ & _ & _ & _ & _ & Hwalk).
  assert (Hok' : heap_ok t').
  { apply Insert_inv in Hins as [_ Hins].
    by apply insert_inv in Hins as (? & ? & ? & _ & _ & _ & _ & _ & ? & _). }
  exists t', n. split; [done|].
  split; [by rewrite (SearchPrefix_walk t' _ segs Hok' Hsplit), Hwalk|].
  intros k Hk.
  assert (Hnek : take k segs <> []).
  { destruct segs; [done|]. destruct k; [lia|done]. }
  pose proof (forallb_take _ _ k Hst) as Hstk.
  pose proof (slowPathSplit_path_of _ Hnek Hstk) as Hsplitk.
  rewrite <- (take_drop k segs), fmap_app, walk_app in Hwalk.
  destruct (walk t' 0%nat (canon t' <$> take k segs)) as [m|] eqn:Hm; [|done].
  exists m. unfold HasPrefix.
  rewrite (SearchPrefix_walk t' _ _ Hok' Hsplitk), Hm. done.
Qed.

Lemma SearchPrefix_finds_inserted_witness :
  exists t' n,
    Insert NewTrie (path_of ["a"; "b"]) [] = Ok (t', Some n)
    /\ SearchPrefix t' (path_of ["a"; "b"]) = Ok (Some n)
    /\ forall k, (0 < k <= length ["a"; "b"])%nat ->
         exists m, SearchPrefix t' (path_of (take k ["a"; "b"])) = Ok (Some m)
                   /\ HasPrefix t' (path_of (take k ["a"; "b"])) = Ok true.
Proof.
  apply (SearchPrefix_finds_inserted NewTrie ["a"; "b"]).
  - by destruct (NewTrieWithOptions_ok (options false false)) as [H _].
  - discriminate.
  - reflexivity.
Defined.

(** X7: what [SearchPrefix] finds it still finds, at the same node, after any further [Insert]: insertion removes and moves no node. *)
Theorem SearchPrefix_stable (t : Trie) (prefix p : string) (m : addr)
    (t' : Trie) (n : ptr) :
  heap_ok t ->
  SearchPrefix t prefix = Ok (Some m) ->
  Insert t p [] = Ok (t', n) ->
  SearchPrefix t' prefix = Ok (Some m) /\ HasPrefix t' prefix = Ok true.
Proof.
  intros Hok Hs Hins.
  assert (Hp : prefix <> "") by (intros ->; done).
  destruct (slowPathSplit_total prefix Hp) as (segs & Hsplit).
  rewrite (SearchPrefix_walk t _ _ Hok Hsplit) in Hs. injection Hs as Hs.
  apply Insert_inv in Hins as [_ Hins].
  apply insert_inv in Hins
    as (? & ? & ? & _ & _ & _ & _ & _ & Hok' & Hci & _ & _ & _ & Hmono & _); [|done].
  assert (E : SearchPrefix t' prefix = Ok (Some m)).
  { rewrite (SearchPrefix_walk t' _ _ Hok' Hsplit). f_equal.
    eapply walk_extends; [exact Hmono|].
    assert (Ec : canon t' <$> segs = canon t <$> segs).
    { apply list_fmap_ext. intros ? y _. unfold canon. by rewrite Hci. }
    unfold fmap in Ec. unfold fmap. by rewrite Ec. }
  split; [done|]. unfold HasPrefix. by rewrite E.
Qed.

Lemma SearchPrefix_stable_witness :
  SearchPrefix (built (options false false) ["/a/b"; "/a/:x"]) "/a" = Ok (Some 1%nat)
  /\ HasPrefix (built (options false false) ["/a/b"; "/a/:x"]) "/a" = Ok true.
Proof.
  apply (SearchPrefix_stable (built (options false false) ["/a/b"]) "/a" "/a/:x"
           1%nat _ (Some 3%nat)).
  - eapply tree_ok_heap_ok, built_is_tree_ok. vm_compute; reflexivity.
  - vm_compute; reflexivity.
  - vm_compute; reflexivity.
Defined.

(** ** Search returns *)

Lemma str_take_length n s :
  (n <= String.length s)%nat -> String.length (str_take n s) = n.
Proof.
  revert s. induction n as [|n IH]; intros s H; [done|].
  destruct s as [|c s]; simpl in *; [lia|]. rewrite IH; lia.
Qed.

Lemma str_drop_length n s :
  String.length (str_drop n s) = (String.length s - n)%nat.
Proof.
  revert s. induction n as [|n IH]; intros s; [simpl; lia|].
  destruct s as [|c s]; simpl; [done|]. apply IH.
Qed.

Lemma slice_len s lo hi r : slice s lo hi = Ok r -> 0 <= lo <= hi /\ hi <= len s /\ len r = hi - lo.
Proof.
  unfold slice. intros H.
  destruct (lo <? 0) eqn:E1; [done|].
  destruct (hi <? lo) eqn:E2; [done|].
  destruct (len s <? hi) eqn:E3; [done|].
  apply Z.ltb_ge in E1, E2, E3. simpl in H. injection H as <-.
  split; [lia|]. split; [lia|]. unfold len in *.
  rewrite str_take_length; [lia|]. rewrite str_drop_length. lia.
Qed.

Lemma slice_total s lo hi :
  0 <= lo -> lo <= hi -> hi <= len s ->
  exists r, slice s lo hi = Ok r /\ len r = hi - lo.
Proof.
  intros H1 H2 H3. destruct (slice_ok s lo hi H1 H2 H3) as (r & Hr).
  exists r. split; [done|]. by apply slice_len in Hr as (_ & _ & ?).
Qed.

Lemma LastIndex_from_bound substr s :
  forall k found,
    LastIndex_from k s substr found = found
    \/ (k <= LastIndex_from k s substr found
        /\ LastIndex_from k s substr found + len substr <= k + len s).
Proof.
  induction s as [|c s IH]; intros k found; cbn [LastIndex_from].
  - destruct (String.prefix substr "") eqn:E; [|by left].
    right. apply prefix_length in E. unfold len. simpl in *. lia.
  - destruct (String.prefix substr (String c s)) eqn:E.
    + destruct (IH (k + 1) k) as [->|[H1 H2]].
      * right. apply prefix_length in E. unfold len. simpl in *. lia.
      * right. rewrite len_String. lia.
    + destruct (IH (k + 1) found) as [->|[H1 H2]]; [by left|].
      right. rewrite len_String. lia.
Qed.

Lemma LastIndex_sep_bound s :
  LastIndex s pathSep = -1 \/ 0 <= LastIndex s pathSep < len s.
Proof.
  unfold LastIndex.
  destruct (LastIndex_from_bound pathSep s 0 (-1)) as [->|[H1 H2]]; [by left|].
  right. change (len pathSep) with 1 in H2. lia.
Qed.

Section search_on_trees.

Variable t : Trie.
Hypothesis Htree : tree_ok t.

Lemma tree_heap_ok : heap_ok t.
Proof. by apply tree_ok_heap_ok. Qed.

Lemma tree_node_ok a nd : nodes t !! a = Some nd -> node_ok nd.
Proof.
  intros H. destruct Htree as (_ & _ & Hn). by eapply Forall_lookup_1.
Qed.

Lemma tree_parent_lt a nd b :
  nodes t !! a = Some nd -> parent nd = Some b -> (b < a)%nat.
Proof. destruct Htree as (_ & [Hup _] & _). apply Hup. Qed.

Lemma valid_child a nd s c :
  nodes t !! a = Some nd -> children nd !! s = Some c -> valid t (Some c).
Proof.
  intros Ha Hc.
  destruct (heap_ok_valid t a s c tree_heap_ok) as (ndc & Hndc).
  { by rewrite (child_of_node _ _ _ _ Ha). }
  by exists c, ndc.
Qed.

Lemma getChild_valid a nd s :
  nodes t !! a = Some nd ->
  exists child, getChild t (Some a) s = Ok child
                /\ (child = None \/ valid t child).
Proof.
  intros Ha. exists (children nd !! s).
  rewrite (getChild_child_of _ _ _ _ Ha), (child_of_node _ _ _ _ Ha).
  split; [done|]. destruct (children nd !! s) eqn:E; [right|by left].
  by eapply valid_child.
Qed.

Lemma prefixProbe_total a nd s lengths :
  nodes t !! a = Some nd ->
  Forall (Z.le 0) lengths ->
  exists child ex, prefixProbe t (Some a) s lengths = Ok (child, ex)
                   /\ (ex = true -> valid t child).
Proof.
  intros Ha. induction lengths as [|indx rest IH]; intros Hl.
  - exists None, false. done.
  - apply Forall_cons in Hl as [Hi Hrest]. cbn [prefixProbe].
    destruct (len s <? indx) eqn:E; [by apply IH|].
    apply Z.ltb_ge in E.
    destruct (slice_total s 0 indx) as (pre & Hpre & _); [lia..|].
    unfold slice_to. rewrite Hpre. cbn [mbind res_bind].
    destruct (getChild_valid a nd (pre +:+ PrefixParamStart) Ha)
      as (child & Hc & Hv).
    rewrite Hc. cbn [mbind res_bind].
    destruct child as [c|]; [|by apply IH].
    exists (Some c), true. split; [done|]. intros _. by destruct Hv.
Qed.

Lemma suffixProbe_total a nd s lengths :
  nodes t !! a = Some nd ->
  Forall (Z.le 0) lengths ->
  exists child ex, suffixProbe t (Some a) s lengths = Ok (child, ex)
                   /\ (ex = true -> valid t child).
Proof.
  intros Ha. induction lengths as [|suffixLen rest IH]; intros Hl.
  - exists None, false. done.
  - apply Forall_cons in Hl as [Hi Hrest]. cbn [suffixProbe].
    destruct (len s - suffixLen <? 0) eqn:E; [by apply IH|].
    apply Z.ltb_ge in E.
    destruct (slice_total s (len s - suffixLen) (len s)) as (suf & Hsuf & _); [lia..|].
    unfold slice_from. rewrite Hsuf. cbn [mbind res_bind].
    destruct (getChild_valid a nd (SuffixParamStart +:+ suf) Ha)
      as (child & Hc & Hv).
    rewrite Hc. cbn [mbind res_bind].
    destruct child as [c|]; [|by apply IH].
    exists (Some c), true. split; [done|]. intros _. by destruct Hv.
Qed.

Lemma getPrefixParamChild_total a nd s :
  nodes t !! a = Some nd ->
  exists child ex, getPrefixParamChild t (Some a) s = Ok (child, ex)
                   /\ (ex = true -> valid t child).
Proof.
  intros Ha. unfold getPrefixParamChild.
  rewrite (deref_Some _ _ _ Ha). cbn [mbind res_bind].
  destruct (negb (childPrefixParameter nd)); [by exists None, false|].
  apply (prefixProbe_total a nd); [done|].
  by destruct (tree_node_ok a nd Ha) as (_ & _ & _ & [? _]).
Qed.

Lemma getSuffixParamChild_total a nd s :
  nodes t !! a = Some nd ->
  exists child ex, getSuffixParamChild t (Some a) s = Ok (child, ex)
                   /\ (ex = true -> valid t child).
Proof.
  intros Ha. unfold getSuffixParamChild.
  rewrite (deref_Some _ _ _ Ha). cbn [mbind res_bind].
  destruct (negb (childSuffixParameter nd)); [by exists None, false|].
  apply (suffixProbe_total a nd); [done|].
  by destruct (tree_node_ok a nd Ha) as (_ & _ & _ & [_ ?]).
Qed.

Lemma has_wildcard_node a nd :
  nodes t !! a = Some nd -> childWildcardParameter nd = true -> ~ wildcard_free t.
Proof.
  intros Ha Hw [_ Hall]. by rewrite (Forall_lookup_1 _ _ _ _ Hall Ha) in Hw.
Qed.

(** The climb of [findClosestParentWildcardNode] ends: a parent was
    allocated before its child. *)
Lemma climbWildcard_total fuel :
  forall n,
    (n = None \/ exists a nd, n = Some a /\ nodes t !! a = Some nd /\ (a < fuel)%nat) ->
    exists w, climbWildcard fuel t n = Ok w
              /\ (w = None \/ (valid t w /\ ~ wildcard_free t)).
Proof.
  induction fuel as [|fuel IH]; intros n [->|(a & nd & -> & Ha & Hlt)].
  - exists None. split; [done|by left].
  - lia.
  - exists None. split; [done|by left].
  - cbn [climbWildcard]. rewrite (deref_Some _ _ _ Ha). cbn [mbind res_bind].
    destruct (childWildcardParameter nd) eqn:Hw.
    + destruct (getChild_valid a nd WildcardParamStart Ha) as (child & -> & Hv).
      exists child. split; [done|].
      destruct Hv as [->|Hv]; [by left|right]. split; [done|].
      by eapply has_wildcard_node.
    + apply IH. destruct (parent nd) as [b|] eqn:Hp; [right|by left].
      pose proof (tree_parent_lt a nd b Ha Hp) as Hb.
      destruct (lookup_lt_is_Some_2 (nodes t) b) as (ndb & Hndb).
      { apply lookup_lt_Some in Ha. lia. }
      exists b, ndb. split; [done|]. split; [done|]. lia.
Qed.

Lemma parent_below a nd :
  nodes t !! a = Some nd ->
  parent nd = None
  \/ exists b ndb, parent nd = Some b /\ nodes t !! b = Some ndb
                   /\ (b < length (nodes t))%nat /\ (b < a)%nat.
Proof.
  intros Ha. destruct (parent nd) as [b|] eqn:Hp; [right|by left].
  pose proof (tree_parent_lt a nd b Ha Hp) as Hb.
  apply lookup_lt_Some in Ha as Hlt.
  destruct (lookup_lt_is_Some_2 (nodes t) b) as (ndb & Hndb); [lia|].
  exists b, ndb. split; [done|]. split; [done|]. lia.
Qed.

Lemma findClosestParentWildcardNode_total n :
  valid t n ->
  exists w, findClosestParentWildcardNode t n = Ok w
            /\ (w = None \/ (valid t w /\ ~ wildcard_free t)).
Proof.
  intros (a & nd & -> & Ha). unfold findClosestParentWildcardNode.
  rewrite (deref_Some _ _ _ Ha). cbn [mbind res_bind].
  apply climbWildcard_total.
  destruct (parent_below a nd Ha) as [->|(b & ndb & -> & Hb & Hlt & _)]; [by left|].
  right. by exists b, ndb.
Qed.

(** The climb of [findClosestUnvisitedNode] ends, and what it finds is
    an allocated node that was not visited, with a segment before [i]. *)
Lemma climbUnvisited_total vis path fuel :
  forall n start i,
    (n = None \/ exists a nd, n = Some a /\ nodes t !! a = Some nd /\ (a < fuel)%nat) ->
    0 <= i <= len path ->
    exists u start' i',
      climbUnvisited fuel t n vis path start i = Ok (u, start', i')
      /\ (u <> None -> valid t u /\ (u ∉ vis) /\ 0 <= start' <= i' /\ i' <= i).
Proof.
  induction fuel as [|fuel IH]; intros n start i [->|(a & nd & -> & Ha & Hlt)] Hi.
  - exists None, start, i. done.
  - lia.
  - exists None, start, i. done.
  - cbn [climbUnvisited].
    destruct (slice_total path 0 i) as (head & Hhead & Hlh); [lia..|].
    unfold slice_to. rewrite Hhead. cbn [mbind res_bind]. cbv zeta.
    remember (if LastIndex head pathSep =? -1 then 0 else LastIndex head pathSep)
      as i2 eqn:Ei2.
    assert (Hi2 : 0 <= i2 <= i).
    { rewrite Ei2. destruct (LastIndex_sep_bound head) as [->|Hb]; [simpl; lia|].
      destruct (LastIndex head pathSep =? -1); lia. }
    destruct (slice_total path 0 i2) as (head2 & Hhead2 & Hlh2); [lia..|].
    rewrite Hhead2. cbn [mbind res_bind].
    remember (LastIndex head2 pathSep + 1) as start2 eqn:Es2.
    assert (Hs2 : 0 <= start2 <= i2).
    { rewrite Es2. destruct (LastIndex_sep_bound head2) as [->|Hb]; lia. }
    destruct (slice_total path start2 i2) as (segment & Hseg & _); [lia..|].
    rewrite Hseg. cbn [mbind res_bind].
    rewrite (deref_Some _ _ _ Ha). cbn [mbind res_bind].
    assert (Hret : forall child,
               (child <> None -> valid t child) -> child ∉ vis ->
               exists u start' i',
                 Ok (child, start2, i2) = Ok (u, start', i')
                 /\ (u <> None -> valid t u /\ (u ∉ vis) /\ 0 <= start' <= i' /\ i' <= i)).
    { intros child Hv Hnv. exists child, start2, i2. split; [done|].
      intros Hne. split; [by apply Hv|]. split; [done|]. lia. }
    destruct (getPrefixParamChild_total a nd segment Ha) as (c1 & ex1 & -> & Hv1).
    cbn [mbind res_bind].
    destruct (ex1 && bool_decide (c1 ∉ vis)) eqn:E1.
    { apply andb_true_iff in E1 as [-> E1]. apply bool_decide_eq_true in E1.
      apply Hret; [by intros _; apply Hv1|done]. }
    destruct (getSuffixParamChild_total a nd segment Ha) as (c2 & ex2 & -> & Hv2).
    cbn [mbind res_bind].
    destruct (ex2 && bool_decide (c2 ∉ vis)) eqn:E2.
    { apply andb_true_iff in E2 as [-> E2]. apply bool_decide_eq_true in E2.
      apply Hret; [by intros _; apply Hv2|done]. }
    assert (Hflag : forall (flag : bool) k,
               exists r : option (option nat),
                 (if flag then
                    child ← getChild t (Some a) k;
                    Ok (if bool_decide (child ∉ vis) then Some child else None)
                  else Ok None) = Ok r
                 /\ forall child, r = Some child ->
                      (child <> None -> valid t child) /\ (child ∉ vis)).
    { intros flag k. destruct flag; [|by exists None].
      destruct (getChild_valid a nd k Ha) as (child & -> & Hv).
      cbn [mbind res_bind]. destruct (bool_decide (child ∉ vis)) eqn:E.
      - exists (Some child). split; [done|]. intros ? [= <-].
        apply bool_decide_eq_true in E. split; [|done].
        intros Hne. by destruct Hv.
      - by exists None. }
    destruct (Hflag (childNamedParameter nd) ParamStart) as (r1 & -> & Hr1).
    cbn [mbind res_bind].
    destruct r1 as [child|].
    { destruct (Hr1 child eq_refl). by apply Hret. }
    destruct (Hflag (childWildcardParameter nd) WildcardParamStart) as (r2 & -> & Hr2).
    cbn [mbind res_bind].
    destruct r2 as [child|].
    { destruct (Hr2 child eq_refl). by apply Hret. }
    destruct (IH (parent nd) start2 i2) as (u & start' & i' & -> & Hu).
    { destruct (parent_below a nd Ha) as [->|(b & ndb & -> & Hb & _ & Hba)]; [by left|].
      right. exists b, ndb. split; [done|]. split; [done|]. lia. }
    { lia. }
    exists u, start', i'. split; [done|].
    intros Hne. destruct (Hu Hne) as (? & ? & ? & ?). repeat split; try done; lia.
Qed.

Lemma findClosestUnvisitedNode_total n vis path i :
  valid t n ->
  0 <= i <= len path ->
  exists u start' i',
    findClosestUnvisitedNode t n vis path i = Ok (u, start', i')
    /\ (u <> None -> valid t u /\ (u ∉ vis) /\ 0 <= start' <= i' /\ i' <= i).
Proof.
  intros (a & nd & -> & Ha) Hi. unfold findClosestUnvisitedNode.
  rewrite (deref_Some _ _ _ Ha). cbn [mbind res_bind].
  apply climbUnvisited_total; [|done].
  destruct (parent_below a nd Ha) as [->|(b & ndb & -> & Hb & Hlt & _)]; [by left|].
  right. by exists b, ndb.
Qed.

Lemma valid_in_all_nodes n : valid t n -> n ∈ all_nodes t.
Proof.
  intros (a & nd & -> & Ha). unfold all_nodes.
  apply elem_of_list_to_set, list_elem_of_fmap. exists a. split; [done|].
  apply elem_of_seq. apply lookup_lt_Some in Ha. lia.
Qed.

Lemma measure_advance q vis vis' i :
  vis ⊆ vis' -> 0 <= i -> i < len q ->
  (search_measure t q vis' (i + 1) < search_measure t q vis i)%nat.
Proof.
  intros Hsub Hi Hlt. unfold search_measure, len in *.
  assert (Hsize : (size (all_nodes t ∖ vis') <= size (all_nodes t ∖ vis))%nat).
  { apply subseteq_size. intros x [Hx Hn]%elem_of_difference.
    apply elem_of_difference. split; [done|]. intros Hx'. by apply Hn, Hsub. }
  apply (Nat.mul_le_mono_r _ _ (String.length q + 2)) in Hsize. lia.
Qed.

Lemma measure_rewind q vis u i i' :
  valid t u -> u ∉ vis -> 0 <= i' -> i' < len q ->
  (search_measure t q ({[u]} ∪ vis) (i' + 1) < search_measure t q vis i)%nat.
Proof.
  intros Hv Hnv Hi Hlt. unfold search_measure, len in *.
  assert (Hsize : (size (all_nodes t ∖ ({[u]} ∪ vis)) < size (all_nodes t ∖ vis))%nat).
  { apply subset_size. apply valid_in_all_nodes in Hv. split.
    - intros x [Hx Hn]%elem_of_difference.
      apply elem_of_difference. split; [done|].
      intros Hx'. apply Hn, elem_of_union. by right.
    - intros Hsub.
      assert (Hu : u ∈ all_nodes t ∖ vis) by (by apply elem_of_difference).
      apply Hsub, elem_of_difference in Hu as [_ Hu].
      apply Hu, elem_of_union. left. by apply elem_of_singleton. }
  assert (Hmul : (S (size (all_nodes t ∖ ({[u]} ∪ vis))) * (String.length q + 2)
                  <= size (all_nodes t ∖ vis) * (String.length q + 2))%nat)
    by (apply Nat.mul_le_mono_r; lia).
  lia.
Qed.

Lemma rewind_total q u start i pv :
  valid t u -> 0 <= start <= i -> i <= len q ->
  exists pv', rewind t q u start i pv = Ok pv'.
Proof.
  intros (a & nd & -> & Ha) Hs Hi. unfold rewind.
  rewrite (deref_Some _ _ _ Ha). cbn [mbind res_bind].
  destruct (tree_node_ok a nd Ha) as (_ & Hpc & _).
  assert (Hre : exists pv1, reslice_to pv (min (paramCount nd) (cap pv)) = Ok pv1).
  { unfold reslice_to, min, cap.
    destruct (paramCount nd <? Z.of_nat (length (backing pv))) eqn:E.
    - apply Z.ltb_lt in E.
      replace (paramCount nd <? 0) with false by (symmetry; apply Z.ltb_ge; lia).
      replace (Z.of_nat (length (backing pv)) <? paramCount nd) with false
        by (symmetry; apply Z.ltb_ge; lia).
      simpl. eauto.
    - replace (Z.of_nat (length (backing pv)) <? 0) with false
        by (symmetry; apply Z.ltb_ge; lia).
      rewrite Z.ltb_irrefl. simpl. eauto. }
  destruct Hre as (pv1 & ->). cbn [mbind res_bind].
  destruct (slice_total q start i) as (v & -> & _); [lia..|].
  cbn [mbind res_bind]. eauto.
Qed.

Lemma descended_total q qc child start i pv vis :
  len qc = len q ->
  valid t child -> 0 <= i <= len q ->
  exists r,
    descended t q qc (len q) child start i pv vis = Ok r
    /\ match r with
       | inl st' =>
           i < len q
           /\ st' = {| st_n := child; st_start := i + 1; st_i := i + 1;
                       st_paramValues := pv; st_visitedNodes := vis |}
       | inr e => exit_ok t e
       end.
Proof.
  intros Hqc Hv Hi. unfold descended.
  destruct (i =? len q) eqn:E.
  - assert (Hb : exists r, Ok (inr (Broke child pv)) = Ok r
                           /\ match r : search_state + loop_exit with
                              | inl st' =>
                                  i < len q
                                  /\ st' = {| st_n := child; st_start := i + 1;
                                              st_i := i + 1; st_paramValues := pv;
                                              st_visitedNodes := vis |}
                              | inr e => exit_ok t e
                              end).
    { eexists. split; [done|]. simpl. by right. }
    destruct (searchUnvisitedParams t); [|exact Hb].
    pose proof Hv as (a & nd & -> & Ha).
    rewrite (deref_Some _ _ _ Ha). cbn [mbind res_bind].
    destruct (negb (end_ nd)); [|exact Hb].
    destruct (findClosestUnvisitedNode_total (Some a) vis qc i Hv)
      as (u & start' & i' & -> & Hu); [lia|].
    cbn [mbind res_bind].
    destruct u as [u|].
    + destruct Hu as (Hvu & _ & Hs' & Hi'); [done|].
      destruct (rewind_total q (Some u) start' i' pv Hvu) as (pv' & ->); [lia..|].
      cbn [mbind res_bind]. eexists. split; [done|]. simpl. by right.
    + eexists. split; [done|]. simpl. by left.
  - apply Z.eqb_neq in E. eexists. split; [done|]. simpl. split; [lia|done].
Qed.

Lemma bind_wildcard_outcome q n from :
  valid t n ->
  (exists calls, bind_wildcard t q n from = Ok (n, calls))
  \/ bind_wildcard t q n from = Panic IndexOutOfRange
  \/ bind_wildcard t q n from = Panic SliceBounds.
Proof.
  intros (a & nd & -> & Ha). unfold bind_wildcard.
  rewrite (deref_Some _ _ _ Ha). cbn [mbind res_bind].
  unfold index_at. simpl.
  destruct (paramKeys nd) as [|k ks]; simpl; [right; by left|].
  unfold slice_from, slice.
  destruct ((from <? 0) || (len q <? from) || (len q <? len q)); simpl;
    [right; by right|left; eauto].
Qed.

Lemma byte_at_total s i : 0 <= i < len s -> exists c, byte_at s i = Ok c.
Proof.
  intros Hi. unfold byte_at.
  replace (i <? 0) with false by (symmetry; apply Z.ltb_ge; lia).
  replace (len s <=? i) with false by (symmetry; apply Z.leb_gt; lia).
  simpl.
  assert (H : forall (n : nat) s, (n < String.length s)%nat -> is_Some (String.get n s)).
  { clear. induction n as [|n IH]; intros [|c s] H; simpl in *; try lia; [eauto|].
    apply IH. lia. }
  destruct (H (Z.to_nat i) s) as (c & ->); [unfold len in Hi; lia|]. eauto.
Qed.

(** One turn of the loop of [Search] on a trie built by insertion: it
    returns, keeping the variables in range and decreasing the measure,
    unless a wildcard fallback panics. *)
Lemma search_step_total q qc st :
  len qc = len q ->
  state_ok t q st ->
  (exists r, search_step t q qc (len q) st = Ok r
     /\ match r with
        | inl st' =>
            state_ok t q st'
            /\ (search_measure t q (st_visitedNodes st') (st_i st')
                < search_measure t q (st_visitedNodes st) (st_i st))%nat
        | inr e => exit_ok t e
        end)
  \/ wildcard_panic t (search_step t q qc (len q) st).
Proof.
  intros Hqc. destruct st as [n start i pv vis].
  intros (Hv & Hs & Hi). simpl in Hv, Hs, Hi.
  pose proof Hv as (a & nd & -> & Ha).
  unfold search_step, wildcard_panic.
  cbn [st_n st_start st_i st_paramValues st_visitedNodes].
  assert (Hdesc : forall child start0 i0 pv0 vis0,
             valid t child -> 0 <= i0 <= len q ->
             (i0 < len q ->
              (search_measure t q vis0 (i0 + 1) < search_measure t q vis i)%nat) ->
             (exists r, descended t q qc (len q) child start0 i0 pv0 vis0 = Ok r
                /\ match r with
                   | inl st' =>
                       state_ok t q st'
                       /\ (search_measure t q (st_visitedNodes st') (st_i st')
                           < search_measure t q vis i)%nat
                   | inr e => exit_ok t e
                   end)
             \/ (~ wildcard_free t
                 /\ (descended t q qc (len q) child start0 i0 pv0 vis0
                     = Panic IndexOutOfRange
                     \/ descended t q qc (len q) child start0 i0 pv0 vis0
                        = Panic SliceBounds))).
  { intros child start0 i0 pv0 vis0 Hvc Hi0 Hm. left.
    destruct (descended_total q qc child start0 i0 pv0 vis0 Hqc Hvc Hi0)
      as (r & -> & Hr).
    exists r. split; [done|]. destruct r as [st'|e]; [|done].
    destruct Hr as (Hlt & ->). simpl. split; [|by apply Hm].
    split; [done|]. simpl. lia. }
  assert (Hat : exists b : bool,
             (if i =? len q then Ok true
              else c ← byte_at q i; Ok (Ascii.eqb c pathSepB)) = Ok b
             /\ (b = false -> i < len q)).
  { destruct (i =? len q) eqn:E; [by exists true|].
    apply Z.eqb_neq in E.
    destruct (byte_at_total q i) as (c & ->); [lia|].
    cbn [mbind res_bind]. exists (Ascii.eqb c pathSepB). split; [done|]. lia. }
  destruct Hat as (b & -> & Hb). cbn [mbind res_bind].
  destruct b.
  2:{ left. eexists. split; [done|]. simpl.
      split; [split; [done|]; simpl; lia|].
      apply measure_advance; [done|lia|by apply Hb]. }
  destruct (slice_total qc start i) as (s & -> & _); [lia..|].
  cbn [mbind res_bind].
  rewrite (getChild_child_of t a nd s Ha), (child_of_node t a nd s Ha).
  cbn [mbind res_bind].
  destruct (children nd !! s) as [c|] eqn:Hc.
  { apply Hdesc; [by eapply valid_child|lia|].
    intros Hlt. apply measure_advance; [done|lia|done]. }
  destruct (slice_total q start i) as (value & Hvalue & _); [lia..|].
  destruct (getPrefixParamChild_total a nd s Ha) as (c1 & ex1 & -> & Hv1).
  cbn [mbind res_bind].
  destruct ex1.
  { rewrite Hvalue. cbn [mbind res_bind].
    apply Hdesc; [by apply Hv1|lia|].
    intros Hlt. apply measure_advance; [apply union_subseteq_r|lia|done]. }
  destruct (getSuffixParamChild_total a nd s Ha) as (c2 & ex2 & -> & Hv2).
  cbn [mbind res_bind].
  destruct ex2.
  { rewrite Hvalue. cbn [mbind res_bind].
    apply Hdesc; [by apply Hv2|lia|].
    intros Hlt. apply measure_advance; [apply union_subseteq_r|lia|done]. }
  rewrite (deref_Some _ _ _ Ha). cbn [mbind res_bind].
  destruct (childNamedParameter nd) eqn:Hnamed.
  { destruct (tree_node_ok a nd Ha) as (_ & _ & Hbacked & _).
    destruct (Hbacked Hnamed) as (c & Hcn).
    rewrite (getChild_child_of t a nd ParamStart Ha),
      (child_of_node t a nd ParamStart Ha), Hcn.
    cbn [mbind res_bind]. rewrite Hvalue. cbn [mbind res_bind].
    apply Hdesc; [by eapply valid_child|lia|].
    intros Hlt. apply measure_advance; [apply union_subseteq_r|lia|done]. }
  destruct (childWildcardParameter nd) eqn:Hwild.
  { destruct (getChild_valid a nd WildcardParamStart Ha) as (child & -> & Hvc).
    cbn [mbind res_bind].
    destruct (slice_total q start (len q)) as (rest & Hrest & _); [lia..|].
    unfold slice_from. rewrite Hrest. cbn [mbind res_bind].
    left. eexists. split; [done|]. exact Hvc. }
  assert (Hfind : exists u start' i',
             (if searchUnvisitedParams t
              then findClosestUnvisitedNode t (Some a) vis qc i
              else Ok (None, start, i)) = Ok (u, start', i')
             /\ (u <> None ->
                 valid t u /\ (u ∉ vis) /\ 0 <= start' <= i' /\ i' <= i)).
  { destruct (searchUnvisitedParams t).
    - apply findClosestUnvisitedNode_total; [done|lia].
    - exists None, start, i. done. }
  destruct Hfind as (u & start' & i' & -> & Hu). cbn [mbind res_bind].
  destruct u as [u|].
  { destruct Hu as (Hvu & Hnv & Hs' & Hi'); [done|].
    destruct (rewind_total q (Some u) start' i' pv Hvu) as (pv' & ->); [lia..|].
    cbn [mbind res_bind].
    apply Hdesc; [done|lia|].
    intros Hlt. apply measure_rewind; [done|done|lia|done]. }
  destruct (findClosestParentWildcardNode_total (Some a) Hv) as (w & -> & Hw).
  cbn [mbind res_bind].
  destruct w as [w|].
  2:{ left. eexists. split; [done|]. by left. }
  destruct Hw as [?|[Hvw Hnf]]; [done|].
  pose proof Hvw as (w' & wn & [= <-] & Hwn).
  rewrite (deref_Some _ _ _ Hwn). cbn [mbind res_bind].
  destruct (bind_wildcard_outcome q (Some w) (len (staticKey wn)) Hvw)
    as [(calls & ->)|[->| ->]]; cbn [mbind res_bind].
  - left. eexists. split; [done|]. by right.
  - right. split; [done|]. by left.
  - right. split; [done|]. by right.
Qed.

Lemma search_loop_total q qc fuel :
  len qc = len q ->
  forall st,
    state_ok t q st ->
    (search_measure t q (st_visitedNodes st) (st_i st) < fuel)%nat ->
    (exists e, search_loop fuel t q qc (len q) st = Ok e /\ exit_ok t e)
    \/ wildcard_panic t (search_loop fuel t q qc (len q) st).
Proof.
  intros Hqc. induction fuel as [|fuel IH]; intros st Hst Hm; [lia|].
  cbn [search_loop]. unfold wildcard_panic.
  destruct (search_step_total q qc st Hqc Hst)
    as [(r & -> & Hr)|(Hnf & [->| ->])]; cbn [mbind res_bind].
  - destruct r as [st'|e].
    + destruct Hr as [Hst' Hm']. apply IH; [done|lia].
    + left. by exists e.
  - right. split; [done|by left].
  - right. split; [done|by right].
Qed.

Lemma root_valid : valid t (root t).
Proof.
  destruct (heap_ok_root t tree_heap_ok) as (nd0 & Hnd0).
  destruct tree_heap_ok as (-> & _). by exists 0%nat, nd0.
Qed.

Lemma root_wildcard_bound q :
  hasRootWildcard t = true ->
  (exists n calls,
      (n ← getChild t (root t) WildcardParamStart; bind_wildcard t q n 1)
      = Ok (n, calls) /\ valid t n)
  \/ wildcard_panic t (n ← getChild t (root t) WildcardParamStart;
                       bind_wildcard t q n 1).
Proof.
  intros Hrw.
  assert (Hnf : ~ wildcard_free t) by (intros [E _]; congruence).
  destruct Htree as ((Hok & _ & Hback) & _).
  destruct (Hback Hrw) as (c & Hc).
  destruct (heap_ok_root t Hok) as (nd0 & Hnd0).
  pose proof Hok as (-> & _).
  rewrite (getChild_child_of _ _ _ _ Hnd0), Hc. cbn [mbind res_bind].
  assert (Hvc : valid t (Some c)).
  { destruct (heap_ok_valid _ _ _ _ Hok Hc) as (ndc & Hndc). by exists c, ndc. }
  unfold wildcard_panic.
  destruct (bind_wildcard_outcome q (Some c) 1 Hvc) as [(calls & ->)|[->| ->]].
  - left. by exists (Some c), calls.
  - right. split; [done|by left].
  - right. split; [done|by right].
Qed.

Lemma search_finish_total q n pv :
  n = None \/ valid t n ->
  (exists r calls, search_finish t q n pv = Ok (r, calls)
                   /\ (r = None \/ valid t r))
  \/ wildcard_panic t (search_finish t q n pv).
Proof.
  intros Hn. unfold search_finish.
  assert (Hroot :
    (exists r calls,
        (if hasRootWildcard t
         then n ← getChild t (root t) WildcardParamStart; bind_wildcard t q n 1
         else Ok (None, [])) = Ok (r, calls)
        /\ (r = None \/ valid t r))
    \/ wildcard_panic t
         (if hasRootWildcard t
          then n ← getChild t (root t) WildcardParamStart; bind_wildcard t q n 1
          else Ok (None, []))).
  { destruct (hasRootWildcard t) eqn:Hrw.
    - destruct (root_wildcard_bound q Hrw) as [(r & calls & -> & Hv)|Hp]; [|by right].
      left. exists r, calls. split; [done|by right].
    - left. exists None, []. split; [done|by left]. }
  destruct Hn as [->|Hv]; [exact Hroot|].
  pose proof Hv as (a & nd & -> & Ha).
  rewrite (deref_Some _ _ _ Ha). cbn [mbind res_bind].
  destruct (end_ nd).
  { left. eexists _, _. split; [done|by right]. }
  destruct (findClosestParentWildcardNode_total (Some a) Hv) as (w & -> & Hw).
  cbn [mbind res_bind].
  destruct w as [w|]; [|exact Hroot].
  destruct Hw as [?|[Hvw Hnf]]; [done|].
  pose proof Hvw as (w' & wn & [= <-] & Hwn).
  rewrite (deref_Some _ _ _ Hwn). cbn [mbind res_bind]. unfold wildcard_panic.
  destruct (bind_wildcard_outcome q (Some w) (len (staticKey wn)) Hvw)
    as [(calls & ->)|[->| ->]].
  - left. exists (Some w), calls. split; [done|by right].
  - right. split; [done|by left].
  - right. split; [done|by right].
Qed.

Lemma size_all_nodes : size (all_nodes t) = length (nodes t).
Proof.
  unfold all_nodes. rewrite size_list_to_set.
  - by rewrite length_fmap, length_seq.
  - apply NoDup_fmap_2; [apply _|apply NoDup_seq].
Qed.

Lemma initial_measure q :
  (search_measure t q ∅ 1 < search_fuel t q)%nat.
Proof.
  unfold search_measure, search_fuel.
  assert (Hsize : (size (all_nodes t ∖ ∅) <= length (nodes t))%nat).
  { rewrite <- size_all_nodes. apply subseteq_size.
    intros x [Hx _]%elem_of_difference. done. }
  apply (Nat.mul_le_mono_r _ _ (String.length q + 2)) in Hsize.
  replace (Z.to_nat 1) with 1%nat by done. lia.
Qed.

(** [Search] returns on a trie built by insertion, unless one of its
    wildcard fallbacks panics. *)
Lemma Search_total q :
  within_ascii t q = true ->
  (exists n calls, Search t q = Ok (n, calls) /\ (n = None \/ valid t n))
  \/ wildcard_panic t (Search t q).
Proof.
  intros Hascii. unfold Search. cbv zeta.
  assert (Hfast : exists fast : bool,
             (if len q =? 0 then Ok true
              else if len q =? 1 then c ← byte_at q 0; Ok (Ascii.eqb c pathSepB)
              else Ok false) = Ok fast
             /\ (fast = false -> 1 <= len q)).
  { pose proof (len_nonneg q).
    destruct (len q =? 0) eqn:E0; [by exists true|]. apply Z.eqb_neq in E0.
    destruct (len q =? 1) eqn:E1.
    - destruct (byte_at_total q 0) as (c & ->); [lia|]. cbn [mbind res_bind].
      eexists. split; [done|]. lia.
    - exists false. split; [done|]. lia. }
  destruct Hfast as (fast & -> & Hlen). cbn [mbind res_bind].
  destruct root_valid as (r0 & nd0 & Hr0 & Hnd0). rewrite Hr0.
  destruct fast.
  - left. destruct (hasRootSlash t).
    + destruct (getChild_valid r0 nd0 pathSep Hnd0) as (c & -> & Hc).
      cbn [mbind res_bind]. by exists c, [].
    + destruct (hasRootWildcard t).
      * destruct (getChild_valid r0 nd0 WildcardParamStart Hnd0) as (c & -> & Hc).
        cbn [mbind res_bind]. by exists c, [].
      * exists None, []. split; [done|by left].
  - specialize (Hlen eq_refl).
    set (qc := if caseInsensitive t then ToLower q else q).
    assert (Hqc : len qc = len q).
    { unfold qc. fold (canon t q). by apply len_canon. }
    set (st0 := {| st_n := Some r0; st_start := 1; st_i := 1;
                   st_paramValues := nil_slice; st_visitedNodes := ∅ |}).
    assert (Hst0 : state_ok t q st0).
    { split; [by exists r0, nd0|]. simpl. lia. }
    unfold wildcard_panic.
    destruct (search_loop_total q qc (search_fuel t q) Hqc st0 Hst0 (initial_measure q))
      as [(e & -> & He)|(Hnf & [->| ->])]; cbn [mbind res_bind].
    + destruct e as [n calls|n pv].
      * left. by exists n, calls.
      * apply search_finish_total. exact He.
    + right. split; [done|by left].
    + right. split; [done|by right].
Qed.

End search_on_trees.

(** X8: on a trie built by inserting patterns none of which has a wildcard segment, [Search] returns for every request, which is ASCII when the trie is case-insensitive: it neither panics nor runs forever, with or without [searchUnvisitedParams]. *)
Theorem Search_returns_without_wildcards (opts : TrieOptions) (ps : list string)
    (t : Trie) (terms : list ptr) (q : string) :
  insert_all (NewTrieWithOptions opts) ps = Ok (t, terms) ->
  existsb wildcard_pattern ps = false ->
  within_ascii t q = true ->
  exists n calls, Search t q = Ok (n, calls).
Proof.
  intros Hb Hw Hascii.
  pose proof (built_tree_ok _ _ _ _ Hb) as Htree.
  assert (Hfree : wildcard_free t).
  { eapply insert_all_wildcard_free; [| |exact Hw|exact Hb].
    - apply NewTrieWithOptions_tree_ok.
    - apply NewTrieWithOptions_wildcard_free. }
  destruct (Search_total t Htree q Hascii) as [(n & calls & H & _)|[Hnf _]];
    [eauto|done].
Qed.

Lemma Search_returns_without_wildcards_witness :
  exists n calls,
    Search (built (options true true) ["/a/b/c/z"; "/a/:p1/c/d"; "/a/x+:y"]) "/A/b/C/d"
    = Ok (n, calls).
Proof.
  apply (Search_returns_without_wildcards (options true true)
           ["/a/b/c/z"; "/a/:p1/c/d"; "/a/x+:y"] _
           [Some 4%nat; Some 7%nat; Some 8%nat]).
  - vm_compute; reflexivity.
  - reflexivity.
  - reflexivity.
Defined.

(** X9: on every trie built by insertion [Search] ends, for every request, which is ASCII when the trie is case-insensitive: it returns, or it panics with an index or a slice out of range, which happens only when a pattern with a wildcard segment was inserted.  It never dereferences nil and its loops terminate. *)
Theorem Search_ends (opts : TrieOptions) (ps : list string)
    (t : Trie) (terms : list ptr) (q : string) :
  insert_all (NewTrieWithOptions opts) ps = Ok (t, terms) ->
  within_ascii t q = true ->
  (exists n calls, Search t q = Ok (n, calls))
  \/ (existsb wildcard_pattern ps = true
      /\ (Search t q = Panic IndexOutOfRange \/ Search t q = Panic SliceBounds)).
Proof.
  intros Hb Hascii.
  pose proof (built_tree_ok _ _ _ _ Hb) as Htree.
  destruct (Search_total t Htree q Hascii) as [(n & calls & H & _)|[Hnf Hp]];
    [left; eauto|].
  right. split; [|done].
  destruct (existsb wildcard_pattern ps) eqn:Hw; [done|]. exfalso. apply Hnf.
  eapply insert_all_wildcard_free; [| |exact Hw|exact Hb].
  - apply NewTrieWithOptions_tree_ok.
  - apply NewTrieWithOptions_wildcard_free.
Qed.

Lemma Search_ends_witness :
  (exists n calls, Search (built (options false false) ["/a/*p/b"]) "/a/x" = Ok (n, calls))
  \/ (existsb wildcard_pattern ["/a/*p/b"] = true
      /\ (Search (built (options false false) ["/a/*p/b"]) "/a/x" = Panic IndexOutOfRange
          \/ Search (built (options false false) ["/a/*p/b"]) "/a/x" = Panic SliceBounds)).
Proof.
  apply (Search_ends (options false false) ["/a/*p/b"] _ [Some 3%nat]).
  - vm_compute; reflexivity.
  - reflexivity.
Defined.

(** ** What a search can return *)

Lemma bind_wildcard_inv t q n from r calls :
  bind_wildcard t q n from = Ok (r, calls) ->
  r = n /\ exists nd, deref t n = Ok nd /\ paramKeys nd <> [].
Proof.
  unfold bind_wildcard. intros H.
  apply bind_Ok in H as (nd & Hnd & H).
  apply bind_Ok in H as (k & Hk & H).
  apply bind_Ok in H as (v & _ & H). simplify_eq.
  split; [done|]. exists nd. split; [done|].
  intros E. rewrite E in Hk. done.
Qed.

Lemma descended_exit t q qc end_q n start i pv vis e :
  descended t q qc end_q n start i pv vis = Ok (inr e) ->
  exists n' pv', e = Broke n' pv'.
Proof.
  intros H. unfold descended in H.
  destruct (i =? end_q); [|done].
  destruct (searchUnvisitedParams t); [|simplify_eq; eauto].
  apply bind_Ok in H as (nd & _ & H).
  destruct (negb (end_ nd)); [|simplify_eq; eauto].
  apply bind_Ok in H as ([[n' start'] i'] & _ & H).
  destruct n' as [c|]; [|simplify_eq; eauto].
  apply bind_Ok in H as (pv' & _ & H). simplify_eq; eauto.
Qed.

Lemma search_step_returned_node t q qc end_q st r calls :
  search_step t q qc end_q st = Ok (inr (Returned r calls)) ->
  (r = None /\ calls = [])
  \/ exists nd, deref t r = Ok nd /\ paramKeys nd <> [].
Proof.
  intros H. unfold search_step in H.
  apply bind_Ok in H as (at_sep & _ & H).
  destruct at_sep; [|done].
  apply bind_Ok in H as (s & _ & H).
  apply bind_Ok in H as (child & _ & H).
  assert (Hd : forall n start i pv vis,
             descended t q qc end_q n start i pv vis
             <> Ok (inr (Returned r calls))).
  { intros n start i pv vis Hd. apply descended_exit in Hd as (? & ? & ?). done. }
  destruct child as [c|]; [by apply Hd in H|].
  apply bind_Ok in H as ([child ex] & _ & H).
  destruct ex.
  { apply bind_Ok in H as (v & _ & H). by apply Hd in H. }
  apply bind_Ok in H as ([child' ex] & _ & H).
  destruct ex.
  { apply bind_Ok in H as (v & _ & H). by apply Hd in H. }
  apply bind_Ok in H as (nd & _ & H).
  destruct (childNamedParameter nd).
  { apply bind_Ok in H as (c & _ & H).
    apply bind_Ok in H as (v & _ & H). by apply Hd in H. }
  destruct (childWildcardParameter nd).
  { apply bind_Ok in H as (c & _ & H).
    apply bind_Ok in H as (v & _ & H). done. }
  apply bind_Ok in H as ([[unvisited start'] i'] & _ & H).
  destruct unvisited as [u|].
  { apply bind_Ok in H as (pv' & _ & H). by apply Hd in H. }
  apply bind_Ok in H as (w & _ & H).
  destruct w as [w|]; [|simplify_eq; by left].
  apply bind_Ok in H as (wn & _ & H).
  apply bind_Ok in H as ([w' calls'] & Hb & H). simplify_eq.
  right. by apply bind_wildcard_inv in Hb as (-> & ?).
Qed.

Lemma search_loop_returned_node fuel :
  forall t q qc end_q st r calls,
    search_loop fuel t q qc end_q st = Ok (Returned r calls) ->
    (r = None /\ calls = [])
    \/ exists nd, deref t r = Ok nd /\ paramKeys nd <> [].
Proof.
  induction fuel as [|fuel IH]; intros t q qc end_q st r calls H; [done|].
  cbn [search_loop] in H.
  apply bind_Ok in H as (x & Hstep & H).
  destruct x as [st'|e]; [by eapply IH|].
  simplify_eq. by eapply search_step_returned_node.
Qed.

Lemma search_finish_node t q n pv r calls :
  search_finish t q n pv = Ok (r, calls) ->
  (r = None /\ calls = [])
  \/ exists nd, deref t r = Ok nd /\ (end_ nd = true \/ paramKeys nd <> []).
Proof.
  intros H. unfold search_finish in H.
  apply bind_Ok in H as (is_end & He & H).
  destruct is_end.
  - apply bind_Ok in H as (nd & Hnd & H). simplify_eq.
    right. exists nd. split; [done|]. left.
    destruct r as [a|]; [|done].
    apply bind_Ok in He as (nd' & Hnd' & He). injection He as He. congruence.
  - apply bind_Ok in H as (w & _ & H).
    destruct w as [w|].
    + apply bind_Ok in H as (wn & _ & H).
      apply bind_wildcard_inv in H as (-> & nd & ? & ?). right. eauto.
    + destruct (hasRootWildcard t); [|simplify_eq; by left].
      apply bind_Ok in H as (c & _ & H).
      apply bind_wildcard_inv in H as (-> & nd & ? & ?). right. eauto.
Qed.

Lemma Search_node t q r calls :
  q <> "" -> q <> "/" ->
  Search t q = Ok (r, calls) ->
  (r = None /\ calls = [])
  \/ exists nd, deref t r = Ok nd /\ (end_ nd = true \/ paramKeys nd <> []).
Proof.
  intros Hq1 Hq2 H. unfold Search in H. cbv zeta in H.
  apply bind_Ok in H as (fast & Hfast & H).
  assert (fast = false) as ->.
  { destruct q as [|c q]; [done|].
    destruct q as [|c' q].
    - unfold len in Hfast. simpl in Hfast. unfold byte_at in Hfast. simpl in Hfast.
      injection Hfast as <-. apply Ascii.eqb_neq. intros ->. done.
    - rewrite !len_String in Hfast. pose proof (len_nonneg q).
      replace (1 + (1 + len q) =? 0) with false in Hfast
        by (symmetry; apply Z.eqb_neq; lia).
      replace (1 + (1 + len q) =? 1) with false in Hfast
        by (symmetry; apply Z.eqb_neq; lia).
      by simplify_eq. }
  apply bind_Ok in H as (e & Hloop & H).
  destruct e as [n cs|n pv].
  - simplify_eq. apply search_loop_returned_node in Hloop as [?|(nd & ? & ?)]; eauto.
  - by eapply search_finish_node.
Qed.

(** ** The keys of the nodes that end a pattern *)

Lemma Insert_nodes t p t' n :
  Insert t p [] = Ok (t', n) ->
  exists t0 m nd x,
    n = Some m
    /\ grows t t0
    /\ nodes t0 !! m = Some nd
    /\ t' = store t0 m x
    /\ end_ x = true /\ key x = p.
Proof.
  intros H.
  apply Insert_options_inv in H
    as (t0 & pk0 & n0 & m & nd & static & segs & _ & _ & Hloop & -> & -> & Hm & _ & ->).
  apply insert_loop_grows in Hloop.
  exists t0, m, nd, (finished nd pk0 p static "" None None).
  split; [done|]. split; [|done].
  destruct (p =? pathSep)%string; [|done].
  destruct Hloop as (? & ? & ?). by split.
Qed.

Lemma Insert_terminals t p t' n b nd' :
  Insert t p [] = Ok (t', n) ->
  nodes t' !! b = Some nd' ->
  end_ nd' = true ->
  (n = Some b /\ key nd' = p)
  \/ exists nd, nodes t !! b = Some nd /\ end_ nd = true /\ key nd = key nd'.
Proof.
  intros H Hb He.
  apply Insert_nodes in H as (t0 & m & ndm & x & -> & (Hlen & Hkeep & Hnew) & Hm & -> & Hx & Hk).
  rewrite store_nodes in Hb.
  destruct (decide (b = m)) as [->|Hne].
  - rewrite list_lookup_insert_eq in Hb by (by eapply lookup_lt_Some).
    left. by simplify_eq.
  - rewrite list_lookup_insert_ne in Hb by done. right.
    destruct (decide (b < length (nodes t))%nat) as [Hlt|Hge].
    + destruct (lookup_lt_is_Some_2 _ _ Hlt) as (nd & Hnd).
      destruct (Hkeep _ _ Hnd) as (nd2 & Hnd2 & Hpl & _).
      replace nd2 with nd' in * by congruence.
      exists nd. split; [done|]. unfold payload in Hpl. split; congruence.
    + exfalso. assert (Hz : payload nd' = payload zeroNode) by (eapply Hnew; [done|lia]).
      apply payload_end in Hz. simpl in Hz. congruence.
Qed.

Lemma insert_all_terminals ps :
  forall t t' terms b nd',
    insert_all t ps = Ok (t', terms) ->
    nodes t' !! b = Some nd' ->
    end_ nd' = true ->
    key nd' ∈ ps
    \/ exists nd, nodes t !! b = Some nd /\ end_ nd = true /\ key nd = key nd'.
Proof.
  induction ps as [|p ps IH]; intros t t' terms b nd' H Hb He.
  - simpl in H. simplify_eq. right. eauto.
  - cbn [insert_all] in H.
    apply bind_Ok in H as ([t1 n1] & H1 & H).
    apply bind_Ok in H as ([t2 ns] & H2 & H). simplify_eq.
    destruct (IH _ _ _ _ _ H2 Hb He) as [Hin|(nd1 & Hnd1 & He1 & Hk1)].
    + left. by right.
    + destruct (Insert_terminals _ _ _ _ _ _ H1 Hnd1 He1)
        as [[_ Hk]|(nd & Hnd & Hend & Hk)].
      * left. rewrite <- Hk1, Hk. by left.
      * right. exists nd. split; [done|]. split; [done|]. congruence.
Qed.

(** X10: on a trie built by insertion, what [Search] returns for a request other than the empty one and [/] is nil, and then no call of [params.Set] was made, or a node that ends one of the patterns inserted. *)
Theorem Search_finds_inserted_only (opts : TrieOptions) (ps : list string)
    (t : Trie) (terms : list ptr) (q : string) (n : ptr) (calls : sets) :
  insert_all (NewTrieWithOptions opts) ps = Ok (t, terms) ->
  q <> "" -> q <> "/" ->
  Search t q = Ok (n, calls) ->
  (n = None /\ calls = [])
  \/ exists p, p ∈ ps /\ terminal_of t n p.
Proof.
  intros Hb Hq1 Hq2 Hs.
  destruct (Search_node t q n calls Hq1 Hq2 Hs) as [?|(nd & Hnd & Hend)]; [by left|].
  right.
  pose proof (built_tree_ok _ _ _ _ Hb) as Htree.
  destruct n as [a|]; [|done].
  assert (Ha : nodes t !! a = Some nd).
  { unfold deref in Hnd. destruct (nodes t !! a); by simplify_eq. }
  assert (He : end_ nd = true).
  { destruct Hend as [?|Hpk]; [done|].
    destruct (tree_node_ok t Htree a nd Ha) as (Hz & _).
    destruct (end_ nd) eqn:E; [done|].
    specialize (Hz eq_refl). unfold payload in Hz. simpl in Hz. by simplify_eq. }
  destruct (insert_all_terminals _ _ _ _ _ _ Hb Ha He) as [Hin|(nd0 & Hnd0 & He0 & _)].
  - exists (key nd). split; [done|]. by exists nd.
  - destruct a; simpl in Hnd0; [|done]. by simplify_eq.
Qed.

Lemma Search_finds_inserted_only_witness :
  (Some 7%nat = None /\ [("p1", "b")] = ([] : sets))
  \/ exists p, p ∈ ["/a/b/c/z"; "/a/:p1/c/d"]
               /\ terminal_of (built (options false true) ["/a/b/c/z"; "/a/:p1/c/d"])
                              (Some 7%nat) p.
Proof.
  apply (Search_finds_inserted_only (options false true)
           ["/a/b/c/z"; "/a/:p1/c/d"]
           (built (options false true) ["/a/b/c/z"; "/a/:p1/c/d"])
           [Some 4%nat; Some 7%nat] "/a/b/c/d" (Some 7%nat) [("p1", "b")]).
  - vm_compute; reflexivity.
  - discriminate.
  - discriminate.
  - vm_compute; reflexivity.
Defined.

(** ** Static patterns stay found *)

Lemma keeps_refl t : keeps t t.
Proof. split; [done|]. split; [done|]. eauto. Qed.

Lemma keeps_trans t1 t2 t3 : keeps t1 t2 -> keeps t2 t3 -> keeps t1 t3.
Proof.
  intros (C1 & M1 & E1) (C2 & M2 & E2).
  split; [congruence|]. split; [eauto|].
  intros m nd Hm He. destruct (E1 _ _ Hm He) as (nd2 & Hm2 & He2). eauto.
Qed.

Lemma Insert_keeps t p t' n :
  heap_ok t -> Insert t p [] = Ok (t', n) -> heap_ok t' /\ keeps t t'.
Proof.
  intros Hok H.
  pose proof H as H'. apply Insert_inv in H' as [_ H'].
  apply insert_inv in H'
    as (? & ? & ? & _ & _ & _ & _ & _ & Hok' & Hci & _ & _ & _ & Hmono & _); [|done].
  split; [done|]. split; [done|]. split; [done|].
  intros b nd Hb He.
  apply Insert_nodes in H
    as (t0 & m & ndm & fin & -> & (_ & Hkeep & _) & Hm & -> & Hx & _).
  rewrite store_nodes.
  destruct (decide (b = m)) as [->|Hne].
  - exists fin. split; [|done]. apply list_lookup_insert_eq. by eapply lookup_lt_Some.
  - destruct (Hkeep _ _ Hb) as (nd2 & Hb2 & Hpl & _).
    exists nd2. rewrite list_lookup_insert_ne by done. split; [done|].
    apply payload_end in Hpl. congruence.
Qed.

Lemma insert_all_keeps ps :
  forall t t' terms,
    heap_ok t -> insert_all t ps = Ok (t', terms) -> heap_ok t' /\ keeps t t'.
Proof.
  induction ps as [|p ps IH]; intros t t' terms Hok H.
  - simpl in H. simplify_eq. split; [done|apply keeps_refl].
  - cbn [insert_all] in H.
    apply bind_Ok in H as ([t1 n1] & H1 & H).
    apply bind_Ok in H as ([t2 ns] & H2 & H). simplify_eq.
    destruct (Insert_keeps _ _ _ _ Hok H1) as [Hok1 K1].
    destruct (IH _ _ _ Hok1 H2) as [Hok2 K2].
    split; [done|]. by eapply keeps_trans.
Qed.

Lemma insert_all_nth ps :
  forall t t' terms i p,
    heap_ok t ->
    insert_all t ps = Ok (t', terms) ->
    ps !! i = Some p ->
    exists t1 t2 n,
      heap_ok t1
      /\ Insert t1 p [] = Ok (t2, n)
      /\ terms !! i = Some n
      /\ heap_ok t' /\ keeps t2 t'.
Proof.
  induction ps as [|p0 ps IH]; intros t t' terms i p Hok H Hi; [done|].
  cbn [insert_all] in H.
  apply bind_Ok in H as ([t1 n1] & H1 & H).
  apply bind_Ok in H as ([t2 ns] & H2 & H). simplify_eq.
  destruct (Insert_keeps _ _ _ _ Hok H1) as [Hok1 K1].
  destruct i as [|i].
  - simpl in Hi. simplify_eq.
    destruct (insert_all_keeps _ _ _ _ Hok1 H2) as [Hok2 K2].
    by exists t, t1, n1.
  - simpl in Hi. destruct (IH _ _ _ _ _ Hok1 H2 Hi) as (ta & tb & n & ? & ? & ? & ? & ?).
    by exists ta, tb, n.
Qed.

(** X11: on a trie built by insertion, a static pattern that was inserted is found by [SearchPrefix], and by [Search] with no call of [params.Set], at the node its [Insert] returned, whatever was inserted before and after it; when the trie is case-insensitive, so is every request with the same segments once lowered, for [Search] if the request is ASCII. *)
Theorem static_pattern_stays_found (opts : TrieOptions) (ps : list string)
    (t : Trie) (terms : list ptr) (i : nat) (segs segs' : list string) :
  insert_all (NewTrieWithOptions opts) ps = Ok (t, terms) ->
  ps !! i = Some (path_of segs) ->
  segs <> [] ->
  forallb static_segment segs = true ->
  forallb static_segment segs' = true ->
  canon t <$> segs' = canon t <$> segs ->
  exists n nd,
    terms !! i = Some (Some n)
    /\ nodes t !! n = Some nd /\ end_ nd = true
    /\ SearchPrefix t (path_of segs') = Ok (Some n)
    /\ (within_ascii t (path_of segs') = true ->
        Search t (path_of segs') = Ok (Some n, [])).
Proof.
  intros Hb Hi Hne Hst Hst' Hcanon.
  destruct (NewTrieWithOptions_ok opts) as [Hok0 _].
  destruct (insert_all_nth _ _ _ _ _ _ Hok0 Hb Hi)
    as (t1 & t2 & n & Hok1 & Hins & Hn & Hok & (Hci & Hmono & Hend)).
  pose proof (slowPathSplit_path_of segs Hne Hst) as Hsplit.
  destruct (forallb_static_inv _ Hst) as (Hplain & _).
  destruct (insert_static t1 (path_of segs) segs Hok1 (path_of_nonempty _ Hne)
              Hsplit Hplain)
    as (t2' & m & ndm & Hins' & Hm & He & _ & _ & _ & _ & Hwalk).
  rewrite Hins in Hins'. injection Hins' as <- ->.
  destruct (Hend _ _ Hm He) as (nd & Hnd & Hend').
  assert (Hwalk' : walk t 0%nat (canon t <$> segs') = Some m).
  { rewrite Hcanon. eapply walk_extends; [exact Hmono|].
    assert (Ec : canon t <$> segs = canon t2 <$> segs).
    { apply list_fmap_ext. intros ? y _. unfold canon. by rewrite Hci. }
    unfold fmap in Ec. unfold fmap. by rewrite Ec. }
  assert (Hne' : segs' <> []).
  { intros ->. destruct segs; [done|]. simpl in Hcanon. discriminate. }
  exists m, nd. split; [done|]. split; [done|]. split; [done|]. split.
  - rewrite (SearchPrefix_walk t _ segs' Hok); [by rewrite Hwalk'|].
    by apply slowPathSplit_path_of.
  - intros Hascii. eapply search_static; try done. by destruct Hok as (? & _).
Qed.

Lemma static_pattern_stays_found_witness :
  exists n nd,
    [Some 2%nat; Some 3%nat; Some 4%nat] !! 0%nat = Some (Some n)
    /\ nodes (built (options true true) ["/Users/All"; "/users/:id"; "/users/*rest"]) !! n
       = Some nd
    /\ end_ nd = true
    /\ SearchPrefix (built (options true true) ["/Users/All"; "/users/:id"; "/users/*rest"])
                    (path_of ["USERS"; "all"]) = Ok (Some n)
    /\ Search (built (options true true) ["/Users/All"; "/users/:id"; "/users/*rest"])
              (path_of ["USERS"; "all"]) = Ok (Some n, []).
Proof.
  destruct (static_pattern_stays_found (options true true)
              ["/Users/All"; "/users/:id"; "/users/*rest"]
              (built (options true true) ["/Users/All"; "/users/:id"; "/users/*rest"])
              [Some 2%nat; Some 3%nat; Some 4%nat] 0%nat ["Users"; "All"] ["USERS"; "all"])
    as (n & nd & H1 & H2 & H3 & H4 & H5).
  - vm_compute; reflexivity.
  - reflexivity.
  - discriminate.
  - reflexivity.
  - reflexivity.
  - reflexivity.
  - exists n, nd. repeat split; try assumption. apply H5. reflexivity.
Defined.

(** ** The path and the parameters of a pattern *)

Lemma walk_kids t t' keys :
  kids t' = kids t -> forall a, walk t' a keys = walk t a keys.
Proof.
  intros Hk. induction keys as [|k keys IH]; intros a; [done|].
  simpl. unfold child_of. rewrite Hk.
  destruct (kids t !! a) as [mp|]; [|done].
  destruct (mp !! k); [apply IH|done].
Qed.

Lemma walk_shape t t' keys :
  shape t' = shape t -> forall a, walk t' a keys = walk t a keys.
Proof.
  intros Hsh. induction keys as [|k keys IH]; intros a; [done|].
  simpl. rewrite (shape_child_of _ _ _ _ Hsh).
  destruct (child_of t a k); [apply IH|done].
Qed.

Lemma pattern_keys_ci t t' segs :
  caseInsensitive t' = caseInsensitive t -> pattern_keys t' segs = pattern_keys t segs.
Proof.
  intros Hci. unfold pattern_keys. apply list_fmap_ext.
  intros ? s _. unfold canon. by rewrite Hci.
Qed.

Lemma insert_loop_path segs :
  forall t a nd pk i t' n' pk',
    heap_ok t ->
    nodes t !! a = Some nd ->
    insert_loop t (Some a) pk i segs = Ok (t', n', pk') ->
    exists m, n' = Some m
              /\ walk t' a (pattern_keys t segs) = Some m
              /\ pk' = (pk ++ pattern_params segs)%list.
Proof.
  induction segs as [|s rest IH]; intros t a nd pk i t' n' pk' Hok Hnd H.
  - simpl in H. simplify_eq. exists a. by rewrite app_nil_r.
  - cbn [insert_loop] in H.
    apply bind_Ok in H as ([[t1 n1] pk1] & Hseg & H).
    destruct (insert_segment_inv _ _ _ _ _ _ _ _ _ Hok Hnd Hseg)
      as (c & k0 & -> & _ & _ & _ & Hok1 & Hext1 & _).
    apply insert_segment_nodes in Hseg
      as (a' & nd0 & nd' & k & [= <-] & Hnd0 & _ & _ & _ & _ & _ & _ & Hcase & -> & -> & Hnd' & _).
    assert (Hchild : child_of t1 a (canon t (segment_key s)) = Some c).
    { rewrite (child_of_node _ _ _ _ Hnd').
      destruct Hcase as [(c' & Hc' & -> & [= <-] & _)|(_ & -> & [= <-] & _)]; [done|].
      apply lookup_insert_eq. }
    destruct (heap_ok_valid _ _ _ _ Hok1 Hchild) as (ndc & Hndc).
    destruct (IH _ _ _ _ _ _ _ _ Hok1 Hndc H) as (m & -> & Hwalk & ->).
    destruct (insert_loop_inv _ _ _ _ _ _ _ _ _ Hok1 Hndc H)
      as (? & ? & _ & _ & _ & Hext & _).
    destruct Hext as (_ & _ & _ & _ & _ & Hmono).
    destruct Hext1 as (_ & Hci & _).
    exists m. split; [done|]. split.
    + cbn [pattern_keys fmap list_fmap walk].
      rewrite (Hmono _ _ _ Hchild).
      rewrite (pattern_keys_ci _ _ rest Hci) in Hwalk. exact Hwalk.
    + unfold pattern_params. cbn [fmap list_fmap concat]. by rewrite app_assoc.
Qed.

Lemma Insert_path t p segs t' n :
  heap_ok t ->
  slowPathSplit p = Ok segs ->
  Insert t p [] = Ok (t', n) ->
  exists m nd,
    n = Some m
    /\ nodes t' !! m = Some nd
    /\ end_ nd = true /\ key nd = p
    /\ paramKeys nd = pattern_params segs
    /\ walk t' 0%nat (pattern_keys t' segs) = Some m.
Proof.
  intros Hok Hsplit H.
  apply Insert_options_inv in H
    as (t0 & pk0 & n0 & m & nd & static & segs' & _ & Hsplit' & Hloop & -> & -> & Hm & _ & ->).
  replace segs' with segs in * by congruence.
  set (t00 := if (p =? pathSep)%string then set_hasRootSlash true t else t) in *.
  assert (Hok00 : heap_ok t00).
  { unfold t00. destruct (p =? pathSep)%string; [by apply heap_ok_set_hasRootSlash|done]. }
  destruct (heap_ok_root _ Hok00) as (nd0 & Hnd0).
  assert (Hroot : root t = Some 0%nat) by (by destruct Hok).
  rewrite Hroot in Hloop.
  destruct (insert_loop_path _ _ _ _ _ _ _ _ _ Hok00 Hnd0 Hloop) as (m' & [= <-] & Hwalk & ->).
  destruct (insert_loop_inv _ _ _ _ _ _ _ _ _ Hok00 Hnd0 Hloop)
    as (? & ? & _ & _ & _ & (_ & Hci & _) & _).
  exists m, (finished nd (pattern_params segs) p static "" None None).
  split; [done|]. split; [by eapply store_lookup|].
  split; [done|]. split; [done|]. split; [done|].
  destruct (store_shape t0 m nd (finished nd (pattern_params segs) p static "" None None) Hm eq_refl)
    as [Hsh _].
  rewrite (walk_shape _ _ _ Hsh).
  rewrite (pattern_keys_ci t00 _ segs); [done|].
  transitivity (caseInsensitive t0); [done|done].
Qed.

(** X12: on a well-formed trie, the node [Insert] returns for a pattern is the one reached from the root along the keys of its segments (the mark alone for a named or wildcard parameter, the literal with its mark for a prefix or suffix parameter, the segment for a static one, lowered when the trie is case-insensitive), and its [paramKeys] are the parameter names of the segments, in order. *)
Theorem Insert_records_pattern (t : Trie) (p : string) (segs : list string)
    (t' : Trie) (n : ptr) :
  heap_ok t ->
  slowPathSplit p = Ok segs ->
  Insert t p [] = Ok (t', n) ->
  exists m nd,
    n = Some m
    /\ nodes t' !! m = Some nd
    /\ end_ nd = true /\ key nd = p
    /\ paramKeys nd = pattern_params segs
    /\ walk t' 0%nat (pattern_keys t' segs) = Some m.
Proof. apply Insert_path. Qed.

Lemma Insert_records_pattern_witness :
  (exists m nd,
      Some 5%nat = Some m
      /\ nodes (built (options false false) ["/files/:dir/img+:name/x-:.png/*rest"]) !! m
         = Some nd
      /\ end_ nd = true /\ key nd = "/files/:dir/img+:name/x-:.png/*rest"
      /\ paramKeys nd = pattern_params ["files"; ":dir"; "img+:name"; "x-:.png"; "*rest"]
      /\ walk (built (options false false) ["/files/:dir/img+:name/x-:.png/*rest"]) 0%nat
           (pattern_keys (built (options false false) ["/files/:dir/img+:name/x-:.png/*rest"])
                         ["files"; ":dir"; "img+:name"; "x-:.png"; "*rest"]) = Some m)
  /\ pattern_params ["files"; ":dir"; "img+:name"; "x-:.png"; "*rest"]
     = ["dir"; "name"; "x"; "rest"]
  /\ pattern_keys NewTrie ["files"; ":dir"; "img+:name"; "x-:.png"; "*rest"]
     = ["files"; ":"; "img+:"; "-:.png"; "*"].
Proof.
  split; [|split; reflexivity].
  apply (Insert_records_pattern NewTrie "/files/:dir/img+:name/x-:.png/*rest"
           ["files"; ":dir"; "img+:name"; "x-:.png"; "*rest"]
           (built (options false false) ["/files/:dir/img+:name/x-:.png/*rest"])
           (Some 5%nat)).
  - by destruct (NewTrieWithOptions_ok (options false false)) as [H _].
  - reflexivity.
  - vm_compute; reflexivity.
Defined.

Lemma insert_segment_follow t a nd pk i s c t' n' pk' :
  nodes t !! a = Some nd ->
  child_of t a (canon t (segment_key s)) = Some c ->
  insert_segment t (Some a) pk i s = Ok (t', n', pk') ->
  n' = Some c /\ shape t' = shape t.
Proof.
  intros Hnd Hc H.
  unfold insert_segment in H.
  apply bind_Ok in H as (c0 & Hc0 & H).
  apply bind_Ok in H as (t1 & H1 & H).
  apply bind_Ok in H as (t2 & H2 & H).
  apply bind_Ok in H as ([[t3 pk3] s3] & H3 & H).
  apply bind_Ok in H as ([t4 n4] & H4 & H). simplify_eq.
  destruct (register_segment_key _ _ _ _ _ _ _ _ Hc0 H3) as (-> & _ & _).
  apply register_segment_inv in H3 as (Hs3 & _).
  updates_keep.
  assert (Hs : shape t3 = shape t) by congruence.
  assert (Hc3 : child_of t3 a (canon t3 (segment_key s)) = Some c).
  { rewrite (shape_child_of _ _ _ _ Hs). unfold canon in *.
    replace (caseInsensitive t3) with (caseInsensitive t); [done|].
    unfold shape in Hs. congruence. }
  apply child_of_Some in Hc3 as (nd3 & Hnd3 & Hc3).
  apply (descend_or_create_nodes _ _ _ _ _ _ Hnd3) in H4
    as [(c' & Hc' & -> & ->)|(Hnone & _)].
  - unfold canon in Hc3. split; [congruence|done].
  - unfold canon in Hc3. congruence.
Qed.

Lemma insert_loop_follow segs :
  forall t a nd pk i m t' n' pk',
    heap_ok t ->
    nodes t !! a = Some nd ->
    walk t a (pattern_keys t segs) = Some m ->
    insert_loop t (Some a) pk i segs = Ok (t', n', pk') ->
    n' = Some m /\ shape t' = shape t.
Proof.
  induction segs as [|s rest IH]; intros t a nd pk i m t' n' pk' Hok Hnd Hw H.
  - simpl in *. by simplify_eq.
  - cbn [insert_loop] in H. cbn [pattern_keys fmap list_fmap walk] in Hw.
    destruct (child_of t a (canon t (segment_key s))) as [c|] eqn:Hc; [|done].
    apply bind_Ok in H as ([[t1 n1] pk1] & Hseg & H).
    destruct (insert_segment_follow _ _ _ _ _ _ _ _ _ _ Hnd Hc Hseg) as [-> Hs1].
    pose proof (shape_heap_ok _ _ Hs1 Hok) as Hok1.
    pose proof Hc as Hc1. rewrite <- (shape_child_of _ _ _ _ Hs1) in Hc1.
    destruct (heap_ok_valid _ _ _ _ Hok1 Hc1) as (ndc & Hndc).
    assert (Hw1 : walk t1 c (pattern_keys t1 rest) = Some m).
    { rewrite (walk_shape _ _ _ Hs1).
      rewrite (pattern_keys_ci t t1); [done|]. unfold shape in Hs1. congruence. }
    destruct (IH _ _ _ _ _ _ _ _ _ Hok1 Hndc Hw1 H) as [-> Hs].
    split; [done|congruence].
Qed.

(** X13: two patterns whose segments have the same keys end at the same node: inserting the second after the first returns the node of the first and replaces the key and the parameter names recorded there, without allocating a node or adding a child. *)
Theorem same_keys_same_node (t : Trie) (p1 p2 : string) (segs1 segs2 : list string)
    (t1 t2 : Trie) (n1 n2 : ptr) :
  heap_ok t ->
  slowPathSplit p1 = Ok segs1 ->
  slowPathSplit p2 = Ok segs2 ->
  pattern_keys t segs1 = pattern_keys t segs2 ->
  Insert t p1 [] = Ok (t1, n1) ->
  Insert t1 p2 [] = Ok (t2, n2) ->
  n2 = n1
  /\ terminal_of t2 n1 p2
  /\ paramKeys (node_at t2 n1) = pattern_params segs2
  /\ length (nodes t2) = length (nodes t1)
  /\ kids t2 = kids t1.
Proof.
  intros Hok Hs1 Hs2 Hkeys H1 H2.
  destruct (Insert_keeps _ _ _ _ Hok H1) as [Hok1 (Hci1 & _)].
  destruct (Insert_path _ _ _ _ _ Hok Hs1 H1) as (m1 & nd1 & -> & _ & _ & _ & _ & Hw1).
  rewrite (pattern_keys_ci t t1 segs1 Hci1), Hkeys,
    <- (pattern_keys_ci t t1 segs2 Hci1) in Hw1.
  destruct (Insert_path _ _ _ _ _ Hok1 Hs2 H2)
    as (m2 & nd2 & -> & Hnd2 & He2 & Hk2 & Hp2 & _).
  apply Insert_options_inv in H2
    as (t0 & pk0 & n0 & m & nd & static & segs' & _ & Hsplit' & Hloop & -> & [= <-]
        & Hm & _ & ->).
  replace segs' with segs2 in * by congruence.
  set (t00 := if (p2 =? pathSep)%string then set_hasRootSlash true t1 else t1) in *.
  assert (Hok00 : heap_ok t00).
  { unfold t00. destruct (p2 =? pathSep)%string; [by apply heap_ok_set_hasRootSlash|done]. }
  assert (Hk00 : kids t00 = kids t1 /\ caseInsensitive t00 = caseInsensitive t1
                 /\ length (nodes t00) = length (nodes t1)).
  { unfold t00. by destruct (p2 =? pathSep)%string. }
  destruct Hk00 as (Hk00 & Hci00 & Hlen00).
  destruct (heap_ok_root _ Hok00) as (nd0 & Hnd0).
  assert (Hroot : root t1 = Some 0%nat) by (by destruct Hok1).
  rewrite Hroot in Hloop.
  assert (Hw00 : walk t00 0%nat (pattern_keys t00 segs2) = Some m1).
  { rewrite (walk_kids _ _ _ Hk00), (pattern_keys_ci t1 t00 segs2 Hci00). exact Hw1. }
  destruct (insert_loop_follow _ _ _ _ _ _ _ _ _ _ Hok00 Hnd0 Hw00 Hloop)
    as [[= ->] Hs0].
  split; [done|]. split; [|split; [|split]].
  - exists nd2. split; [by apply deref_Some|done].
  - unfold node_at. by rewrite (deref_Some _ _ _ Hnd2).
  - rewrite store_nodes, length_insert, (shape_length _ _ Hs0). exact Hlen00.
  - set (x := foldl (fun nd1 (o : InsertOption) => o nd1)
                (finished nd pk0 p2 static "" None None) []).
    destruct (store_shape t0 m1 nd x Hm eq_refl) as [Hsh _].
    transitivity (kids t0); [unfold shape in Hsh; congruence|].
    transitivity (kids t00); [unfold shape in Hs0; congruence|done].
Qed.

Lemma same_keys_same_node_witness :
  Some 2%nat = Some 2%nat
  /\ terminal_of (built (options false false) ["/users/:id"; "/users/:name"])
                 (Some 2%nat) "/users/:name"
  /\ paramKeys (node_at (built (options false false) ["/users/:id"; "/users/:name"])
                        (Some 2%nat))
     = pattern_params ["users"; ":name"]
  /\ length (nodes (built (options false false) ["/users/:id"; "/users/:name"]))
     = length (nodes (built (options false false) ["/users/:id"]))
  /\ kids (built (options false false) ["/users/:id"; "/users/:name"])
     = kids (built (options false false) ["/users/:id"]).
Proof.
  apply (same_keys_same_node NewTrie "/users/:id" "/users/:name"
           ["users"; ":id"] ["users"; ":name"]
           (built (options false false) ["/users/:id"])
           (built (options false false) ["/users/:id"; "/users/:name"])).
  - by destruct (NewTrieWithOptions_ok (options false false)) as [H _].
  - reflexivity.
  - reflexivity.
  - reflexivity.
  - vm_compute; reflexivity.
  - vm_compute; reflexivity.
Defined.

(** ** The text before the first separator *)

Lemma Split_head x r :
  no_slash x = true ->
  Split (x +:+ String pathSepB r) pathSepB = x :: Split r pathSepB.
Proof.
  induction x as [|c x IH]; intros Hx.
  - by rewrite app_nil_l.
  - simpl in Hx. apply andb_true_iff in Hx as [Hc Hx].
    apply negb_true_iff in Hc.
    rewrite app_cons. cbn [Split]. rewrite Hc. by rewrite IH.
Qed.

Lemma list_slice_from_1 {A} (h : A) (l : list A) : list_slice_from (h :: l) 1 = Ok l.
Proof.
  unfold list_slice_from.
  replace (Z.of_nat (length (h :: l)) <? 1) with false
    by (symmetry; apply Z.ltb_ge; simpl; lia).
  done.
Qed.

Lemma slowPathSplit_after_head x r :
  no_slash x = true ->
  r <> "" ->
  exists segs,
    slowPathSplit (x +:+ pathSep +:+ r) = Ok segs
    /\ forall y, no_slash y = true -> slowPathSplit (y +:+ pathSep +:+ r) = Ok segs.
Proof.
  intros Hx Hr. destruct (str_snoc r Hr) as (a & c & ->).
  assert (E : forall y, y +:+ pathSep +:+ a +:+ String c ""
                        = (y +:+ pathSep +:+ a) +:+ String c "").
  { intros y. by rewrite !app_str_assoc. }
  destruct (Ascii.eqb_spec c pathSepB) as [->|Hc].
  - exists (Split a pathSepB).
    assert (G : forall y, no_slash y = true ->
                slowPathSplit (y +:+ pathSep +:+ a +:+ String pathSepB "")
                = Ok (Split a pathSepB)).
    { intros y Hy. rewrite E.
      change (String pathSepB "") with pathSep.
      rewrite slowPathSplit_trailing_sep.
      - unfold pathSep at 1. rewrite app_cons, app_nil_l.
        rewrite (Split_head _ _ Hy). apply list_slice_from_1.
      - destruct y; [|done]. by rewrite app_nil_l. }
    split; [by apply G|exact G].
  - exists (Split (a +:+ String c "") pathSepB).
    assert (G : forall y, no_slash y = true ->
                slowPathSplit (y +:+ pathSep +:+ a +:+ String c "")
                = Ok (Split (a +:+ String c "") pathSepB)).
    { intros y Hy. rewrite E, (slowPathSplit_not_sep_last _ _ Hc), <- E.
      unfold pathSep at 1. rewrite app_cons, app_nil_l.
      rewrite (Split_head _ _ Hy). apply list_slice_from_1. }
    split; [by apply G|exact G].
Qed.

Lemma slowPathSplit_no_sep p :
  no_slash p = true -> p <> "" -> slowPathSplit p = Ok [].
Proof.
  intros Hp Hne. destruct (str_snoc p Hne) as (a & c & ->).
  rewrite no_slash_app in Hp. apply andb_true_iff in Hp as [Ha Hc].
  simpl in Hc. rewrite andb_true_r in Hc.
  apply negb_true_iff, Ascii.eqb_neq in Hc.
  rewrite (slowPathSplit_not_sep_last _ _ Hc).
  assert (E : forall s, no_slash s = true -> Split s pathSepB = [s]).
  { clear. induction s as [|c s IH]; intros H; [done|].
    simpl in H. apply andb_true_iff in H as [Hc Hs].
    apply negb_true_iff in Hc. cbn [Split]. rewrite Hc. by rewrite (IH Hs). }
  rewrite E; [apply list_slice_from_1|].
  rewrite no_slash_app, Ha. simpl. by rewrite (proj2 (Ascii.eqb_neq _ _) Hc).
Qed.

(** X14: [slowPathSplit] drops what precedes the first separator: a pattern or prefix [x/r], with no separator in [x] and [r] not empty, has the segments of [/r], is inserted and looked up as [/r] is, but for the key recorded; a text with no separator has no segment, so that [SearchPrefix] returns the root. *)
Theorem leading_text_is_ignored (t : Trie) (x r tag : string)
    (data handler : option nat) :
  no_slash x = true ->
  r <> "" ->
  slowPathSplit (x +:+ pathSep +:+ r) = slowPathSplit (pathSep +:+ r)
  /\ same_insertion (insert t (x +:+ pathSep +:+ r) tag data handler)
                    (insert t (pathSep +:+ r) tag data handler)
  /\ SearchPrefix t (x +:+ pathSep +:+ r) = SearchPrefix t (pathSep +:+ r)
  /\ (x <> "" ->
      slowPathSplit x = Ok [] /\ SearchPrefix t x = Ok (root t)).
Proof.
  intros Hx Hr.
  destruct (slowPathSplit_after_head x r Hx Hr) as (segs & Hs & Hall).
  pose proof (Hall "" eq_refl) as Hs0. rewrite app_nil_l in Hs0.
  assert (Hne : forall y, (y +:+ pathSep +:+ r =? pathSep)%string = false).
  { intros y. apply String.eqb_neq. intros E.
    destruct y as [|c y].
    - rewrite app_nil_l in E. unfold pathSep in E. rewrite app_cons, app_nil_l in E.
      by injection E.
    - rewrite app_cons in E. injection E as _ E. destruct y; discriminate. }
  split; [by rewrite Hs, Hs0|]. split; [|split].
  - unfold insert. rewrite Hs, Hs0. cbn [mbind res_bind].
    rewrite (Hne x). pose proof (Hne "") as E0. rewrite app_nil_l in E0. rewrite E0.
    destruct (insert_loop t (root t) [] 0 segs) as [[[t1 n1] pk1]| |]; [|done|done].
    cbn [mbind res_bind]. apply insert_finish_same.
  - unfold SearchPrefix. by rewrite Hs, Hs0.
  - intros Hxne. pose proof (slowPathSplit_no_sep x Hx Hxne) as E.
    split; [done|]. unfold SearchPrefix. by rewrite E.
Qed.

Lemma leading_text_is_ignored_witness :
  slowPathSplit ("GET" +:+ pathSep +:+ "users/7") = slowPathSplit (pathSep +:+ "users/7")
  /\ same_insertion (insert NewTrie ("GET" +:+ pathSep +:+ "users/7") "" None None)
                    (insert NewTrie (pathSep +:+ "users/7") "" None None)
  /\ SearchPrefix NewTrie ("GET" +:+ pathSep +:+ "users/7")
     = SearchPrefix NewTrie (pathSep +:+ "users/7")
  /\ ("GET" <> "" ->
      slowPathSplit "GET" = Ok [] /\ SearchPrefix NewTrie "GET" = Ok (root NewTrie)).
Proof.
  apply (leading_text_is_ignored NewTrie "GET" "users/7" "" None None).
  - reflexivity.
  - discriminate.
Defined.

(** ** The sorter of keys *)

Lemma length_Split s : length (Split s pathSepB) = S (count_sep s).
Proof.
  induction s as [|c s IH]; [done|].
  cbn [Split count_sep]. destruct (Ascii.eqb c pathSepB); simpl; [by rewrite IH|].
  destruct (Split s pathSepB); simpl in *; lia.
Qed.

(** X15: the less function of [DefaultKeysSorter] compares the numbers of separators of the two keys: it is irreflexive and asymmetric, as [sort.Slice] requires. *)
Theorem DefaultKeysSorter_by_separators (list : list string) (i j : nat)
    (a b : string) :
  list !! i = Some a ->
  list !! j = Some b ->
  DefaultKeysSorter list (Z.of_nat i) (Z.of_nat j)
  = Ok (bool_decide (count_sep a < count_sep b)%nat)
  /\ DefaultKeysSorter list (Z.of_nat i) (Z.of_nat i) = Ok false
  /\ (DefaultKeysSorter list (Z.of_nat i) (Z.of_nat j) = Ok true ->
      DefaultKeysSorter list (Z.of_nat j) (Z.of_nat i) = Ok false).
Proof.
  intros Ha Hb.
  assert (E : forall k l x y, list !! k = Some x -> list !! l = Some y ->
              DefaultKeysSorter list (Z.of_nat k) (Z.of_nat l)
              = Ok (bool_decide (count_sep x < count_sep y)%nat)).
  { intros k l x y Hx Hy. unfold DefaultKeysSorter, index_at.
    replace (Z.of_nat k <? 0) with false by (symmetry; apply Z.ltb_ge; lia).
    replace (Z.of_nat l <? 0) with false by (symmetry; apply Z.ltb_ge; lia).
    rewrite !Nat2Z.id, Hx, Hy. cbn [mbind res_bind].
    rewrite !length_Split. f_equal.
    destruct (decide (count_sep x < count_sep y)%nat).
    - rewrite bool_decide_eq_true_2 by done. apply Z.ltb_lt. lia.
    - rewrite bool_decide_eq_false_2 by done. apply Z.ltb_ge. lia. }
  split; [by apply E|]. split.
  - rewrite (E i i a a) by done. by rewrite bool_decide_eq_false_2 by lia.
  - rewrite (E i j a b), (E j i b a) by done. intros [= H].
    apply bool_decide_eq_true in H. by rewrite bool_decide_eq_false_2 by lia.
Qed.

Lemma DefaultKeysSorter_by_separators_witness :
  DefaultKeysSorter ["/a/b/c"; "/a"] (Z.of_nat 1) (Z.of_nat 0)
  = Ok (bool_decide (count_sep "/a" < count_sep "/a/b/c")%nat)
  /\ DefaultKeysSorter ["/a/b/c"; "/a"] (Z.of_nat 1) (Z.of_nat 1) = Ok false
  /\ (DefaultKeysSorter ["/a/b/c"; "/a"] (Z.of_nat 1) (Z.of_nat 0) = Ok true ->
      DefaultKeysSorter ["/a/b/c"; "/a"] (Z.of_nat 0) (Z.of_nat 1) = Ok false).
Proof.
  apply (DefaultKeysSorter_by_separators ["/a/b/c"; "/a"] 1 0 "/a" "/a/b/c");
    reflexivity.
Defined.

(** ** Parents *)

Section parents_on_trees.

Variable t : Trie.
Hypothesis Htree : tree_ok t.

Lemma child_is_later a k c : child_of t a k = Some c -> (a < c)%nat.
Proof.
  intros Hc. destruct Htree as (_ & [Hup Hdown] & _).
  destruct (Hdown _ _ _ Hc) as (nd & Hnd & Hp). by eapply Hup.
Qed.

Lemma child_parent a k c :
  child_of t a k = Some c -> exists nd, nodes t !! c = Some nd /\ parent nd = Some a.
Proof. destruct Htree as (_ & [_ Hdown] & _). apply Hdown. Qed.

Lemma walk_later keys :
  forall a m, walk t a keys = Some m -> (a + length keys <= m)%nat.
Proof.
  induction keys as [|k keys IH]; intros a m H; simpl in *; [simplify_eq; lia|].
  destruct (child_of t a k) as [c|] eqn:Hc; [|done].
  apply IH in H. apply child_is_later in Hc. lia.
Qed.

Lemma walk_valid keys :
  forall a nd m, nodes t !! a = Some nd -> walk t a keys = Some m ->
                 exists ndm, nodes t !! m = Some ndm.
Proof.
  induction keys as [|k keys IH]; intros a nd m Ha H; simpl in *; [simplify_eq; eauto|].
  destruct (child_of t a k) as [c|] eqn:Hc; [|done].
  destruct (child_parent _ _ _ Hc) as (ndc & Hndc & _). by eapply IH.
Qed.

Lemma path_nodes_snoc keys :
  forall a m k,
    walk t a keys = Some m ->
    path_nodes t a (keys ++ [k])
    = (path_nodes t a keys
       ++ match child_of t m k with Some c => [c] | None => [] end)%list.
Proof.
  induction keys as [|k0 keys IH]; intros a m k H; simpl in *.
  - simplify_eq. by destruct (child_of t m k).
  - destruct (child_of t a k0) as [c|] eqn:Hc; [|done].
    by rewrite (IH _ _ _ H).
Qed.

Lemma ending_cons b l :
  ending t (b :: l)
  = ((if end_ (node_at t (Some b)) then [Some b] else []) ++ ending t l)%list.
Proof. unfold ending. simpl. by destruct (end_ (node_at t (Some b))). Qed.

Lemma Parents_loop_step fuel b nd acc :
  nodes t !! b = Some nd ->
  Parents_loop (S fuel) t (Some b) acc
  = Parents_loop fuel t (parent nd) (acc ++ ending t [b]).
Proof.
  intros Hb. cbn [Parents_loop]. unfold Node_IsEnd, Node_Parent.
  rewrite (deref_Some _ _ _ Hb). cbn [mbind res_bind].
  rewrite ending_cons. unfold node_at. rewrite (deref_Some _ _ _ Hb).
  unfold ending. simpl. destruct (end_ nd); [done|]. by rewrite !app_nil_r.
Qed.

(** The climb from the node a walk reached passes the nodes of the walk,
    last first. *)
Lemma Parents_loop_climb keys :
  forall a nda m fuel acc,
    nodes t !! a = Some nda ->
    walk t a keys = Some m ->
    Parents_loop (S (length keys) + fuel) t (Some m) acc
    = Parents_loop fuel t (parent nda)
        (acc ++ ending t (reverse (path_nodes t a keys))).
Proof.
  induction keys as [|k keys IH] using rev_ind; intros a nda m fuel acc Ha H.
  - simpl in H. simplify_eq. simpl. by apply Parents_loop_step.
  - rewrite walk_app in H.
    destruct (walk t a keys) as [m'|] eqn:Hm'; [|done].
    simpl in H. destruct (child_of t m' k) as [c|] eqn:Hc; [|done].
    injection H as ->.
    destruct (child_parent _ _ _ Hc) as (ndm & Hndm & Hp).
    replace (S (length (keys ++ [k])) + fuel)%nat with (S (S (length keys) + fuel))
      by (rewrite length_app; simpl; lia).
    rewrite (Parents_loop_step _ _ _ _ Hndm), Hp.
    rewrite (IH _ _ _ _ _ Ha Hm').
    rewrite (path_nodes_snoc _ _ _ _ Hm'), Hc.
    rewrite reverse_app. simpl.
    rewrite (ending_cons m (reverse (path_nodes t a keys))), (ending_cons m []).
    unfold ending at 1. simpl. by rewrite app_nil_r, <- app_assoc.
Qed.

Lemma root_parent nd0 : nodes t !! 0%nat = Some nd0 -> parent nd0 = None.
Proof.
  intros H0. destruct (parent nd0) as [b|] eqn:Hp; [|done].
  destruct Htree as (_ & [Hup _] & _). pose proof (Hup _ _ _ H0 Hp). lia.
Qed.

Lemma Parents_climb_from keys :
  forall m ndm,
    walk t 0%nat keys = Some m ->
    nodes t !! m = Some ndm ->
    Parents_loop (length (nodes t)) t (parent ndm) []
    = Ok (ending t (reverse (removelast (path_nodes t 0%nat keys)))).
Proof.
  pose proof (tree_ok_heap_ok _ Htree) as Hok.
  destruct (heap_ok_root t Hok) as (nd0 & Hnd0).
  induction keys as [|k0 l _] using rev_ind; intros m ndm Hwalk Hndm.
  - simpl in Hwalk. injection Hwalk as <-.
    replace ndm with nd0 by congruence. rewrite (root_parent _ Hnd0).
    by destruct (nodes t).
  - rewrite walk_app in Hwalk.
    destruct (walk t 0%nat l) as [m'|] eqn:Hm'; [|done].
    simpl in Hwalk. destruct (child_of t m' k0) as [c|] eqn:Hc; [|done].
    injection Hwalk as ->.
    destruct (child_parent _ _ _ Hc) as (ndm' & Hndm' & Hp).
    replace ndm' with ndm in * by congruence. rewrite Hp.
    pose proof (walk_later _ _ _ Hm') as Hlater.
    pose proof (child_is_later _ _ _ Hc) as Hlt.
    apply lookup_lt_Some in Hndm as Hm.
    replace (length (nodes t)) with (S (length l) + (length (nodes t) - S (length l)))%nat
      by lia.
    rewrite (Parents_loop_climb _ _ _ _ _ [] Hnd0 Hm').
    rewrite (root_parent _ Hnd0).
    rewrite (path_nodes_snoc _ _ _ _ Hm'), Hc.
    rewrite removelast_last. by destruct (length (nodes t) - S (length l))%nat.
Qed.

Lemma Parents_walk p segs :
  slowPathSplit p = Ok segs ->
  Parents t p
  = Ok (match walk t 0%nat (canon t <$> segs) with
        | Some _ => ending t (reverse (removelast (path_nodes t 0%nat (canon t <$> segs))))
        | None => []
        end).
Proof.
  intros Hsplit. unfold Parents.
  pose proof (tree_ok_heap_ok _ Htree) as Hok.
  rewrite (SearchPrefix_walk t p segs Hok Hsplit). cbn [mbind res_bind].
  destruct (heap_ok_root t Hok) as (nd0 & Hnd0).
  destruct (walk t 0%nat (canon t <$> segs)) as [m|] eqn:Hwalk; [|done].
  destruct (walk_valid _ _ _ _ Hnd0 Hwalk) as (ndm & Hndm).
  unfold Node_Parent. rewrite (deref_Some _ _ _ Hndm). cbn [mbind res_bind].
  by eapply Parents_climb_from.
Qed.

End parents_on_trees.

(** X16: on a trie built by insertion, [Parents(prefix)] returns the nodes that end a pattern among those on the way from the root to the node of the prefix, that node left out, the nearest first; it returns nothing when the prefix is not found, and its loop terminates. *)
Theorem Parents_are_the_ending_ancestors (opts : TrieOptions) (ps : list string)
    (t : Trie) (terms : list ptr) (prefix : string) (segs : list string) :
  insert_all (NewTrieWithOptions opts) ps = Ok (t, terms) ->
  slowPathSplit prefix = Ok segs ->
  Parents t prefix
  = Ok (match walk t 0%nat (canon t <$> segs) with
        | Some _ => ending t (reverse (removelast (path_nodes t 0%nat (canon t <$> segs))))
        | None => []
        end).
Proof.
  intros Hb Hsplit. apply Parents_walk; [|done]. by eapply built_tree_ok.
Qed.

Lemma Parents_are_the_ending_ancestors_witness :
  Parents (built (options false false) ["/a"; "/a/b/c"; "/a/b/c/d"]) "/a/b/c/d"
  = Ok [Some 3%nat; Some 1%nat].
Proof.
  rewrite (Parents_are_the_ending_ancestors (options false false)
             ["/a"; "/a/b/c"; "/a/b/c/d"] _ [Some 1%nat; Some 3%nat; Some 4%nat]
             "/a/b/c/d" ["a"; "b"; "c"; "d"]).
  - vm_compute; reflexivity.
  - vm_compute; reflexivity.
  - reflexivity.
Defined.

(** ** Switching on the search of unvisited parameters *)

Section unvisited_params.

Variable t : Trie.
Hypothesis Hoff : searchUnvisitedParams t = false.

Lemma prefixProbe_on n s lengths :
  prefixProbe (Trie_SearchUnvisitedParams t) n s lengths = prefixProbe t n s lengths.
Proof.
  induction lengths as [|indx rest IH]; [done|].
  cbn [prefixProbe]. rewrite IH. done.
Qed.

Lemma suffixProbe_on n s lengths :
  suffixProbe (Trie_SearchUnvisitedParams t) n s lengths = suffixProbe t n s lengths.
Proof.
  induction lengths as [|suffixLen rest IH]; [done|].
  cbn [suffixProbe]. rewrite IH. done.
Qed.

Lemma getPrefixParamChild_on n s :
  getPrefixParamChild (Trie_SearchUnvisitedParams t) n s = getPrefixParamChild t n s.
Proof.
  unfold getPrefixParamChild.
  change (deref (Trie_SearchUnvisitedParams t) n) with (deref t n).
  destruct (deref t n) as [nd| |]; [|done|done]. cbn [mbind res_bind].
  by rewrite prefixProbe_on.
Qed.

Lemma getSuffixParamChild_on n s :
  getSuffixParamChild (Trie_SearchUnvisitedParams t) n s = getSuffixParamChild t n s.
Proof.
  unfold getSuffixParamChild.
  change (deref (Trie_SearchUnvisitedParams t) n) with (deref t n).
  destruct (deref t n) as [nd| |]; [|done|done]. cbn [mbind res_bind].
  by rewrite suffixProbe_on.
Qed.

Lemma climbWildcard_on fuel :
  forall n, climbWildcard fuel (Trie_SearchUnvisitedParams t) n = climbWildcard fuel t n.
Proof.
  induction fuel as [|fuel IH]; intros n; [done|].
  cbn [climbWildcard]. destruct n as [a|]; [|done].
  change (deref (Trie_SearchUnvisitedParams t) (Some a)) with (deref t (Some a)).
  destruct (deref t (Some a)) as [nd| |]; [|done|done]. cbn [mbind res_bind].
  by rewrite IH.
Qed.

Lemma findClosestParentWildcardNode_on n :
  findClosestParentWildcardNode (Trie_SearchUnvisitedParams t) n
  = findClosestParentWildcardNode t n.
Proof.
  unfold findClosestParentWildcardNode.
  change (deref (Trie_SearchUnvisitedParams t) n) with (deref t n).
  destruct (deref t n) as [nd| |]; [|done|done]. cbn [mbind res_bind].
  apply climbWildcard_on.
Qed.

Lemma search_finish_on q n pv :
  search_finish (Trie_SearchUnvisitedParams t) q n pv = search_finish t q n pv.
Proof.
  unfold search_finish.
  change (deref (Trie_SearchUnvisitedParams t) n) with (deref t n).
  destruct n as [a|].
  - destruct (deref t (Some a)) as [nd| |]; [|done|done]. cbn [mbind res_bind].
    destruct (end_ nd); [done|].
    rewrite findClosestParentWildcardNode_on. done.
  - done.
Qed.

Lemma descended_on q qc end_q n start i pv vis r :
  descended t q qc end_q n start i pv vis = Ok r ->
  at_terminal t r ->
  descended (Trie_SearchUnvisitedParams t) q qc end_q n start i pv vis = Ok r.
Proof.
  unfold descended. rewrite Hoff. intros H Hr.
  destruct (i =? end_q); [|done].
  simplify_eq. simpl in Hr. destruct Hr as (nd & Hnd & He).
  change (searchUnvisitedParams (Trie_SearchUnvisitedParams t)) with true.
  change (deref (Trie_SearchUnvisitedParams t) n) with (deref t n).
  rewrite Hnd. cbn [mbind res_bind]. by rewrite He.
Qed.

Lemma search_step_on q qc end_q st r :
  search_step t q qc end_q st = Ok r ->
  at_terminal t r ->
  search_step (Trie_SearchUnvisitedParams t) q qc end_q st = Ok r.
Proof.
  intros H Hr. unfold search_step in *.
  apply bind_Ok in H as (at_sep & -> & H). cbn [mbind res_bind].
  destruct at_sep; [|done].
  apply bind_Ok in H as (s & -> & H). cbn [mbind res_bind].
  change (getChild (Trie_SearchUnvisitedParams t) (st_n st) s)
    with (getChild t (st_n st) s).
  apply bind_Ok in H as (child & -> & H). cbn [mbind res_bind].
  destruct child as [c|]; [by apply descended_on|].
  rewrite getPrefixParamChild_on.
  apply bind_Ok in H as ([child ex] & -> & H). cbn [mbind res_bind].
  destruct ex.
  { apply bind_Ok in H as (v & -> & H). cbn [mbind res_bind]. by apply descended_on. }
  rewrite getSuffixParamChild_on.
  apply bind_Ok in H as ([child' ex] & -> & H). cbn [mbind res_bind].
  destruct ex.
  { apply bind_Ok in H as (v & -> & H). cbn [mbind res_bind]. by apply descended_on. }
  change (deref (Trie_SearchUnvisitedParams t) (st_n st)) with (deref t (st_n st)).
  apply bind_Ok in H as (nd & -> & H). cbn [mbind res_bind].
  destruct (childNamedParameter nd).
  { change (getChild (Trie_SearchUnvisitedParams t) (st_n st) ParamStart)
      with (getChild t (st_n st) ParamStart).
    apply bind_Ok in H as (c & -> & H). cbn [mbind res_bind].
    apply bind_Ok in H as (v & -> & H). cbn [mbind res_bind]. by apply descended_on. }
  destruct (childWildcardParameter nd).
  { change (getChild (Trie_SearchUnvisitedParams t) (st_n st) WildcardParamStart)
      with (getChild t (st_n st) WildcardParamStart).
    apply bind_Ok in H as (c & -> & H). cbn [mbind res_bind].
    apply bind_Ok in H as (v & -> & H). cbn [mbind res_bind]. done. }
  exfalso. rewrite Hoff in H. cbn [mbind res_bind] in H.
  apply bind_Ok in H as (w & _ & H).
  destruct w as [w|]; [|by simplify_eq].
  apply bind_Ok in H as (wn & _ & H).
  apply bind_Ok in H as ([w' calls] & _ & H). by simplify_eq.
Qed.

Lemma search_loop_on fuel :
  forall q qc end_q st e,
    search_loop fuel t q qc end_q st = Ok e ->
    at_terminal t (inr e) ->
    search_loop fuel (Trie_SearchUnvisitedParams t) q qc end_q st = Ok e.
Proof.
  induction fuel as [|fuel IH]; intros q qc end_q st e H He; [done|].
  cbn [search_loop] in *.
  apply bind_Ok in H as (r & Hstep & H).
  destruct r as [st'|e'].
  - rewrite (search_step_on _ _ _ _ _ Hstep I). cbn [mbind res_bind]. by apply IH.
  - simplify_eq. rewrite (search_step_on _ _ _ _ _ Hstep He). done.
Qed.

Hypothesis Hfree : wildcard_free t.

Lemma climbWildcard_free fuel :
  forall n w, climbWildcard fuel t n = Ok w -> w = None.
Proof.
  induction fuel as [|fuel IH]; intros n w H.
  - destruct n; simpl in H; by simplify_eq.
  - cbn [climbWildcard] in H. destruct n as [a|]; [|by simplify_eq].
    apply bind_Ok in H as (nd & Hnd & H).
    assert (Hw : childWildcardParameter nd = false).
    { destruct Hfree as [_ Hall]. unfold deref in Hnd.
      destruct (nodes t !! a) as [x|] eqn:Ha; [|done]. simplify_eq.
      by apply (Forall_lookup_1 _ _ _ _ Hall Ha). }
    rewrite Hw in H. by eapply IH.
Qed.

Lemma findClosestParentWildcardNode_free n w :
  findClosestParentWildcardNode t n = Ok w -> w = None.
Proof.
  unfold findClosestParentWildcardNode. intros H.
  apply bind_Ok in H as (nd & _ & H). by eapply climbWildcard_free.
Qed.

Lemma search_step_returned_free q qc end_q st r calls :
  search_step t q qc end_q st = Ok (inr (Returned r calls)) -> r = None.
Proof.
  intros H. unfold search_step in H.
  apply bind_Ok in H as (at_sep & _ & H).
  destruct at_sep; [|done].
  apply bind_Ok in H as (s & _ & H).
  apply bind_Ok in H as (child & _ & H).
  assert (Hd : forall n start i pv vis,
             descended t q qc end_q n start i pv vis
             <> Ok (inr (Returned r calls))).
  { intros n start i pv vis Hd. apply descended_exit in Hd as (? & ? & ?). done. }
  destruct child as [c|]; [by apply Hd in H|].
  apply bind_Ok in H as ([child ex] & _ & H).
  destruct ex.
  { apply bind_Ok in H as (v & _ & H). by apply Hd in H. }
  apply bind_Ok in H as ([child' ex] & _ & H).
  destruct ex.
  { apply bind_Ok in H as (v & _ & H). by apply Hd in H. }
  apply bind_Ok in H as (nd & _ & H).
  destruct (childNamedParameter nd).
  { apply bind_Ok in H as (c & _ & H).
    apply bind_Ok in H as (v & _ & H). by apply Hd in H. }
  destruct (childWildcardParameter nd).
  { apply bind_Ok in H as (c & _ & H).
    apply bind_Ok in H as (v & _ & H). done. }
  apply bind_Ok in H as ([[unvisited start'] i'] & _ & H).
  destruct unvisited as [u|].
  { apply bind_Ok in H as (pv' & _ & H). by apply Hd in H. }
  apply bind_Ok in H as (w & Hw & H).
  apply findClosestParentWildcardNode_free in Hw as ->. by simplify_eq.
Qed.

Lemma search_loop_returned_free fuel :
  forall q qc end_q st r calls,
    search_loop fuel t q qc end_q st = Ok (Returned r calls) -> r = None.
Proof.
  induction fuel as [|fuel IH]; intros q qc end_q st r calls H; [done|].
  cbn [search_loop] in H.
  apply bind_Ok in H as (x & Hstep & H).
  destruct x as [st'|e]; [by eapply IH|].
  simplify_eq. by eapply search_step_returned_free.
Qed.

Lemma search_finish_free q n pv r calls :
  search_finish t q n pv = Ok (Some r, calls) ->
  exists nd, deref t n = Ok nd /\ end_ nd = true.
Proof.
  intros H. unfold search_finish in H.
  apply bind_Ok in H as (is_end & He & H).
  destruct is_end.
  - apply bind_Ok in H as (nd & Hnd & H). simplify_eq.
    exists nd. split; [done|].
    apply bind_Ok in He as (nd' & Hnd' & He). injection He as He. congruence.
  - apply bind_Ok in H as (w & Hw & H).
    assert (w = None) as ->.
    { destruct n as [a|]; [|by simplify_eq].
      by eapply findClosestParentWildcardNode_free. }
    destruct Hfree as [Hrw _]. rewrite Hrw in H. by simplify_eq.
Qed.

End unvisited_params.

(** X17: on a trie without wildcards, switching [searchUnvisitedParams] on changes no match: a node that [Search] finds with the option off it finds with the option on, with the same calls of [params.Set]. *)
Theorem unvisited_params_keep_matches (t : Trie) (q : string) (n : addr)
    (calls : sets) :
  searchUnvisitedParams t = false ->
  wildcard_free t ->
  Search t q = Ok (Some n, calls) ->
  Search (Trie_SearchUnvisitedParams t) q = Ok (Some n, calls).
Proof.
  intros Hoff Hfree H. unfold Search in *. cbv zeta in *.
  apply bind_Ok in H as (fast & -> & H). cbn [mbind res_bind].
  destruct fast; [exact H|].
  change (caseInsensitive (Trie_SearchUnvisitedParams t)) with (caseInsensitive t).
  change (search_fuel (Trie_SearchUnvisitedParams t) q) with (search_fuel t q).
  change (root (Trie_SearchUnvisitedParams t)) with (root t).
  apply bind_Ok in H as (e & Hloop & H).
  destruct e as [r cs|n0 pv].
  - simplify_eq. by apply (search_loop_returned_free t Hfree) in Hloop.
  - pose proof (search_finish_free t Hfree _ _ _ _ _ H) as Hend.
    rewrite (search_loop_on t Hoff _ _ _ _ _ _ Hloop Hend). cbn [mbind res_bind].
    by rewrite search_finish_on.
Qed.

Lemma unvisited_params_keep_matches_witness :
  Search (Trie_SearchUnvisitedParams (built (options false false) ["/a/b/c/z"; "/a/:p1/c/d"]))
         "/a/x/c/d" = Ok (Some 7%nat, [("p1", "x")]).
Proof.
  apply (unvisited_params_keep_matches
           (built (options false false) ["/a/b/c/z"; "/a/:p1/c/d"]) "/a/x/c/d" 7%nat
           [("p1", "x")]).
  - reflexivity.
  - split; [reflexivity|]. vm_compute. repeat constructor.
  - vm_compute; reflexivity.
Defined.

(** ** A pattern of static segments and named parameters, alone in a trie *)

Lemma lower_byte_colon c : lower_byte c = ":"%char -> c = ":"%char.
Proof.
  destruct c as [[] [] [] [] [] [] [] []]; vm_compute; intros H; congruence.
Qed.

Lemma canon_colon t : canon t ParamStart = ParamStart.
Proof. unfold canon. by destruct (caseInsensitive t). Qed.

Lemma canon_eq_colon t v :
  within_ascii t v = true -> canon t v = ParamStart -> v = ParamStart.
Proof.
  unfold within_ascii, canon. destruct (caseInsensitive t); [| done].
  simpl. intros Hascii. unfold ToLower. rewrite Hascii.
  destruct v as [|c [|c' v']]; simpl; try done.
  intros H. injection H as H. by rewrite (lower_byte_colon _ H).
Qed.

Lemma byte_at_head c s : byte_at (String c s) 0 = Ok c.
Proof.
  unfold byte_at. rewrite len_String. pose proof (len_nonneg s).
  replace (1 + len s <=? 0) with false by (symmetry; apply Z.leb_gt; lia). done.
Qed.

Lemma simple_segment_inv s :
  simple_segment s = true ->
  s <> "" /\ no_slash s = true
  /\ if starts_colon s then segment_key s = ParamStart
     else segment_key s = s /\ plain s = true.
Proof.
  unfold simple_segment, static_segment, named_segment, plain, starts_colon,
    segment_key.
  destruct s as [|c s']; [done |].
  rewrite byte_at_head.
  intros H. split; [done |].
  destruct (Ascii.eqb c ":") eqn:Ec.
  - split; [| done].
    rewrite !andb_false_l, orb_false_l, andb_true_l in H. exact H.
  - rewrite andb_false_l, orb_false_r in H. apply andb_true_iff in H as (Hp & Hns).
    split; [done |].
    apply andb_true_iff in Hp as (Hp & Hsuf).
    apply andb_true_iff in Hp as (Hstar & Hpre).
    rewrite andb_true_l in Hstar.
    apply negb_true_iff in Hstar, Hpre, Hsuf.
    rewrite Hstar, Hpre, Hsuf. done.
Qed.

Lemma simple_segments_inv segs :
  forallb simple_segment segs = true ->
  Forall (fun s => s <> "" /\ no_slash s = true) segs.
Proof.
  induction segs as [|s rest IH]; intros H; [constructor |].
  simpl in H. apply andb_true_iff in H as (Hs & Hrest).
  constructor; [| by apply IH].
  by destruct (simple_segment_inv _ Hs) as (? & ? & _).
Qed.

Lemma Forall_no_slash segs :
  Forall (fun s => s <> "" /\ no_slash s = true) segs ->
  forallb no_slash segs = true.
Proof.
  induction 1 as [|s rest (_ & Hs) _ IH]; [done |]. simpl. by rewrite Hs, IH.
Qed.

Lemma path_of_last_segment segs :
  segs <> [] ->
  Forall (fun s => s <> "" /\ no_slash s = true) segs ->
  exists a c, path_of segs = a +:+ String c "" /\ c <> pathSepB.
Proof.
  induction segs as [|s rest IH]; [done | intros _ H].
  apply Forall_cons in H as ((Hne & Hns) & Hrest).
  rewrite path_of_cons.
  destruct rest as [|r rest].
  - simpl. rewrite app_str_nil_r.
    destruct (str_snoc s Hne) as (a & c & E).
    exists (String pathSepB a), c. rewrite E. split; [done |].
    rewrite E, no_slash_app in Hns. apply andb_true_iff in Hns as (_ & Hc).
    simpl in Hc. rewrite andb_true_r in Hc.
    by apply negb_true_iff, Ascii.eqb_neq in Hc.
  - destruct IH as (a & c & E & Hc); [done | done |].
    exists (String pathSepB (s +:+ a)), c. split; [| done].
    rewrite E. rewrite app_cons. by rewrite app_str_assoc.
Qed.

Lemma slowPathSplit_segments segs :
  segs <> [] ->
  Forall (fun s => s <> "" /\ no_slash s = true) segs ->
  slowPathSplit (path_of segs) = Ok segs.
Proof.
  intros Hne Hall.
  destruct (path_of_last_segment _ Hne Hall) as (a & c & E & Hc).
  rewrite E, (slowPathSplit_not_sep_last _ _ Hc), <- E.
  destruct (Split_path_of _ (Forall_no_slash _ Hall)) as [-> | ->]; [done |].
  unfold list_slice_from.
  replace ((1 <? 0) || (Z.of_nat (length ("" :: segs)) <? 1)) with false; [done |].
  symmetry. rewrite orb_false_iff, !Z.ltb_ge. simpl. lia.
Qed.

(** *** The buffer of values *)

Lemma buffer_ok_nil : buffer_ok nil_slice.
Proof. unfold buffer_ok, cap. simpl. lia. Qed.

Lemma appendParameterValue_cells pv v :
  buffer_ok pv ->
  buffer_ok (appendParameterValue pv v)
  /\ cells (appendParameterValue pv v) = (cells pv ++ [v])%list.
Proof.
  unfold buffer_ok, appendParameterValue, cells, cap. intros (H0 & Hcap).
  destruct (Z.ltb_spec (slen pv) (Z.of_nat (length (backing pv)))) as [Hlt | Hge];
    simpl.
  - rewrite length_insert. split; [lia |].
    replace (Z.to_nat (slen pv + 1)) with (S (Z.to_nat (slen pv))) by lia.
    rewrite (take_S_r _ _ v).
    + by rewrite take_insert_ge by lia.
    + apply list_lookup_insert_eq. lia.
  - assert (E : Z.to_nat (slen pv) = length (backing pv)) by lia.
    rewrite length_app, length_take. cbn [length app]. rewrite length_replicate.
    split.
    + unfold growcap.
      destruct (Z.eqb_spec (Z.of_nat (length (backing pv))) 0); lia.
    + replace (Z.to_nat (slen pv + 1)) with (S (Z.to_nat (slen pv))) by lia.
      rewrite E, firstn_all.
      rewrite cons_middle, app_assoc.
      rewrite take_app_length'; [done |].
      rewrite length_app. simpl. lia.
Qed.

(** *** Insertion builds a chain *)

Lemma chain_frame segs :
  forall t t' a,
    caseInsensitive t' = caseInsensitive t ->
    (forall x, (a <= x < a + length segs)%nat -> nodes t' !! x = nodes t !! x) ->
    chain t a segs -> chain t' a segs.
Proof.
  induction segs as [|s rest IH]; intros t t' a Hci Hsame Hch; [done |].
  destruct Hch as ((nd & Hnd & Hrest) & Hch). split.
  - exists nd. rewrite Hsame by (simpl; lia). split; [done |].
    unfold canon in *. by rewrite Hci.
  - apply (IH t); [done | | done].
    intros x Hx. apply Hsame. simpl. lia.
Qed.

Lemma instance_of_ci t t' s v :
  caseInsensitive t' = caseInsensitive t -> instance_of t s v -> instance_of t' s v.
Proof. unfold instance_of, canon. by intros ->. Qed.

(** From the last node of the heap, which has no child yet, the loop of
    [insert] allocates one node for each segment. *)
Lemma insert_loop_chain segs :
  forall t a nd pk i,
    forallb simple_segment segs = true ->
    heap_ok t ->
    S a = length (nodes t) ->
    nodes t !! a = Some nd ->
    children nd = ∅ ->
    childPrefixParameter nd = false ->
    childSuffixParameter nd = false ->
    childNamedParameter nd = false ->
    exists t' pk',
      insert_loop t (Some a) pk i segs = Ok (t', Some (a + length segs)%nat, pk')
      /\ chain t' a segs
      /\ caseInsensitive t' = caseInsensitive t
      /\ root t' = root t
      /\ is_Some (nodes t' !! (a + length segs)%nat)
      /\ (forall x, (x < a)%nat -> nodes t' !! x = nodes t !! x).
Proof.
  induction segs as [|s rest IH];
    intros t a nd pk i Hsimple Hok Hlast Hnd Hkids Hpre Hsuf Hnamed.
  - exists t, pk. simpl. rewrite Nat.add_0_r. by rewrite Hnd.
  - simpl in Hsimple. apply andb_true_iff in Hsimple as (Hs & Hrest).
    destruct (simple_segment_inv _ Hs) as (Hne & Hns & Hkey).
    destruct (insert_segment_ok t a nd pk i s Hok Hnd Hne) as ([[t1 n1] pk1] & Hseg).
    destruct (insert_segment_inv _ _ _ _ _ _ _ _ _ Hok Hnd Hseg)
      as (c0 & k0 & _ & _ & _ & _ & Hok1 & Hext & _).
    destruct Hext as (Hroot1 & Hci1 & _).
    destruct (insert_segment_nodes _ _ _ _ _ _ _ _ Hseg)
      as (a' & nd0 & nd' & k & Ea & Hnd0 & _ & _ & _ & _ & _ & _ & Hcase & Hk & _
          & Hnd' & Hnamed' & Hflags).
    injection Ea as <-. rewrite Hnd in Hnd0. injection Hnd0 as <-.
    destruct Hcase as [(c & Hc & _) | (_ & Hkids' & -> & Hnodes1)].
    { by rewrite Hkids, lookup_empty in Hc. }
    assert (Hflags' : childPrefixParameter nd' = false
                      /\ childSuffixParameter nd' = false).
    { destruct Hflags as (E1 & E2); [| by rewrite E1, E2].
      destruct (starts_colon s); [by left | right].
      destruct Hkey as (_ & Hp). unfold plain in Hp.
      destruct (byte_at s 0); [| done..].
      apply andb_true_iff in Hp as (Hp & H2).
      apply andb_true_iff in Hp as (_ & H1).
      by apply negb_true_iff in H1, H2. }
    assert (Hlen1 : length (nodes t1) = S (length (nodes t))).
    { rewrite Hnodes1, length_app, length_insert. simpl. lia. }
    assert (Hnew : nodes t1 !! S a = Some (set_parent (Some a) zeroNode)).
    { rewrite Hnodes1, Hlast.
      rewrite lookup_app_r by (rewrite length_insert; lia).
      rewrite length_insert, Nat.sub_diag. done. }
    destruct (IH t1 (S a) (set_parent (Some a) zeroNode) pk1 (i + 1)
                Hrest Hok1) as (t' & pk' & Hloop & Hch & Hci & Hroot & Hterm & Hframe);
      try done.
    { rewrite Hlen1. lia. }
    exists t', pk'.
    replace (a + length (s :: rest))%nat with (S a + length rest)%nat
      by (simpl; lia).
    split; [| split; [| split; [| split; [| split]]]].
    + simpl. rewrite Hseg. cbn [mbind res_bind]. rewrite <- Hlast. exact Hloop.
    + split; [| done].
      exists nd'. rewrite Hframe by lia.
      split; [done |]. split.
      * rewrite Hkids', Hkids, insert_empty, Hk, <- Hlast.
        unfold canon. by rewrite Hci, Hci1.
      * destruct Hflags' as (-> & ->). by rewrite Hnamed', Hnamed.
    + by rewrite Hci.
    + by rewrite Hroot.
    + done.
    + intros x Hx. rewrite Hframe by lia. rewrite Hnodes1.
      rewrite lookup_app_l by (rewrite length_insert; lia).
      apply list_lookup_insert_ne. lia.
Qed.

(** *** Search follows a chain *)

Lemma search_step_chain t q qc st a s v nd :
  st_n st = Some a ->
  nodes t !! a = Some nd ->
  children nd = {[canon t (segment_key s) := S a]} ->
  childPrefixParameter nd = false ->
  childSuffixParameter nd = false ->
  childNamedParameter nd = starts_colon s ->
  simple_segment s = true ->
  instance_of t s v ->
  within_ascii t v = true ->
  (st_i st = len q \/ byte_at q (st_i st) = Ok pathSepB) ->
  slice qc (st_start st) (st_i st) = Ok (canon t v) ->
  slice q (st_start st) (st_i st) = Ok v ->
  exists vis',
    search_step t q qc (len q) st
    = descended t q qc (len q) (Some (S a)) (st_start st) (st_i st)
        (if starts_colon s then appendParameterValue (st_paramValues st) v
         else st_paramValues st) vis'.
Proof.
  intros Hn Hnd Hkids Hpre Hsuf Hnamed Hs (Hns & Hinst) Hav Hi Hqc Hq.
  destruct (simple_segment_inv _ Hs) as (_ & _ & Hkey).
  destruct (starts_colon s) eqn:Ecolon.
  - rewrite Hkey, canon_colon in Hkids.
    eexists. unfold search_step.
    assert (Hsep : (if st_i st =? len q then Ok true
                    else byte_at q (st_i st) ≫= λ c0, Ok (Ascii.eqb c0 pathSepB))
                   = Ok true).
    { destruct (Z.eqb_spec (st_i st) (len q)) as [|Hne]; [done |].
      destruct Hi as [|Hi]; [done |]. rewrite Hi. done. }
    rewrite Hsep. cbn [mbind res_bind]. rewrite Hqc. cbn [mbind res_bind].
    rewrite Hn.
    rewrite (getChild_child_of t a nd (canon t v) Hnd),
      (child_of_node _ _ _ _ Hnd), Hkids.
    rewrite lookup_singleton_ne
      by (intros E; apply Hinst; symmetry in E; by apply canon_eq_colon in E).
    cbn [mbind res_bind].
    unfold getPrefixParamChild, getSuffixParamChild.
    rewrite (deref_Some _ _ _ Hnd). cbn [mbind res_bind].
    rewrite Hpre, Hsuf. cbn [negb mbind res_bind]. rewrite Hnamed.
    rewrite (getChild_child_of t a nd ParamStart Hnd),
      (child_of_node _ _ _ _ Hnd), Hkids.
    rewrite lookup_singleton_eq. cbn [mbind res_bind]. rewrite Hq.
    cbn [mbind res_bind]. reflexivity.
  - destruct Hkey as (Hkey & _). rewrite Hkey in Hkids.
    exists (st_visitedNodes st).
    apply (search_step_static _ _ _ _ (canon t v)); [done | done |].
    rewrite Hn, (getChild_child_of t a nd (canon t v) Hnd),
      (child_of_node _ _ _ _ Hnd), Hkids, Hinst.
    by rewrite lookup_singleton_eq.
Qed.

Lemma search_loop_chain t q m ndm :
  within_ascii t q = true ->
  nodes t !! m = Some ndm ->
  end_ ndm = true ->
  forall rs rv,
    Forall2 (instance_of t) rs rv ->
    forallb simple_segment rs = true ->
    forall s v pre a pv vis k,
      q = pre +:+ v +:+ path_of rv ->
      simple_segment s = true ->
      instance_of t s v ->
      chain t a (s :: rs) ->
      (a + S (length rs))%nat = m ->
      buffer_ok pv ->
      exists pv',
        search_loop (S (String.length v + String.length (path_of rv)) + k)
          t q (canon t q) (len q)
          {| st_n := Some a; st_start := len pre; st_i := len pre;
             st_paramValues := pv; st_visitedNodes := vis |}
        = Ok (Broke (Some m) pv')
        /\ buffer_ok pv'
        /\ cells pv' = (cells pv ++ bound_values (s :: rs) (v :: rv))%list.
Proof.
  intros Hascii Hm Hend rs rv Hall.
  induction Hall as [|s' v' rs rv Hinst' Hrest IH];
    intros Hsimple s v pre a pv vis k Hq Hs Hinst Hch Hlen Hpv;
    (assert (Hparts : within_ascii t pre = true /\ within_ascii t v = true);
     [ pose proof Hascii as H;
       rewrite Hq, !within_ascii_app, !andb_true_iff in H; tauto
     | destruct Hparts as (Hapre & Hav) ]).
  - simpl in Hq. rewrite app_str_nil_r in Hq.
    destruct Hch as ((nd & Hnd & Hkids & Hpre & Hsuf & Hnamed) & _).
    pose proof Hinst as (Hns & _).
    replace (S (String.length v + String.length (path_of [])) + k)%nat
      with (String.length v + S k)%nat by (simpl; lia).
    rewrite (search_loop_scan _ _ _ _ _ _ _ "" v pre (S k));
      [| by rewrite app_str_nil_r | done].
    set (st := {| st_n := Some a; st_start := len pre; st_i := len (pre +:+ v);
                  st_paramValues := pv; st_visitedNodes := vis |}).
    destruct (search_step_chain t q (canon t q) st a s v nd) as (vis' & Hstep);
      try done.
    { left. simpl. by rewrite Hq. }
    { simpl. rewrite Hq in Hascii |- *.
      rewrite canon_app, len_app, <- (len_canon t pre), <- (len_canon t v) by done.
      pose proof (slice_middle (canon t pre) (canon t v) "") as H.
      by rewrite app_str_nil_r in H. }
    { simpl. rewrite Hq, len_app.
      pose proof (slice_middle pre v "") as H.
      by rewrite app_str_nil_r in H. }
    cbn [search_loop]. rewrite Hstep. simpl st_start. simpl st_i.
    simpl st_paramValues.
    replace (len (pre +:+ v)) with (len q) by (by rewrite Hq).
    replace (S a) with m by (simpl in Hlen; lia).
    rewrite (descended_at_end _ _ _ _ ndm) by done.
    cbn [mbind res_bind].
    eexists. split; [reflexivity |].
    simpl. rewrite app_nil_r.
    destruct (starts_colon s).
    + by apply appendParameterValue_cells.
    + by rewrite app_nil_r.
  - simpl in Hsimple. apply andb_true_iff in Hsimple as (Hs' & Hsimple).
    destruct Hch as ((nd & Hnd & Hkids & Hpre & Hsuf & Hnamed) & Hch).
    pose proof Hinst as (Hns & _).
    assert (Hpath : path_of (v' :: rv) = String pathSepB (v' +:+ path_of rv)) by done.
    replace (S (String.length v + String.length (path_of (v' :: rv))) + k)%nat
      with (String.length v
            + S (S (String.length v' + String.length (path_of rv)) + k))%nat
      by (rewrite Hpath; simpl; rewrite length_app_str; lia).
    rewrite (search_loop_scan _ _ _ _ _ _ _ (path_of (v' :: rv)) v pre);
      [| done | done].
    assert (Hlt : len (pre +:+ v) <> len q).
    { rewrite Hq, Hpath, !len_app, len_String.
      pose proof (len_nonneg (v' +:+ path_of rv)). lia. }
    set (st := {| st_n := Some a; st_start := len pre; st_i := len (pre +:+ v);
                  st_paramValues := pv; st_visitedNodes := vis |}).
    destruct (search_step_chain t q (canon t q) st a s v nd) as (vis' & Hstep);
      try done.
    { right. simpl. rewrite Hq, Hpath. rewrite <- app_str_assoc. apply byte_at_app. }
    { assert (Htail : within_ascii t (path_of (v' :: rv)) = true).
      { pose proof Hascii as H.
        rewrite Hq, !within_ascii_app, !andb_true_iff in H. tauto. }
      simpl.
      rewrite Hq, !canon_app, len_app, <- (len_canon t pre), <- (len_canon t v);
        rewrite ?within_ascii_app, ?Hapre, ?Hav, ?Htail; try done.
      apply slice_middle. }
    { simpl. rewrite Hq, len_app. apply slice_middle. }
    cbn [search_loop]. rewrite Hstep. simpl st_start. simpl st_i.
    simpl st_paramValues.
    rewrite descended_before_end by done.
    cbn [mbind res_bind].
    replace (len (pre +:+ v) + 1) with (len (pre +:+ v +:+ pathSep))
      by (rewrite !len_app; change (len pathSep) with 1; lia).
    set (pv1 := if starts_colon s then appendParameterValue pv v else pv).
    assert (Hpv1 : buffer_ok pv1
                   /\ cells pv1 = (cells pv ++ (if starts_colon s then [v] else []))%list).
    { unfold pv1. destruct (starts_colon s).
      - by apply appendParameterValue_cells.
      - by rewrite app_nil_r. }
    destruct Hpv1 as (Hok1 & Hcells1).
    destruct (IH Hsimple s' v' (pre +:+ v +:+ pathSep) (S a) pv1 vis' k)
      as (pv' & Hloop & Hok' & Hcells'); try done.
    { rewrite Hq, Hpath. rewrite !app_str_assoc. reflexivity. }
    { simpl in Hlen. simpl. lia. }
    exists pv'. split; [exact Hloop |]. split; [done |].
    rewrite Hcells', Hcells1. cbn [bound_values]. by rewrite <- app_assoc.
Qed.

Lemma path_of_long v rv : v :: rv <> [""] -> 1 < len (path_of (v :: rv)).
Proof.
  intros Hne. rewrite path_of_cons, len_String.
  destruct rv as [|r rv].
  - simpl. rewrite app_str_nil_r. destruct v as [|c v]; [done |].
    rewrite len_String. pose proof (len_nonneg v). lia.
  - rewrite len_app, path_of_cons, len_String.
    pose proof (len_nonneg v). pose proof (len_nonneg (r +:+ path_of rv)). lia.
Qed.

(** X18: a pattern of static segments and named parameters, inserted alone into a new trie, is found by the search of every request that has a segment for each of its segments: the same text, up to the case when the trie ignores it, for a static segment, any text but [:] for a parameter.  The calls of [params.Set] bind the parameter names, in order, to the segments of the request at their places, unlowered.  The request is not [/] and is ASCII when the trie is case-insensitive. *)
Theorem named_parameters_round_trip (opts : TrieOptions) (segs vals : list string) :
  segs <> [] ->
  forallb simple_segment segs = true ->
  Forall2 (instance_of (NewTrieWithOptions opts)) segs vals ->
  vals <> [""] ->
  within_ascii (NewTrieWithOptions opts) (path_of vals) = true ->
  exists t n,
    Insert (NewTrieWithOptions opts) (path_of segs) [] = Ok (t, n)
    /\ terminal_of t n (path_of segs)
    /\ Search t (path_of vals)
       = Ok (n, zip (pattern_params segs) (bound_values segs vals)).
Proof.
  intros Hne Hsimple Hinst Hvals Hascii.
  set (t0 := NewTrieWithOptions opts) in *.
  set (p := path_of segs).
  assert (Hok : heap_ok t0) by (by destruct (NewTrieWithOptions_ok opts) as [H _]).
  pose proof (simple_segments_inv _ Hsimple) as Hall.
  pose proof (slowPathSplit_segments _ Hne Hall) as Hsplit. fold p in Hsplit.
  assert (Hp : p <> "") by (by apply path_of_nonempty).
  set (t00 := if (p =? pathSep)%string then set_hasRootSlash true t0 else t0).
  assert (Hok0 : heap_ok t00).
  { unfold t00. destruct (p =? pathSep)%string; [by apply heap_ok_set_hasRootSlash | done]. }
  assert (Hnd00 : nodes t00 !! 0%nat = Some zeroNode).
  { unfold t00. by destruct (p =? pathSep)%string. }
  assert (Hlen00 : 1%nat = length (nodes t00)).
  { unfold t00. by destruct (p =? pathSep)%string. }
  assert (Hci00 : caseInsensitive t00 = caseInsensitive t0).
  { unfold t00. by destruct (p =? pathSep)%string. }
  assert (Hroot00 : root t00 = Some 0%nat).
  { unfold t00. by destruct (p =? pathSep)%string. }
  destruct (insert_loop_chain segs t00 0%nat zeroNode [] 0 Hsimple Hok0 Hlen00 Hnd00)
    as (t1 & pk1 & Hloop & Hch & Hci1 & Hroot1 & (ndm & Hndm) & _); try done.
  simpl in Hloop, Hndm.
  set (m := length segs) in *.
  destruct (insert_finish_spec t1 m ndm pk1 p "" None None Hndm)
    as (static & Hs & Hf).
  set (t := store t1 m (finished ndm pk1 p static "" None None)).
  assert (HInsert : Insert t0 p [] = Ok (t, Some m)).
  { unfold Insert. apply String.eqb_neq in Hp as Hpb. rewrite Hpb.
    unfold insert. rewrite Hsplit. cbn [mbind res_bind].
    destruct Hok as (Hroot & _). rewrite Hroot. fold t00.
    rewrite Hloop. cbn [mbind res_bind]. rewrite Hf. done. }
  destruct (Insert_path t0 p segs t (Some m) Hok Hsplit HInsert)
    as (m' & nd & Em & Hnd & Hend & Hkey & Hkeys & _).
  injection Em as <-.
  exists t, (Some m). split; [done |]. split.
  { exists nd. by rewrite (deref_Some _ _ _ Hnd). }
  assert (Hci : caseInsensitive t = caseInsensitive t0).
  { unfold t, store. simpl. by rewrite Hci1. }
  assert (Hcht : chain t 0%nat segs).
  { apply (chain_frame segs t1); [done | | done].
    intros x Hx. unfold t, store. simpl.
    apply list_lookup_insert_ne. unfold m. lia. }
  assert (Hroot : root t = Some 0%nat).
  { unfold t, store. simpl. by rewrite Hroot1. }
  destruct Hinst as [|s v rs rv Hsv Hrest]; [done |].
  simpl in Hsimple. apply andb_true_iff in Hsimple as (Hss & Hsrest).
  set (q := path_of (v :: rv)).
  assert (Hq : q = pathSep +:+ v +:+ path_of rv) by done.
  pose proof (path_of_long v rv Hvals) as Hlong. fold q in Hlong.
  unfold Search.
  replace (len q =? 0) with false by (symmetry; apply Z.eqb_neq; lia).
  replace (len q =? 1) with false by (symmetry; apply Z.eqb_neq; lia).
  cbn [mbind res_bind].
  fold (canon t q). rewrite Hroot.
  assert (Hfuel : exists k, search_fuel t q
                            = (S (String.length v + String.length (path_of rv)) + k)%nat).
  { exists (search_fuel t q - S (String.length v + String.length (path_of rv)))%nat.
    assert (String.length q = S (String.length v + String.length (path_of rv))).
    { rewrite Hq. unfold pathSep. rewrite app_cons, app_nil_l. simpl.
      by rewrite length_app_str. }
    unfold search_fuel. nia. }
  destruct Hfuel as (k & ->).
  change 1 with (len pathSep).
  assert (Hascii' : within_ascii t q = true) by (by rewrite (within_ascii_ci t0)).
  destruct (search_loop_chain t q m nd Hascii' Hnd Hend rs rv) with
    (s := s) (v := v) (pre := pathSep) (a := 0%nat) (pv := nil_slice)
    (vis := (∅ : gset ptr)) (k := k)
    as (pv' & Hsearch & _ & Hcells); try done.
  { eapply Forall2_impl; [exact Hrest |].
    intros x y. by apply instance_of_ci. }
  { by apply (instance_of_ci t0). }
  rewrite Hsearch. cbn [mbind res_bind]. unfold search_finish.
  rewrite (deref_Some _ _ _ Hnd). cbn [mbind res_bind]. rewrite Hend.
  cbn [mbind res_bind].
  rewrite emit_zip, Hkeys, Hcells. done.
Qed.

Lemma named_parameters_round_trip_witness :
  exists t n,
    Insert (NewTrieWithOptions (options true false))
           (path_of ["users"; ":id"; "posts"; ":post"]) [] = Ok (t, n)
    /\ terminal_of t n (path_of ["users"; ":id"; "posts"; ":post"])
    /\ Search t (path_of ["Users"; "Ann"; "POSTS"; ""])
       = Ok (n, zip (pattern_params ["users"; ":id"; "posts"; ":post"])
                    (bound_values ["users"; ":id"; "posts"; ":post"]
                                  ["Users"; "Ann"; "POSTS"; ""])).
Proof.
  apply (named_parameters_round_trip (options true false)
           ["users"; ":id"; "posts"; ":post"] ["Users"; "Ann"; "POSTS"; ""]).
  - discriminate.
  - reflexivity.
  - repeat constructor; discriminate.
  - discriminate.
  - reflexivity.
Defined.

(** X19: on every trie and for every request, when [Search] returns a node, the keys of the calls of [params.Set] it made are the first keys of the [paramKeys] of that node, in order: the i-th call sets [n.paramKeys[i]], and there are at most [len(n.paramKeys)] calls. *)
Theorem Search_calls_follow_paramKeys (t : Trie) (q : string) (n : ptr)
    (calls : sets) (nd : Node) :
  Search t q = Ok (n, calls) ->
  deref t n = Ok nd ->
  calls.*1 = take (length calls) (paramKeys nd)
  /\ (length calls <= length (paramKeys nd))%nat.
Proof.
  intros HS Hd.
  assert (Hshape :
    (exists paramValues, calls = zip (paramKeys nd) (cells paramValues))
    \/ calls = []
    \/ exists k v, paramKeys nd !! 0%nat = Some k /\ calls = [(k, v)]).
  { unfold Search in HS.
    apply bind_Ok in HS as (fast & _ & HS).
    destruct fast.
    - right; left.
      destruct (hasRootSlash t); [| destruct (hasRootWildcard t)];
        res_inv; done.
    - apply bind_Ok in HS as (e & Hloop & HS).
      destruct e as [r calls' | r pv].
      + simplify_eq. right.
        eapply search_loop_returned; eauto.
      + eapply search_finish_calls in HS; [| eassumption].
        destruct HS as [(-> & Hend & ->) | HS]; [left; eauto | right; exact HS]. }
  destruct Hshape as [(pv & ->) | [-> | (k & v & Hk & ->)]].
  - split; [apply fst_zip_take |].
    rewrite length_zip; lia.
  - split; [done |]. simpl; lia.
  - simpl. destruct (paramKeys nd) as [|k' ks]; simplify_eq/=.
    split; [done |]. lia.
Qed.

Lemma Search_calls_follow_paramKeys_witness :
  let t := built (options false true) ["/:x/b/c"; "/:x/:y"] in
  let n := Some 4%nat in
  let calls := [("x", "1")] in
  Search t "/1/b" = Ok (n, calls)
  /\ paramKeys (node_at t n) = ["x"; "y"]
  /\ calls.*1 = take (length calls) (paramKeys (node_at t n))
  /\ (length calls <= length (paramKeys (node_at t n)))%nat.
Proof.
  intros t n calls.
  assert (HS : Search t "/1/b" = Ok (n, calls)) by (vm_compute; reflexivity).
  assert (Hd : deref t n = Ok (node_at t n)) by (vm_compute; reflexivity).
  destruct (Search_calls_follow_paramKeys t "/1/b" n calls (node_at t n) HS Hd)
    as (Hk & Hl).
  split; [assumption |]. split; [reflexivity |]. split; assumption.
Defined.

(** ** Lowering that shortens the request *)

Lemma search_step_slice_panic t q qc st k :
  (st_i st = len q \/ byte_at q (st_i st) = Ok pathSepB) ->
  slice qc (st_start st) (st_i st) = Panic k ->
  search_step t q qc (len q) st = Panic k.
Proof.
  intros Hi Hs. unfold search_step.
  assert (Hsep : (if st_i st =? len q then Ok true
                  else byte_at q (st_i st) ≫= λ c0, Ok (Ascii.eqb c0 pathSepB))
                 = Ok true).
  { destruct (Z.eqb_spec (st_i st) (len q)) as [|Hne]; [done |].
    destruct Hi as [|Hi]; [done |]. rewrite Hi. done. }
  rewrite Hsep. simpl. rewrite Hs. done.
Qed.

(** X20: on a case-insensitive trie built by insertion, [Search] panics with a slice out of range on every request whose lowered copy is shorter than the request up to the end of its first segment: [qc[start:i]] takes the indices of the request.  So it is for the request made of the Kelvin sign, which [strings.ToLower] turns into k: inserted as a pattern, it is found by the search of [/k] and its own search panics. *)
Theorem Search_panics_when_lowering_shortens (opts : TrieOptions) (ps : list string)
    (t : Trie) (terms : list ptr) (seg tail : string) :
  insert_all (NewTrieWithOptions opts) ps = Ok (t, terms) ->
  CaseInsensitive opts = true ->
  no_slash seg = true ->
  (tail = "" \/ exists tail', tail = pathSep +:+ tail') ->
  1 < len (pathSep +:+ seg +:+ tail) ->
  len (ToLower (pathSep +:+ seg +:+ tail)) < len (pathSep +:+ seg) ->
  Search t (pathSep +:+ seg +:+ tail) = Panic SliceBounds.
Proof.
  intros Hb Hopt Hns Htail Hlong Hshort.
  destruct (insert_all_trie_ok ps _ _ _ (NewTrieWithOptions_ok opts) Hb)
    as (((Hroot & _) & _) & Hci & _).
  simpl in Hci. rewrite Hopt in Hci.
  set (q := pathSep +:+ seg +:+ tail) in *.
  assert (Hq : q = pathSep +:+ seg +:+ tail) by done.
  unfold Search.
  replace (len q =? 0) with false by (symmetry; apply Z.eqb_neq; lia).
  replace (len q =? 1) with false by (symmetry; apply Z.eqb_neq; lia).
  cbn [mbind res_bind]. rewrite Hci, Hroot.
  assert (Hfuel : exists k, search_fuel t q = (String.length seg + S k)%nat).
  { exists (search_fuel t q - S (String.length seg))%nat.
    assert (S (String.length seg) <= String.length q)%nat.
    { rewrite Hq. unfold pathSep. rewrite app_cons, app_nil_l. simpl.
      rewrite length_app_str. lia. }
    unfold search_fuel. nia. }
  destruct Hfuel as (k & ->).
  change 1 with (len pathSep).
  rewrite (search_loop_scan t q (ToLower q) (Some 0%nat) (len pathSep) nil_slice ∅
             tail seg pathSep (S k) Hq Hns).
  cbn [search_loop].
  rewrite (search_step_slice_panic _ _ _ _ SliceBounds); [done | |].
  - simpl. destruct Htail as [-> | (tail' & ->)].
    + left. rewrite Hq. by rewrite app_str_nil_r.
    + right. rewrite Hq. unfold pathSep at 3. rewrite app_cons, app_nil_l.
      rewrite <- app_str_assoc. apply byte_at_app.
  - simpl. unfold slice.
    replace (len (ToLower q) <? len (pathSep +:+ seg)) with true
      by (symmetry; apply Z.ltb_lt; lia).
    by rewrite orb_true_r.
Qed.

Lemma Search_panics_when_lowering_shortens_witness :
  exists t n,
    insert_all (NewTrieWithOptions (options true false)) [pathSep +:+ KelvinSign]
    = Ok (t, [n])
    /\ ToLower (pathSep +:+ KelvinSign) = "/k"
    /\ Search t "/k" = Ok (n, [])
    /\ Search t (pathSep +:+ KelvinSign +:+ "") = Panic SliceBounds.
Proof.
  eexists _, _.
  split; [vm_compute; reflexivity |].
  split; [vm_compute; reflexivity |].
  split; [vm_compute; reflexivity |].
  apply (Search_panics_when_lowering_shortens (options true false)
           [pathSep +:+ KelvinSign] _ [Some 1%nat] KelvinSign "").
  - vm_compute; reflexivity.
  - reflexivity.
  - reflexivity.
  - left; reflexivity.
  - vm_compute; reflexivity.
  - vm_compute; reflexivity.
Defined.
